(** * J_chess_gui: the rules engine and the engine-protocol client

    A shallow embedding of [chess_arena.py]: the [Board] class (position
    state, move generation, FEN codec, SAN rendering, game-end
    classification) and the [UCIEngine] class (process handshake, search
    loop, teardown).

    Conventions of the embedding.
    - Python [int] is [Z]; a one-character Python string stored in a board
      cell is an [ascii]; other strings are [string].  Characters are the
      8-bit [ascii] type and the character predicates ([isupper], [isdigit],
      [isspace], ...) are Python's on the ASCII range; code points above 127
      are caseless, non-digit and non-space here.
    - A Python exception is a value [Raise e] of the [result] type; the
      methods of [Board] are functions into [result].
    - Mutation of [self] is explicit state passing: a method that mutates
      returns the new [Board]. *)

From Stdlib Require Import ZArith List Bool Ascii String Lia.
From Stdlib Require DecimalString DecimalZ DecimalPos DecimalN DecimalFacts.
Import ListNotations.

Local Open Scope string_scope.
Local Open Scope list_scope.
Local Open Scope Z_scope.

(** String concatenation, kept apart from list append. *)
Infix "+++" := String.append (at level 60, right associativity).

(** ** Exceptions and the result monad *)

Inductive exn : Type :=
| IndexError                              (* list / string index out of range *)
| ValueError_int                          (* int() on a non-numeric string *)
| ValueError_chr                          (* chr() outside the alphabet *)
| ValueError_bad_uci (uci : string)       (* ValueError("Bad UCI: ...") *)
| ValueError_illegal_move (uci : string)  (* ValueError("Illegal move: ...") *)
| BrokenPipeError                         (* write to a closed pipe *)
| RuntimeError (msg : string)             (* raised by [UCIEngine.start] *)
| OtherError (name : string)              (* any other subclass of Exception *)
| OutOfFuel.                              (* a while loop exceeded its bound *)

Inductive result (A : Type) : Type :=
| Ok (a : A)
| Raise (e : exn).
Arguments Ok {A} a.
Arguments Raise {A} e.

Definition bind {A B} (m : result A) (k : A -> result B) : result B :=
  match m with
  | Ok a => k a
  | Raise e => Raise e
  end.

Notation "x <- m ;; k" := (bind m (fun x => k))
  (at level 61, m at next level, right associativity).
Notation "' pat <- m ;; k" := (bind m (fun x => match x with pat => k end))
  (at level 61, pat pattern, m at next level, right associativity).

Definition is_ok {A} (m : result A) : bool :=
  match m with Ok _ => true | Raise _ => false end.

(** ** Python primitives *)

Module Py.

(** Character classes on the ASCII range. *)
Definition ord (c : ascii) : Z := Z.of_N (N_of_ascii c).

Definition isupper (c : ascii) : bool := (65 <=? ord c) && (ord c <=? 90).
Definition islower (c : ascii) : bool := (97 <=? ord c) && (ord c <=? 122).
Definition isdigit (c : ascii) : bool := (48 <=? ord c) && (ord c <=? 57).
Definition isspace (c : ascii) : bool :=
  ((9 <=? ord c) && (ord c <=? 13)) || ((28 <=? ord c) && (ord c <=? 32)).

Definition of_code (n : Z) : ascii := ascii_of_N (Z.to_N n).

Definition lower (c : ascii) : ascii :=
  if isupper c then of_code (ord c + 32) else c.
Definition upper (c : ascii) : ascii :=
  if islower c then of_code (ord c - 32) else c.

(** [chr(n)]: raises outside the alphabet of the embedding. *)
Definition chr (n : Z) : result ascii :=
  if (0 <=? n) && (n <? 256) then Ok (of_code n) else Raise ValueError_chr.

(** [l[i]] with Python's negative indices. *)
Definition norm_index (len i : Z) : option nat :=
  let j := if i <? 0 then i + len else i in
  if (0 <=? j) && (j <? len) then Some (Z.to_nat j) else None.

Definition index {A} (l : list A) (i : Z) : result A :=
  match norm_index (Z.of_nat (List.length l)) i with
  | Some j => match nth_error l j with
              | Some x => Ok x
              | None => Raise IndexError
              end
  | None => Raise IndexError
  end.

Fixpoint replace_nth {A} (l : list A) (j : nat) (x : A) : list A :=
  match l, j with
  | [], _ => []
  | _ :: t, O => x :: t
  | h :: t, S j' => h :: replace_nth t j' x
  end.

(** [l[i] = x] *)
Definition setitem {A} (l : list A) (i : Z) (x : A) : result (list A) :=
  match norm_index (Z.of_nat (List.length l)) i with
  | Some j => Ok (replace_nth l j x)
  | None => Raise IndexError
  end.

(** [s[i]] on a string. *)
Definition sindex (s : string) (i : Z) : result ascii :=
  match norm_index (Z.of_nat (String.length s)) i with
  | Some j => match String.get j s with
              | Some x => Ok x
              | None => Raise IndexError
              end
  | None => Raise IndexError
  end.

Definition chars (s : string) : list ascii := list_ascii_of_string s.
Definition of_chars (l : list ascii) : string := string_of_list_ascii l.

Definition str1 (c : ascii) : string := String c EmptyString.

(** [c in s] for a one-character [c]. *)
Definition char_in (c : ascii) (s : string) : bool :=
  existsb (Ascii.eqb c) (chars s).

(** [sep.join(l)] *)
Fixpoint join (sep : string) (l : list string) : string :=
  match l with
  | [] => ""
  | [x] => x
  | x :: rest => x +++ sep +++ join sep rest
  end.

(** [s.split(sep)] for a one-character separator. *)
Fixpoint split_on (sep : ascii) (s : string) : list string :=
  match s with
  | EmptyString => [""]
  | String c s' =>
      if Ascii.eqb c sep then "" :: split_on sep s'
      else match split_on sep s' with
           | [] => [str1 c]
           | w :: ws => String c w :: ws
           end
  end.

(** [s.split()]: maximal runs of non-space characters. *)
Fixpoint split_ws (s : string) : list string :=
  match s with
  | EmptyString => []
  | String c s' =>
      if isspace c then split_ws s'
      else match s' with
           | EmptyString => [str1 c]
           | String c' _ =>
               if isspace c' then str1 c :: split_ws s'
               else match split_ws s' with
                    | [] => [str1 c]
                    | w :: ws => String c w :: ws
                    end
           end
  end.

(** [s.startswith(p)] *)
Definition startswith (s p : string) : bool := String.prefix p s.

(** [s.strip()] *)
Fixpoint lstrip (s : string) : string :=
  match s with
  | EmptyString => ""
  | String c s' => if isspace c then lstrip s' else s
  end.
Fixpoint rstrip (s : string) : string :=
  match s with
  | EmptyString => ""
  | String c s' =>
      match rstrip s' with
      | EmptyString => if isspace c then "" else str1 c
      | r => String c r
      end
  end.
Definition strip (s : string) : string := rstrip (lstrip s).

(** [str(n)] *)
Definition str (n : Z) : string := DecimalString.NilZero.string_of_int (Z.to_int n).

(** Underscores of an integer literal: single, between digits. *)
Fixpoint strip_underscores (prev_digit : bool) (s : string) : option string :=
  match s with
  | EmptyString => if prev_digit then Some "" else None
  | String c s' =>
      if Ascii.eqb c "_" then
        if prev_digit then
          match s' with
          | EmptyString => None
          | _ => strip_underscores false s'
          end
        else None
      else if isdigit c then
        option_map (String c) (strip_underscores true s')
      else None
  end.

Definition digits_value (s : string) : option Z :=
  match s with
  | EmptyString => None
  | String c _ =>
      if isdigit c then
        match strip_underscores false s with
        | Some ds => option_map Z.of_uint (DecimalString.NilZero.uint_of_string ds)
        | None => None
        end
      else None
  end.

(** [int(s)]: surrounding whitespace, an optional sign, decimal digits. *)
Definition int (s : string) : result Z :=
  let body (neg : bool) (t : string) :=
    match digits_value t with
    | Some v => Ok (if neg then - v else v)
    | None => Raise ValueError_int
    end in
  match strip s with
  | String "-" t => body true t
  | String "+" t => body false t
  | t => body false t
  end.

(** [x or d] on strings: the empty string is falsy. *)
Definition or_str (x : option string) (d : string) : string :=
  match x with
  | Some s => if String.eqb s "" then d else s
  | None => d
  end.

(** [range(8)] *)
Definition range8 : list Z := [0; 1; 2; 3; 4; 5; 6; 7].

(** [s.endswith(suf)] *)
Definition endswith (s suf : string) : bool :=
  let n := String.length s in
  let k := String.length suf in
  (k <=? n)%nat && String.eqb (String.substring (n - k) k s) suf.

(** [s[:stop]] with Python's negative and out-of-range bounds. *)
Definition slice_to (s : string) (stop : Z) : string :=
  let len := Z.of_nat (String.length s) in
  let j := if stop <? 0 then Z.max 0 (stop + len) else Z.min stop len in
  String.substring 0 (Z.to_nat j) s.

(** [s.replace(c, '')] for a one-character [c]. *)
Definition remove_char (c : ascii) (s : string) : string :=
  of_chars (filter (fun x => negb (Ascii.eqb x c)) (chars s)).

End Py.

(** ** Constants *)

Definition START_FEN : string :=
  "rnbqkbnr/pppppppp/8/8/8/8/PPPPPPPP/RNBQKBNR w KQkq - 0 1".

Definition ROOK_D   : list (Z * Z) := [(1,0); (-1,0); (0,1); (0,-1)].
Definition BISHOP_D : list (Z * Z) := [(1,1); (1,-1); (-1,1); (-1,-1)].
Definition QUEEN_D  : list (Z * Z) := ROOK_D ++ BISHOP_D.
Definition KNIGHT_D : list (Z * Z) :=
  [(2,1); (2,-1); (-2,1); (-2,-1); (1,2); (1,-2); (-1,2); (-1,-2)].
Definition KING_D   : list (Z * Z) := ROOK_D ++ BISHOP_D.

Definition valid (r c : Z) : bool :=
  (0 <=? r) && (r <? 8) && (0 <=? c) && (c <? 8).

(** ** Module-level tables and helpers *)

(** The labels are the UTF-8 bytes of the source literals. *)
Definition RANK_TIERS : list (Z * string * string) :=
  [ (4000, "💀 Immortal", "#FF0000");
    (3000, "🌌 Super Grandmaster", "#FF4500");
    (2800, "👑 Grandmaster", "#FFD700");
    (2600, "💎 Master", "#00CFFF");
    (2400, "🏆 Expert", "#FF6B35");
    (2200, "⚡ Advanced", "#A0E040");
    (2000, "🔥 Intermediate", "#FF8C42");
    (1800, "🤖 Developing", "#C8A2C8");
    (1600, "🎯 Beginner", "#87CEEB");
    (0, "🌱 Novice", "#90EE90") ].

(** [for threshold, label, color in tiers: if rating >= threshold: return ...] *)
Fixpoint first_tier (rating : Z) (tiers : list (Z * string * string))
  : string * string :=
  match tiers with
  | [] => ("🌱 Novice", "#90EE90")
  | (threshold, label, color) :: rest =>
      if threshold <=? rating then (label, color) else first_tier rating rest
  end.

Definition get_tier (rating : Z) : string * string :=
  first_tier rating RANK_TIERS.

Definition QUALITY_COLORS : list (string * string) :=
  [ ("Brilliant", "#1BECA0"); ("Best", "#5BC0EB"); ("Excellent", "#7FFF00");
    ("Great", "#A8D8A8"); ("Good", "#FFDD57"); ("Mistake", "#FFA500");
    ("Blunder", "#FF4444") ].

(** [None] stands for a missing evaluation. *)
Definition classify_move_quality (cp_before cp_after : option Z)
  (is_white_moving : bool) : option string :=
  match cp_before, cp_after with
  | Some before, Some after =>
      let loss := if is_white_moving then before - after else after - before in
      Some (if loss <=? -50 then "Brilliant"
            else if loss <=? 0 then "Best"
            else if loss <=? 10 then "Excellent"
            else if loss <=? 25 then "Great"
            else if loss <=? 50 then "Good"
            else if loss <=? 100 then "Mistake"
            else "Blunder")
  | _, _ => None
  end.

Definition color_suffixes : list string :=
  [" (White)"; " (Black)"; " (white)"; " (black)";
   "(White)"; "(Black)"; "(white)"; "(black)"].

(** One iteration of the loop of [normalize_engine_name]. *)
Definition strip_suffix (name suffix : string) : string :=
  if Py.endswith name suffix
  then Py.strip (Py.slice_to name (- Z.of_nat (String.length suffix)))
  else name.

Definition normalize_engine_name (name : string) : string :=
  Py.strip (fold_left strip_suffix color_suffixes name).

Definition PIECE_VALUES : list (ascii * Z) :=
  [("p"%char, 1); ("n"%char, 3); ("b"%char, 3); ("r"%char, 5);
   ("q"%char, 9); ("k"%char, 0)].

(** ** The position *)

(** A move is the tuple [(fr, fc, tr, tc, promo)]. *)
Definition move : Type := Z * Z * Z * Z * option ascii.

Definition move_eqb (m1 m2 : move) : bool :=
  let '(a1, b1, c1, d1, p1) := m1 in
  let '(a2, b2, c2, d2, p2) := m2 in
  (a1 =? a2) && (b1 =? b2) && (c1 =? c2) && (d1 =? d2) &&
  match p1, p2 with
  | Some x, Some y => Ascii.eqb x y
  | None, None => true
  | _, _ => false
  end.

(** [m in legal] *)
Definition move_in (m : move) (l : list move) : bool := existsb (move_eqb m) l.

Record Board : Type := mkBoard {
  board        : list (list ascii);
  turn         : string;
  castling     : string;
  ep           : string;
  halfmove     : Z;
  fullmove     : Z;
  move_history : list (string * string * string);
  pos_history  : list (string * Z);
  cap_white    : list ascii;
  cap_black    : list ascii;
  _material_cache : option (Z * Z)
}.

(** The dict [pos_history]: insertion-ordered, keys unique. *)
Fixpoint dict_get (d : list (string * Z)) (k : string) (default : Z) : Z :=
  match d with
  | [] => default
  | (k', v) :: rest => if String.eqb k' k then v else dict_get rest k default
  end.

Fixpoint dict_set (d : list (string * Z)) (k : string) (v : Z) : list (string * Z) :=
  match d with
  | [] => [(k, v)]
  | (k', v') :: rest =>
      if String.eqb k' k then (k', v) :: rest else (k', v') :: dict_set rest k v
  end.

Section BoardMethods.

Local Notation "a =c b" := (Ascii.eqb a b) (at level 70).

(** [self.board[r][c]] *)
Definition cell (b : Board) (r c : Z) : result ascii :=
  row <- Py.index (board b) r ;; Py.index row c.

(** [self.board[r][c] = x] *)
Definition set_cell (g : list (list ascii)) (r c : Z) (x : ascii)
  : result (list (list ascii)) :=
  row <- Py.index g r ;;
  row' <- Py.setitem row c x ;;
  Py.setitem g r row'.

Definition get (b : Board) (r c : Z) : result (option ascii) :=
  if valid r c then x <- cell b r c ;; Ok (Some x) else Ok None.

Definition is_w (p : ascii) : bool := negb (p =c ".") && Py.isupper p.
Definition is_b (p : ascii) : bool := negb (p =c ".") && Py.islower p.
Definition same (p1 p2 : ascii) : bool :=
  (is_w p1 && is_w p2) || (is_b p1 && is_b p2).
Definition enemy (p : ascii) (turn : string) : bool :=
  if String.eqb turn "w" then is_b p else is_w p.

(** [find_king]: the first square, in row-major order, holding the king. *)
Fixpoint find_in_row (b : Board) (k : ascii) (r : Z) (cs : list Z)
  : result (option (Z * Z)) :=
  match cs with
  | [] => Ok None
  | c :: cs' =>
      x <- cell b r c ;;
      if x =c k then Ok (Some (r, c)) else find_in_row b k r cs'
  end.

Fixpoint find_in_rows (b : Board) (k : ascii) (rs : list Z)
  : result (option (Z * Z)) :=
  match rs with
  | [] => Ok None
  | r :: rs' =>
      o <- find_in_row b k r Py.range8 ;;
      match o with
      | Some sq => Ok (Some sq)
      | None => find_in_rows b k rs'
      end
  end.

Definition find_king (b : Board) (turn : string) : result (option (Z * Z)) :=
  let k := if String.eqb turn "w" then "K"%char else "k"%char in
  find_in_rows b k Py.range8.

(** [has(p)] of [is_attacked] *)
Definition has (by_ : string) (p : ascii) : bool :=
  if String.eqb by_ "w" then is_w p else is_b p.

(** One of the fixed-offset loops of [is_attacked]: is there a piece of kind
    [kind] of side [by_] on one of the offsets. *)
Fixpoint attacked_by_offsets (b : Board) (r c : Z) (by_ : string)
  (kind : ascii) (ds : list (Z * Z)) : result bool :=
  match ds with
  | [] => Ok false
  | (dr, dc) :: ds' =>
      let nr := r + dr in
      let nc := c + dc in
      hit <- (if valid nr nc then
                x <- cell b nr nc ;;
                Ok ((Py.lower x =c kind) && has by_ x)
              else Ok false) ;;
      if hit then Ok true else attacked_by_offsets b r c by_ kind ds'
  end.

(** The [while valid(nr,nc)] walk of [is_attacked] along one direction. *)
Fixpoint attack_ray (fuel : nat) (b : Board) (by_ : string) (chars : string)
  (dr dc nr nc : Z) : result bool :=
  match fuel with
  | O => Raise OutOfFuel
  | S fuel' =>
      if valid nr nc then
        p <- cell b nr nc ;;
        if negb (p =c ".") then
          Ok (Py.char_in (Py.lower p) chars && has by_ p)
        else attack_ray fuel' b by_ chars dr dc (nr + dr) (nc + dc)
      else Ok false
  end.

Fixpoint attacked_by_rays (b : Board) (r c : Z) (by_ : string)
  (chars : string) (ds : list (Z * Z)) : result bool :=
  match ds with
  | [] => Ok false
  | (dr, dc) :: ds' =>
      hit <- attack_ray 9 b by_ chars dr dc (r + dr) (c + dc) ;;
      if hit then Ok true else attacked_by_rays b r c by_ chars ds'
  end.

Definition is_attacked (b : Board) (r c : Z) (by_ : string) : result bool :=
  n <- attacked_by_offsets b r c by_ "n" KNIGHT_D ;;
  if n then Ok true else
  s1 <- attacked_by_rays b r c by_ "qr" ROOK_D ;;
  if s1 then Ok true else
  s2 <- attacked_by_rays b r c by_ "qb" BISHOP_D ;;
  if s2 then Ok true else
  k <- attacked_by_offsets b r c by_ "k" KING_D ;;
  if k then Ok true else
  let pawn_dirs := if String.eqb by_ "w" then [(1,-1); (1,1)]
                   else [(-1,-1); (-1,1)] in
  attacked_by_offsets b r c by_ "p" pawn_dirs.

Definition in_check (b : Board) (turn_arg : option string) : result bool :=
  let t := Py.or_str turn_arg (turn b) in
  k <- find_king b t ;;
  match k with
  | None => Ok false
  | Some (kr, kc) =>
      let opp := if String.eqb t "w" then "b" else "w" in
      is_attacked b kr kc opp
  end.

(** *** Pseudo-legal moves *)

(** [for pp in 'qrbn': mv.append((r,c,nr,nc,pp))] *)
Definition promo_moves (r c nr nc : Z) : list move :=
  map (fun pp => (r, c, nr, nc, Some pp)) (Py.chars "qrbn").

(** [is_ep] of the pawn-capture loop. *)
Definition is_ep_square (b : Board) (nr nc : Z) : result bool :=
  if negb (String.eqb (ep b) "-") then
    e1 <- Py.sindex (ep b) 1 ;;
    n <- Py.int (Py.str1 e1) ;;
    if nr =? 8 - n then
      e0 <- Py.sindex (ep b) 0 ;;
      Ok (nc =? Py.ord e0 - Py.ord "a")
    else Ok false
  else Ok false.

Fixpoint pawn_captures (b : Board) (turn : string) (r c fwd promo_r : Z)
  (dcs : list Z) : result (list move) :=
  match dcs with
  | [] => Ok []
  | dc :: dcs' =>
      let nc := c + dc in
      let nr := r + fwd in
      here <- (if valid nr nc then
                 tgt <- cell b nr nc ;;
                 let is_cap := enemy tgt turn in
                 is_ep <- is_ep_square b nr nc ;;
                 if is_cap || is_ep then
                   if nr =? promo_r then Ok (promo_moves r c nr nc)
                   else Ok [(r, c, nr, nc, None)]
                 else Ok []
               else Ok []) ;;
      rest <- pawn_captures b turn r c fwd promo_r dcs' ;;
      Ok (here ++ rest)
  end.

Definition pawn_moves (b : Board) (turn : string) (r c : Z) : result (list move) :=
  let fwd := if String.eqb turn "w" then -1 else 1 in
  let start_r := if String.eqb turn "w" then 6 else 1 in
  let promo_r := if String.eqb turn "w" then 0 else 7 in
  let nr := r + fwd in
  adv <- (if valid nr c then
            x <- cell b nr c ;;
            if x =c "." then
              if nr =? promo_r then Ok (promo_moves r c nr c)
              else
                dbl <- (if r =? start_r then
                          y <- cell b (r + 2 * fwd) c ;; Ok (y =c ".")
                        else Ok false) ;;
                Ok ((r, c, nr, c, None) ::
                    (if dbl then [(r, c, r + 2 * fwd, c, None)] else []))
            else Ok []
          else Ok []) ;;
  caps <- pawn_captures b turn r c fwd promo_r [-1; 1] ;;
  Ok (adv ++ caps).

(** The knight and king loops over a fixed offset table. *)
Fixpoint offset_moves (b : Board) (piece : ascii) (r c : Z)
  (ds : list (Z * Z)) : result (list move) :=
  match ds with
  | [] => Ok []
  | (dr, dc) :: ds' =>
      let nr := r + dr in
      let nc := c + dc in
      ok <- (if valid nr nc then
               x <- cell b nr nc ;; Ok (negb (same piece x))
             else Ok false) ;;
      rest <- offset_moves b piece r c ds' ;;
      Ok (if ok then (r, c, nr, nc, None) :: rest else rest)
  end.

(** The [while valid(nr,nc)] walk of a sliding piece along one direction. *)
Fixpoint slide_ray (fuel : nat) (b : Board) (turn : string) (r c dr dc nr nc : Z)
  : result (list move) :=
  match fuel with
  | O => Raise OutOfFuel
  | S fuel' =>
      if valid nr nc then
        t2 <- cell b nr nc ;;
        if t2 =c "." then
          rest <- slide_ray fuel' b turn r c dr dc (nr + dr) (nc + dc) ;;
          Ok ((r, c, nr, nc, None) :: rest)
        else if enemy t2 turn then Ok [(r, c, nr, nc, None)]
        else Ok []
      else Ok []
  end.

Fixpoint slide_moves (b : Board) (turn : string) (r c : Z) (ds : list (Z * Z))
  : result (list move) :=
  match ds with
  | [] => Ok []
  | (dr, dc) :: ds' =>
      here <- slide_ray 9 b turn r c dr dc (r + dr) (c + dc) ;;
      rest <- slide_moves b turn r c ds' ;;
      Ok (here ++ rest)
  end.

(** The castling part of the king branch. *)
Definition castle_moves (b : Board) (turn : string) (r c : Z) : result (list move) :=
  let opp := if String.eqb turn "w" then "b" else "w" in
  let '(kr, kc) := if String.eqb turn "w" then (7, 4) else (0, 4) in
  if (r =? kr) && (c =? kc) then
    att <- is_attacked b kr kc opp ;;
    if negb att then
      let ks := if String.eqb turn "w" then "K"%char else "k"%char in
      let qs := if String.eqb turn "w" then "Q"%char else "q"%char in
      let rp := if String.eqb turn "w" then "R"%char else "r"%char in
      let cas := if String.eqb (castling b) "" then "" else castling b in
      kside <- (if Py.char_in ks cas then
                  x5 <- cell b kr 5 ;;
                  if x5 =c "." then
                    x6 <- cell b kr 6 ;;
                    if x6 =c "." then
                      x7 <- cell b kr 7 ;;
                      if x7 =c rp then
                        a5 <- is_attacked b kr 5 opp ;;
                        if negb a5 then
                          a6 <- is_attacked b kr 6 opp ;; Ok (negb a6)
                        else Ok false
                      else Ok false
                    else Ok false
                  else Ok false
                else Ok false) ;;
      qside <- (if Py.char_in qs cas then
                  x3 <- cell b kr 3 ;;
                  if x3 =c "." then
                    x2 <- cell b kr 2 ;;
                    if x2 =c "." then
                      x1 <- cell b kr 1 ;;
                      if x1 =c "." then
                        x0 <- cell b kr 0 ;;
                        if x0 =c rp then
                          a3 <- is_attacked b kr 3 opp ;;
                          if negb a3 then
                            a2 <- is_attacked b kr 2 opp ;; Ok (negb a2)
                          else Ok false
                        else Ok false
                      else Ok false
                    else Ok false
                  else Ok false
                else Ok false) ;;
      Ok ((if kside then [(r, c, kr, kc + 2, None)] else []) ++
          (if qside then [(r, c, kr, kc - 2, None)] else []))
    else Ok []
  else Ok [].

Definition _pseudo (b : Board) (r c : Z) : result (list move) :=
  piece <- cell b r c ;;
  if piece =c "." then Ok [] else
  let p := Py.lower piece in
  let turn := if Py.isupper piece then "w" else "b" in
  if p =c "p" then pawn_moves b turn r c
  else if p =c "n" then offset_moves b piece r c KNIGHT_D
  else if (p =c "b") || (p =c "r") || (p =c "q") then
    let dirs := if p =c "b" then BISHOP_D
                else if p =c "r" then ROOK_D else QUEEN_D in
    slide_moves b turn r c dirs
  else if p =c "k" then
    steps <- offset_moves b piece r c KING_D ;;
    cast <- castle_moves b turn r c ;;
    Ok (steps ++ cast)
  else Ok [].

(** *** Applying a move to a copy *)

(** [cas.remove(flag)]: drops the first occurrence. *)
Fixpoint remove_first (x : ascii) (l : list ascii) : list ascii :=
  match l with
  | [] => []
  | y :: l' => if y =c x then l' else y :: remove_first x l'
  end.

(** [for rr,rc,flag in pairs: if r==rr and c==rc and flag in cas: cas.remove(flag)] *)
Fixpoint drop_corner_flags (r c : Z) (pairs : list (Z * Z * ascii))
  (cas : list ascii) : list ascii :=
  match pairs with
  | [] => cas
  | (rr, rc, flag) :: pairs' =>
      let cas' := if (r =? rr) && (c =? rc) && existsb (Ascii.eqb flag) cas
                  then remove_first flag cas else cas in
      drop_corner_flags r c pairs' cas'
  end.

Definition corner_pairs : list (Z * Z * ascii) :=
  [(7, 7, "K"%char); (7, 0, "Q"%char); (0, 7, "k"%char); (0, 0, "q"%char)].

(** The new value of [castling]. *)
Definition update_castling (castling turn : string) (p : ascii) (fr fc tr tc : Z)
  : string :=
  let cas0 := filter (fun x => negb (x =c "-"))
                (Py.chars (if String.eqb castling "" then "" else castling)) in
  let cas1 := if p =c "k" then
                let remove := if String.eqb turn "w" then "KQ" else "kq" in
                filter (fun x => negb (Py.char_in x remove)) cas0
              else cas0 in
  let cas2 := if p =c "r" then drop_corner_flags fr fc corner_pairs cas1
              else cas1 in
  let cas3 := drop_corner_flags tr tc corner_pairs cas2 in
  match cas3 with
  | [] => "-"
  | _ => Py.of_chars cas3
  end.

Definition _apply_raw (self : Board) (mv : move) : result Board :=
  let '(fr, fc, tr, tc, promo) := mv in
  let g0 := board self in
  piece <- cell self fr fc ;;
  target <- cell self tr tc ;;
  let p := Py.lower piece in
  let turn := turn self in
  (* en-passant capture *)
  g1 <- (if (p =c "p") && negb (String.eqb (ep self) "-") then
           e0 <- Py.sindex (ep self) 0 ;;
           let ep_c := Py.ord e0 - Py.ord "a" in
           e1 <- Py.sindex (ep self) 1 ;;
           n <- Py.int (Py.str1 e1) ;;
           let ep_r := 8 - n in
           if (tr =? ep_r) && (tc =? ep_c) then set_cell g0 fr ep_c "."
           else Ok g0
         else Ok g0) ;;
  (* the rook of a castling move *)
  let rook := if String.eqb turn "w" then "R"%char else "r"%char in
  g2 <- (if p =c "k" then
           if (fc =? 4) && (tc =? 6) then
             g <- set_cell g1 fr 7 "." ;; set_cell g fr 5 rook
           else if (fc =? 4) && (tc =? 2) then
             g <- set_cell g1 fr 0 "." ;; set_cell g fr 3 rook
           else Ok g1
         else Ok g1) ;;
  g3 <- set_cell g2 tr tc piece ;;
  g4 <- set_cell g3 fr fc "." ;;
  g5 <- (match promo with
         | Some pr =>
             set_cell g4 tr tc
               (if String.eqb turn "w" then Py.upper pr else Py.lower pr)
         | None =>
             if (p =c "p") && ((tr =? 0) || (tr =? 7)) then
               set_cell g4 tr tc (if String.eqb turn "w" then "Q" else "q")%char
             else Ok g4
         end) ;;
  ep' <- (if (p =c "p") && (Z.abs (fr - tr) =? 2) then
            let ep_r2 := (fr + tr) / 2 in
            f <- Py.chr (Py.ord "a" + fc) ;;
            Ok (Py.str1 f +++ Py.str (8 - ep_r2))
          else Ok "-") ;;
  let castling' := update_castling (castling self) turn p fr fc tr tc in
  let halfmove' := if (p =c "p") || negb (target =c ".") then 0
                   else halfmove self + 1 in
  let fullmove' := if String.eqb turn "b" then fullmove self + 1
                   else fullmove self in
  let turn' := if String.eqb turn "w" then "b" else "w" in
  Ok {| board := g5; turn := turn'; castling := castling'; ep := ep';
        halfmove := halfmove'; fullmove := fullmove';
        move_history := []; pos_history := [];
        cap_white := []; cap_black := []; _material_cache := None |}.

(** *** Legal moves *)

(** [for mv in self._pseudo(r,c): b2=...; if not b2.in_check(t): result.append(mv)] *)
Fixpoint keep_safe (self : Board) (t : string) (mvs : list move)
  : result (list move) :=
  match mvs with
  | [] => Ok []
  | mv :: mvs' =>
      b2 <- _apply_raw self mv ;;
      chk <- in_check b2 (Some t) ;;
      rest <- keep_safe self t mvs' ;;
      Ok (if negb chk then mv :: rest else rest)
  end.

Definition legal_from (self : Board) (t : string) (r c : Z) : result (list move) :=
  p <- cell self r c ;;
  if p =c "." then Ok []
  else if negb (Bool.eqb (String.eqb t "w") (Py.isupper p)) then Ok []
  else
    mvs <- _pseudo self r c ;;
    keep_safe self t mvs.

Fixpoint legal_in_row (self : Board) (t : string) (r : Z) (cs : list Z)
  : result (list move) :=
  match cs with
  | [] => Ok []
  | c :: cs' =>
      here <- legal_from self t r c ;;
      rest <- legal_in_row self t r cs' ;;
      Ok (here ++ rest)
  end.

Fixpoint legal_in_rows (self : Board) (t : string) (rs : list Z)
  : result (list move) :=
  match rs with
  | [] => Ok []
  | r :: rs' =>
      here <- legal_in_row self t r Py.range8 ;;
      rest <- legal_in_rows self t rs' ;;
      Ok (here ++ rest)
  end.

Definition legal_moves (self : Board) (turn_arg : option string)
  : result (list move) :=
  let t := Py.or_str turn_arg (turn self) in
  legal_in_rows self t Py.range8.

(** *** The FEN codec *)

(** One row of [_load_fen]. *)
Fixpoint load_row (row_str : list ascii) : result (list ascii) :=
  match row_str with
  | [] => Ok []
  | ch :: rest =>
      tl <- (if Py.isdigit ch then
               n <- Py.int (Py.str1 ch) ;; Ok (repeat "."%char (Z.to_nat n))
             else Ok [ch]) ;;
      tl' <- load_row rest ;;
      Ok (tl ++ tl')
  end.

Fixpoint load_rows (rows : list string) : result (list (list ascii)) :=
  match rows with
  | [] => Ok []
  | row_str :: rest =>
      row <- load_row (Py.chars row_str) ;;
      rows' <- load_rows rest ;;
      Ok (row :: rows')
  end.

Definition _load_fen (self : Board) (fen : string) : result Board :=
  let parts := Py.split_ws fen in
  let len := Z.of_nat (List.length parts) in
  p0 <- Py.index parts 0 ;;
  g <- load_rows (Py.split_on "/" p0) ;;
  turn' <- (if 1 <? len then Py.index parts 1 else Ok "w") ;;
  castling' <- (if 2 <? len then Py.index parts 2 else Ok "-") ;;
  ep' <- (if 3 <? len then Py.index parts 3 else Ok "-") ;;
  halfmove' <- (if 4 <? len then s <- Py.index parts 4 ;; Py.int s else Ok 0) ;;
  fullmove' <- (if 5 <? len then s <- Py.index parts 5 ;; Py.int s else Ok 1) ;;
  Ok {| board := g; turn := turn'; castling := castling'; ep := ep';
        halfmove := halfmove'; fullmove := fullmove';
        move_history := move_history self; pos_history := pos_history self;
        cap_white := cap_white self; cap_black := cap_black self;
        _material_cache := None |}.

(** One row of [to_fen]: the loop state is the pair [(e, s)]. *)
Fixpoint fen_row (cells : list ascii) (e : Z) (s : string) : string :=
  match cells with
  | [] => if e =? 0 then s else s +++ Py.str e
  | x :: rest =>
      if x =c "." then fen_row rest (e + 1) s
      else
        let s1 := if e =? 0 then s else s +++ Py.str e in
        fen_row rest 0 (s1 +++ Py.str1 x)
  end.

Definition to_fen (self : Board) : string :=
  let rows := map (fun row => fen_row row 0 "") (board self) in
  let c := if String.eqb (castling self) "" then "-" else castling self in
  Py.join "/" rows +++ " " +++ turn self +++ " " +++ c +++ " " +++ ep self
    +++ " " +++ Py.str (halfmove self) +++ " " +++ Py.str (fullmove self).

Definition _pos_key (self : Board) : string :=
  let parts := Py.split_ws (to_fen self) in
  Py.join " " (firstn 4 parts).

(** [Board()]: the field defaults of [__init__], then [_load_fen(START_FEN)]. *)
Definition Board_init : result Board :=
  _load_fen {| board := []; turn := "w"; castling := "KQkq"; ep := "-";
               halfmove := 0; fullmove := 1;
               move_history := []; pos_history := [];
               cap_white := []; cap_black := []; _material_cache := None |}
            START_FEN.

(** *** SAN rendering *)

(** [8 - int(self.ep[1])] and [ord(self.ep[0]) - ord('a')] *)
Definition ep_file (self : Board) : result Z :=
  e0 <- Py.sindex (ep self) 0 ;; Ok (Py.ord e0 - Py.ord "a").
Definition ep_rank (self : Board) : result Z :=
  e1 <- Py.sindex (ep self) 1 ;; n <- Py.int (Py.str1 e1) ;; Ok (8 - n).

(** [f"{chr(ord('a')+c)}{8-r}"] *)
Definition square_name (r c : Z) : result string :=
  f <- Py.chr (Py.ord "a" + c) ;; Ok (Py.str1 f +++ Py.str (8 - r)).

(** [m[4]==promo] *)
Definition promo_eqb (p1 p2 : option ascii) : bool :=
  match p1, p2 with
  | Some x, Some y => x =c y
  | None, None => true
  | _, _ => false
  end.

(** The list comprehension [ambig] of [_build_san]. *)
Fixpoint ambiguous (self : Board) (p : ascii) (fr fc tr tc : Z)
  (promo : option ascii) (legal : list move) : result (list move) :=
  match legal with
  | [] => Ok []
  | m :: rest =>
      let '(m0, m1, m2, m3, m4) := m in
      keep <- (if (m2 =? tr) && (m3 =? tc) && promo_eqb m4 promo then
                 x <- cell self m0 m1 ;;
                 Ok ((Py.lower x =c p) && negb ((m0 =? fr) && (m1 =? fc)))
               else Ok false) ;;
      tl <- ambiguous self p fr fc tr tc promo rest ;;
      Ok (if keep then m :: tl else tl)
  end.

(** [f"={promo.upper()}"] when [promo] is truthy. *)
Definition promo_suffix (promo : option ascii) : string :=
  match promo with
  | Some pr => "=" +++ Py.str1 (Py.upper pr)
  | None => ""
  end.

Definition _build_san (self : Board) (fr fc tr tc : Z) (promo : option ascii)
  (legal : list move) : result string :=
  piece <- cell self fr fc ;;
  let p := Py.lower piece in
  target <- cell self tr tc ;;
  is_cap <- (if negb (target =c ".") then Ok true
             else if (p =c "p") && negb (String.eqb (ep self) "-") then
               f <- ep_file self ;;
               if tc =? f then r <- ep_rank self ;; Ok (tr =? r)
               else Ok false
             else Ok false) ;;
  if (p =c "k") && (fc =? 4) && (tc =? 6) then Ok "O-O"
  else if (p =c "k") && (fc =? 4) && (tc =? 2) then Ok "O-O-O"
  else
    to_sq <- square_name tr tc ;;
    if p =c "p" then
      san <- (if is_cap then
                f <- Py.chr (Py.ord "a" + fc) ;; Ok (Py.str1 f +++ "x" +++ to_sq)
              else Ok to_sq) ;;
      Ok (san +++ promo_suffix promo)
    else
      let pl := Py.upper p in
      ambig <- ambiguous self p fr fc tr tc promo legal ;;
      dis <- (match ambig with
              | [] => Ok ""
              | _ =>
                  let sf := existsb (fun m : move =>
                              let '(_, m1, _, _, _) := m in m1 =? fc) ambig in
                  let sr := existsb (fun m : move =>
                              let '(m0, _, _, _, _) := m in m0 =? fr) ambig in
                  if negb sf then
                    f <- Py.chr (Py.ord "a" + fc) ;; Ok (Py.str1 f)
                  else if negb sr then Ok (Py.str (8 - fr))
                  else
                    f <- Py.chr (Py.ord "a" + fc) ;;
                    Ok (Py.str1 f +++ Py.str (8 - fr))
              end) ;;
      let cap := if is_cap then "x" else "" in
      Ok (Py.str1 pl +++ dis +++ cap +++ to_sq +++ promo_suffix promo).

(** *** Methods that mutate [self]

    A computation in [M] receives the object and returns its outcome together
    with the object as the computation left it, also when it raises. *)

Definition M (A : Type) : Type := Board -> result A * Board.

Definition ret {A} (a : A) : M A := fun s => (Ok a, s).
Definition raise {A} (e : exn) : M A := fun s => (Raise e, s).
Definition bindM {A B} (m : M A) (k : A -> M B) : M B :=
  fun s => match m s with
           | (Ok a, s') => k a s'
           | (Raise e, s') => (Raise e, s')
           end.
(** A method call that only reads [self]. *)
Definition query {A} (f : Board -> result A) : M A := fun s => (f s, s).
(** An assignment to fields of [self]. *)
Definition assign (f : Board -> Board) : M unit := fun s => (Ok tt, f s).

Notation "x <~ m ;; k" := (bindM m (fun x => k))
  (at level 61, m at next level, right associativity).
Notation "' pat <~ m ;; k" := (bindM m (fun x => match x with pat => k end))
  (at level 61, pat pattern, m at next level, right associativity).
Notation "m ;;; k" := (bindM m (fun _ => k))
  (at level 61, right associativity).

(** The move decoded from the text, [(fr, fc, tr, tc, promo)]. *)
Definition parse_uci (uci : string) : result move :=
  if Z.of_nat (String.length uci) <? 4 then Raise (ValueError_bad_uci uci)
  else
    u0 <- Py.sindex uci 0 ;;
    let fc := Py.ord u0 - Py.ord "a" in
    u1 <- Py.sindex uci 1 ;;
    n1 <- Py.int (Py.str1 u1) ;;
    let fr := 8 - n1 in
    u2 <- Py.sindex uci 2 ;;
    let tc := Py.ord u2 - Py.ord "a" in
    u3 <- Py.sindex uci 3 ;;
    n3 <- Py.int (Py.str1 u3) ;;
    let tr := 8 - n3 in
    promo <- (if 4 <? Z.of_nat (String.length uci) then
                u4 <- Py.sindex uci 4 ;; Ok (Some (Py.lower u4))
              else Ok None) ;;
    Ok (fr, fc, tr, tc, promo).

Definition apply_uci (uci : string) : M (string * option ascii) :=
  '(fr, fc, tr, tc, promo0) <~ query (fun _ => parse_uci uci) ;;
  legal <~ query (fun self => legal_moves self None) ;;
  promo <~ (if negb (move_in (fr, fc, tr, tc, promo0) legal) then
              match promo0 with
              | None =>
                  if move_in (fr, fc, tr, tc, Some "q"%char) legal
                  then ret (Some "q"%char)
                  else raise (ValueError_illegal_move uci)
              | Some _ => raise (ValueError_illegal_move uci)
              end
            else ret promo0) ;;
  san <~ query (fun self => _build_san self fr fc tr tc promo legal) ;;
  piece <~ query (fun self => cell self fr fc) ;;
  target <~ query (fun self => cell self tr tc) ;;
  let p := Py.lower piece in
  ep_removed <~ query (fun self =>
                  if (p =c "p") && negb (String.eqb (ep self) "-") then
                    ep_c <- ep_file self ;;
                    ep_r <- ep_rank self ;;
                    if (tr =? ep_r) && (tc =? ep_c) then
                      x <- cell self fr ep_c ;; Ok (Some x)
                    else Ok None
                  else Ok None) ;;
  new <~ query (fun self => _apply_raw self (fr, fc, tr, tc, promo)) ;;
  assign (fun self =>
    {| board := board new; turn := turn new; castling := castling new;
       ep := ep new; halfmove := halfmove new; fullmove := fullmove new;
       move_history := move_history self; pos_history := pos_history self;
       cap_white := cap_white self; cap_black := cap_black self;
       _material_cache := None |}) ;;;
  in_chk <~ query (fun self => in_check self None) ;;
  legal_after <~ query (fun self => legal_moves self None) ;;
  let no_mvs := match legal_after with [] => true | _ => false end in
  let san := if in_chk then san +++ (if no_mvs then "#" else "+") else san in
  let cap := match ep_removed with
             | Some x => Some x
             | None => if negb (target =c ".") then Some target else None
             end in
  (match cap with
   | Some x =>
       if negb (x =c ".") then
         assign (fun self =>
           if String.eqb (turn self) "w" then
             {| board := board self; turn := turn self;
                castling := castling self; ep := ep self;
                halfmove := halfmove self; fullmove := fullmove self;
                move_history := move_history self;
                pos_history := pos_history self;
                cap_white := cap_white self ++ [x];
                cap_black := cap_black self;
                _material_cache := _material_cache self |}
           else
             {| board := board self; turn := turn self;
                castling := castling self; ep := ep self;
                halfmove := halfmove self; fullmove := fullmove self;
                move_history := move_history self;
                pos_history := pos_history self;
                cap_white := cap_white self;
                cap_black := cap_black self ++ [x];
                _material_cache := _material_cache self |})
       else ret tt
   | None => ret tt
   end) ;;;
  assign (fun self =>
    let fen_after := to_fen self in
    let pos := _pos_key self in
    {| board := board self; turn := turn self;
       castling := castling self; ep := ep self;
       halfmove := halfmove self; fullmove := fullmove self;
       move_history := move_history self ++ [(uci, san, fen_after)];
       pos_history := dict_set (pos_history self) pos
                        (dict_get (pos_history self) pos 0 + 1);
       cap_white := cap_white self; cap_black := cap_black self;
       _material_cache := _material_cache self |}) ;;;
  ret (san, cap).

(** *** Game-end classification *)

Definition all_squares : list (Z * Z) :=
  flat_map (fun r => map (fun c => (r, c)) Py.range8) Py.range8.

(** The double loop of [_insufficient]: the lists [ws] and [bs]. *)
Fixpoint collect_material (self : Board) (sqs : list (Z * Z))
  : result (list ascii * list ascii) :=
  match sqs with
  | [] => Ok ([], [])
  | (r, c) :: rest =>
      p <- cell self r c ;;
      '(ws, bs) <- collect_material self rest ;;
      Ok (if p =c "." then (ws, bs)
          else if Py.isupper p then (Py.lower p :: ws, bs)
          else (ws, Py.lower p :: bs))
  end.

(** [x in [['b'], ['n']]] *)
Definition lone_minor (l : list ascii) : bool :=
  match l with
  | [x] => (x =c "b") || (x =c "n")
  | _ => false
  end.

Definition is_nil {A} (l : list A) : bool :=
  match l with [] => true | _ => false end.

Definition _insufficient (self : Board) : result bool :=
  '(ws0, bs0) <- collect_material self all_squares ;;
  let ws := filter (fun p => negb (p =c "k")) ws0 in
  let bs := filter (fun p => negb (p =c "k")) bs0 in
  if is_nil ws && is_nil bs then Ok true
  else if is_nil ws && lone_minor bs then Ok true
  else if is_nil bs && lone_minor ws then Ok true
  else Ok false.

(** The tuple [(over, result, reason, winner)]. *)
Definition outcome : Type := bool * string * string * option string.

Definition game_result (self : Board) : result outcome :=
  legal <- legal_moves self None ;;
  match legal with
  | [] =>
      chk <- in_check self None ;;
      if chk then
        let winner := if String.eqb (turn self) "w" then "black" else "white" in
        let res := if String.eqb (turn self) "w" then "0-1" else "1-0" in
        Ok (true, res, "Checkmate", Some winner)
      else Ok (true, "1/2-1/2", "Stalemate", None)
  | _ =>
      if 100 <=? halfmove self then
        Ok (true, "1/2-1/2", "Draw by 50-move rule", None)
      else
        let pos := _pos_key self in
        if 3 <=? dict_get (pos_history self) pos 0 then
          Ok (true, "1/2-1/2", "Draw by threefold repetition", None)
        else
          ins <- _insufficient self ;;
          if ins then Ok (true, "1/2-1/2", "Draw by insufficient material", None)
          else Ok (false, "", "", None)
  end.

Definition uci_moves_list (self : Board) : list string :=
  map (fun m => fst (fst m)) (move_history self).

Definition uci_moves_str (self : Board) : string :=
  Py.join " " (uci_moves_list self).

(** *** Material count *)

(** [PIECE_VALUES.get(k, 0)] *)
Fixpoint piece_value (d : list (ascii * Z)) (k : ascii) : Z :=
  match d with
  | [] => 0
  | (k', v) :: rest => if k' =c k then v else piece_value rest k
  end.

(** The body of the double loop of [material]; the state is [(wm, bm)]. *)
Definition count_cell (acc : Z * Z) (x : ascii) : Z * Z :=
  let '(wm, bm) := acc in
  if negb (x =c ".") then
    let v := piece_value PIECE_VALUES (Py.lower x) in
    if Py.isupper x then (wm + v, bm) else (wm, bm + v)
  else (wm, bm).

Definition count_material (g : list (list ascii)) : Z * Z :=
  fold_left (fun acc row => fold_left count_cell row acc) g (0, 0).

Definition material : M (Z * Z) :=
  fun self =>
    match _material_cache self with
    | Some m => (Ok m, self)
    | None =>
        let m := count_material (board self) in
        (Ok m,
         {| board := board self; turn := turn self;
            castling := castling self; ep := ep self;
            halfmove := halfmove self; fullmove := fullmove self;
            move_history := move_history self;
            pos_history := pos_history self;
            cap_white := cap_white self; cap_black := cap_black self;
            _material_cache := Some m |})
    end.

End BoardMethods.

(** ** The opening book *)

Module OpeningBook.

(** An entry [(uci_seq, eco, name)] of [_entries]. *)
Definition entry : Type := list string * string * string.

Definition _looks_like_uci (tok : string) : result bool :=
  let n := Z.of_nat (String.length tok) in
  if negb ((n =? 4) || (n =? 5)) then Ok false
  else
    t0 <- Py.sindex tok 0 ;;
    if Py.char_in t0 "abcdefgh" then
      t1 <- Py.sindex tok 1 ;;
      if Py.isdigit t1 then
        t2 <- Py.sindex tok 2 ;;
        if Py.char_in t2 "abcdefgh" then
          t3 <- Py.sindex tok 3 ;; Ok (Py.isdigit t3)
        else Ok false
      else Ok false
    else Ok false.

(** [s.replace('+','').replace('#','').replace('x','')] *)
Definition clean_san (s : string) : string :=
  Py.remove_char "x" (Py.remove_char "#" (Py.remove_char "+" s)).

(** [f"{chr(ord('a')+fc)}{8-fr}{chr(ord('a')+tc)}{8-tr}"], then the promotion
    letter when there is one. *)
Definition uci_text (m : move) : result string :=
  let '(fr, fc, tr, tc, promo) := m in
  f <- Py.chr (Py.ord "a" + fc) ;;
  t <- Py.chr (Py.ord "a" + tc) ;;
  let uci := Py.str1 f +++ Py.str (8 - fr) +++ Py.str1 t +++ Py.str (8 - tr) in
  Ok (match promo with
      | Some p => uci +++ Py.str1 p
      | None => uci
      end).

(** The loop of [_san_to_uci] over the legal moves. *)
Fixpoint san_search (board : Board) (san : string) (legal moves : list move)
  : result (option string) :=
  match moves with
  | [] => Ok None
  | m :: rest =>
      let '(fr, fc, tr, tc, promo) := m in
      test_san <- _build_san board fr fc tr tc promo legal ;;
      if String.eqb (clean_san test_san) (clean_san san) || String.eqb test_san san
      then uci <- uci_text m ;; Ok (Some uci)
      else san_search board san legal rest
  end.

Definition _san_to_uci (board : Board) (san : string) : result (option string) :=
  legal <- legal_moves board None ;;
  san_search board san legal legal.

(** The loop of [_tokens_to_uci]; the state is the board and [uci_list].
    An exception of the first [apply_uci] is swallowed and the board is used
    as that call left it. *)
Fixpoint tokens_loop (tokens : list string) (board : Board)
  (uci_list : list string) : result (option (list string)) :=
  match tokens with
  | [] => Ok (Some uci_list)
  | tok0 :: rest =>
      let tok := Py.strip tok0 in
      if String.eqb tok "" then tokens_loop rest board uci_list
      else
        looks <- _looks_like_uci tok ;;
        let direct := if looks then Some (apply_uci tok board) else None in
        match direct with
        | Some (Ok _, board') => tokens_loop rest board' (uci_list ++ [tok])
        | _ =>
            let board1 := match direct with
                          | Some (_, board') => board'
                          | None => board
                          end in
            o <- _san_to_uci board1 tok ;;
            match o with
            | None => Ok None
            | Some uci =>
                match apply_uci uci board1 with
                | (Ok _, board2) => tokens_loop rest board2 (uci_list ++ [uci])
                | (Raise e, _) => Raise e
                end
            end
        end
  end.

Definition _tokens_to_uci (tokens : list string)
  : result (option (list string)) :=
  b <- Board_init ;;
  tokens_loop tokens b [].

(** A row of the CSV reader: a dict from column names to values. *)
Definition row : Type := list (string * option string).

(** [row.get(k)] *)
Fixpoint row_get (r : row) (k : string) : option string :=
  match r with
  | [] => None
  | (k', v) :: rest => if String.eqb k' k then v else row_get rest k
  end.

(** The loop of [_load] over the rows the reader yields: the entries
    appended so far and the exception that ended the loop, if any. *)
Fixpoint read_rows (rows : list row) (entries : list entry)
  : list entry * option exn :=
  match rows with
  | [] => (entries, None)
  | r :: rest =>
      let eco := Py.strip (Py.or_str (row_get r "ECO") "") in
      let name := Py.strip (Py.or_str (row_get r "name") "") in
      let raw := Py.strip (Py.or_str (row_get r "moves") "") in
      if String.eqb raw "" then read_rows rest entries
      else
        match _tokens_to_uci (Py.split_ws raw) with
        | Ok (Some uci_seq) => read_rows rest (entries ++ [(uci_seq, eco, name)])
        | Ok None => read_rows rest entries
        | Raise e => (entries, Some e)
        end
  end.

(** [sort(key=lambda x: len(x[0]), reverse=True)]: stable, longest first. *)
Fixpoint insert_entry (e : entry) (l : list entry) : list entry :=
  match l with
  | [] => [e]
  | x :: rest =>
      if (List.length (fst (fst x)) <=? List.length (fst (fst e)))%nat
      then e :: l
      else x :: insert_entry e rest
  end.

Definition sort_entries (l : list entry) : list entry :=
  fold_right insert_entry [] l.

(** What [_load] observes of the file: opening it fails, or the reader
    yields rows and then ends or raises. *)
Inductive csv_file : Type :=
| OpenFails (e : exn)
| Reads (rows : list row) (error : option exn).

(** [_load]: the new value of [_entries]. *)
Definition _load (entries : list entry) (f : csv_file) : list entry :=
  match f with
  | OpenFails _ => entries
  | Reads rows error =>
      match read_rows rows entries with
      | (es, Some _) => es
      | (es, None) =>
          match error with
          | Some _ => es
          | None => sort_entries es
          end
      end
  end.

(** [played[:n] == seq] under [len(played) >= n] *)
Fixpoint list_eqb (l1 l2 : list string) : bool :=
  match l1, l2 with
  | [], [] => true
  | x :: l1', y :: l2' => String.eqb x y && list_eqb l1' l2'
  | _, _ => false
  end.

Fixpoint lookup (entries : list entry) (played : list string)
  : option string * option string :=
  match entries with
  | [] => (None, None)
  | (seq, eco, name) :: rest =>
      let n := List.length seq in
      if (n <=? List.length played)%nat && list_eqb (firstn n played) seq
      then (Some eco, Some name)
      else lookup rest played
  end.

(** [loaded] *)
Definition loaded (entries : list entry) : bool :=
  (0 <? List.length entries)%nat.

End OpeningBook.

(** ** The engine-protocol client

    The external process, the reader thread's queue and the clock are the
    environment.  Each method receives the part of the environment it
    observes: the outcome of every [poll()], of every write to the pipe, and,
    for a loop, one [tick] per iteration (the clock reading at the loop test
    and the outcome of [q.get(timeout=...)]).  Time is in milliseconds.
    The callback [on_info] is modelled by the list of the infos delivered. *)

Module UCIEngine.

Record info : Type := mkInfo {
  depth      : option Z;
  score      : option Z;
  score_type : option string;
  nodes      : option Z;
  nps        : option Z;
  pv         : option (list string)
}.

Definition empty_info : info := mkInfo None None None None None None.

Definition orelse {A} (x y : option A) : option A :=
  match x with Some _ => x | None => y end.

(** [d.update(i)] *)
Definition update (d i : info) : info :=
  mkInfo (orelse (depth i) (depth d)) (orelse (score i) (score d))
         (orelse (score_type i) (score_type d)) (orelse (nodes i) (nodes d))
         (orelse (nps i) (nps d)) (orelse (pv i) (pv d)).

Record Engine : Type := mkEngine {
  path      : string;
  name      : string;
  process   : bool;             (* [self.process is not None] *)
  ready     : bool;
  last_info : info;
  written   : list string;      (* commands written to the pipe, in order *)
  delivered : list info         (* the infos passed to [on_info], in order *)
}.

(** [__init__] *)
Definition init (path name : string) : Engine :=
  mkEngine path name false false empty_info [] [].

Inductive qevent : Type :=
| Line (s : string)             (* [q.get] returned a line *)
| Empty.                        (* [q.get] raised [queue.Empty] *)

Record tick : Type := mkTick {
  now    : Z;                   (* [time.time()] at the loop test *)
  got    : qevent;              (* outcome of [q.get] in this iteration *)
  exited : bool                 (* [process.poll() is not None], if asked *)
}.

(** What one [_send] observes. *)
Record send_env : Type := mkSendEnv {
  send_exited : bool;           (* [process.poll() is not None] *)
  send_error  : option exn      (* the exception of write/flush, if any *)
}.

(** The outcome of a method: it returned, it raised, or the observed part of
    the environment ended while its loop was still running. *)
Inductive run (A : Type) : Type :=
| Returned (a : A) (self : Engine)
| Raised (e : exn) (self : Engine)
| Pending (self : Engine).
Arguments Returned {A} a self.
Arguments Raised {A} e self.
Arguments Pending {A} self.

(** [alive] *)
Definition alive (self : Engine) (exited_now : bool) : bool :=
  process self && negb exited_now.

Definition log_write (self : Engine) (cmd : string) : Engine :=
  mkEngine (path self) (name self) (process self) (ready self)
           (last_info self) (written self ++ [cmd]) (delivered self).

Definition _send (self : Engine) (cmd : string) (w : send_env) : run unit :=
  if process self && negb (send_exited w) then
    match send_error w with
    | None => Returned tt (log_write self cmd)
    | Some BrokenPipeError => Returned tt self
    | Some e => Raised e self
    end
  else Returned tt self.

(** The loop of [_wait]; [end_] is the deadline. *)
Fixpoint wait_loop (self : Engine) (kw : string) (end_ : Z) (ticks : list tick)
  : run bool :=
  match ticks with
  | [] => Pending self
  | t :: rest =>
      if now t <? end_ then
        match got t with
        | Line line =>
            if String.eqb line "" then wait_loop self kw end_ rest
            else if String.eqb (Py.strip line) kw || Py.startswith line kw
            then Returned true self
            else wait_loop self kw end_ rest
        | Empty =>
            if process self && exited t then Returned false self
            else wait_loop self kw end_ rest
        end
      else Returned false self
  end.

(** [_wait(kw, timeout)]; [t0] is the clock reading that fixes the deadline. *)
Definition _wait (self : Engine) (kw : string) (timeout_ms : Z) (t0 : Z)
  (ticks : list tick) : run bool :=
  wait_loop self kw (t0 + timeout_ms) ticks.

(** The token loop of [_parse_info]. *)
Fixpoint parse_tokens (tokens : list string) (i : info) : info :=
  match tokens with
  | [] => i
  | t :: rest =>
      if String.eqb t "depth" then
        match rest with
        | v :: rest' =>
            match Py.int v with
            | Ok n => parse_tokens rest'
                        (mkInfo (Some n) (score i) (score_type i) (nodes i)
                                (nps i) (pv i))
            | Raise _ => parse_tokens rest i
            end
        | [] => parse_tokens rest i
        end
      else if String.eqb t "score" then
        match rest with
        | st :: rest' =>
            if String.eqb st "cp" || String.eqb st "mate" then
              match rest' with
              | v :: rest'' =>
                  match Py.int v with
                  | Ok n => parse_tokens rest''
                              (mkInfo (depth i) (Some n) (Some st) (nodes i)
                                      (nps i) (pv i))
                  | Raise _ => parse_tokens rest i
                  end
              | [] => parse_tokens rest i
              end
            else parse_tokens rest i
        | [] => parse_tokens rest i
        end
      else if String.eqb t "nodes" then
        match rest with
        | v :: rest' =>
            match Py.int v with
            | Ok n => parse_tokens rest'
                        (mkInfo (depth i) (score i) (score_type i) (Some n)
                                (nps i) (pv i))
            | Raise _ => parse_tokens rest i
            end
        | [] => parse_tokens rest i
        end
      else if String.eqb t "nps" then
        match rest with
        | v :: rest' =>
            match Py.int v with
            | Ok n => parse_tokens rest'
                        (mkInfo (depth i) (score i) (score_type i) (nodes i)
                                (Some n) (pv i))
            | Raise _ => parse_tokens rest i
            end
        | [] => parse_tokens rest i
        end
      else if String.eqb t "pv" then
        mkInfo (depth i) (score i) (score_type i) (nodes i) (nps i)
               (Some (firstn 5 rest))
      else parse_tokens rest i
  end.

Definition _parse_info (line : string) : info :=
  parse_tokens (tl (Py.split_ws line)) empty_info.

(** The explicit no-move sentinels of a [bestmove] line. *)
Definition is_sentinel (tok : string) : bool :=
  String.eqb tok "(none)" || String.eqb tok "null" || String.eqb tok "0000".

(** The token announced by a [bestmove] line, if usable. *)
Definition bestmove_token (line : string) : option string :=
  match Py.split_ws line with
  | _ :: tok :: _ => if is_sentinel tok then None else Some tok
  | _ => None
  end.

Definition note_info (self : Engine) (i : info) (on_info : bool) : Engine :=
  mkEngine (path self) (name self) (process self) (ready self)
           (update (last_info self) i) (written self)
           (if on_info then delivered self ++ [i] else delivered self).

(** The read loop of [get_best_move]. *)
Fixpoint search_loop (self : Engine) (on_info : bool) (end_ : Z)
  (ticks : list tick) : run (option string) :=
  match ticks with
  | [] => Pending self
  | t :: rest =>
      if now t <? end_ then
        match got t with
        | Empty =>
            if process self && exited t then Returned None self
            else search_loop self on_info end_ rest
        | Line line =>
            if String.eqb line "" then search_loop self on_info end_ rest
            else if Py.startswith line "info " then
              search_loop (note_info self (_parse_info line) on_info)
                          on_info end_ rest
            else if Py.startswith line "bestmove" then
              Returned (bestmove_token line) self
            else search_loop self on_info end_ rest
        end
      else Returned None self
  end.

(** What one call of [get_best_move] observes. *)
Record search_env : Type := mkSearchEnv {
  entry_exited : bool;          (* [poll()] of the [alive] test on entry *)
  send_position : send_env;
  send_go : send_env;
  t0 : Z;                       (* the clock reading that fixes the deadline *)
  ticks : list tick
}.

Definition clear_info (self : Engine) : Engine :=
  mkEngine (path self) (name self) (process self) (ready self)
           empty_info (written self) (delivered self).

Definition get_best_move (self : Engine) (moves_str : string) (movetime_ms : Z)
  (on_info : bool) (w : search_env) : run (option string) :=
  if negb (ready self) || negb (alive self (entry_exited w)) then
    Returned None self
  else
    let self := clear_info self in
    let cmd := if String.eqb moves_str "" then "position startpos"
               else "position startpos moves " +++ moves_str in
    match _send self cmd (send_position w) with
    | Returned _ self =>
        match _send self ("go movetime " +++ Py.str movetime_ms) (send_go w) with
        | Returned _ self =>
            let max_wait := movetime_ms + 10000 in
            search_loop self on_info (t0 w + max_wait) (ticks w)
        | Raised e self => Raised e self
        | Pending self => Pending self
        end
    | Raised e self => Raised e self
    | Pending self => Pending self
    end.

(** What [start] observes. *)
Inductive spawn_outcome : Type :=
| Spawned
| SpawnFileNotFound
| SpawnPermissionError
| SpawnFailed (e : exn).

Record start_env : Type := mkStartEnv {
  spawn : spawn_outcome;
  send_uci : send_env;
  uci_t0 : Z;
  uci_ticks : list tick;
  send_isready : send_env;
  ready_t0 : Z;
  ready_ticks : list tick
}.

Definition set_process (self : Engine) (p : bool) : Engine :=
  mkEngine (path self) (name self) p (ready self)
           (last_info self) (written self) (delivered self).
Definition set_ready (self : Engine) (r : bool) : Engine :=
  mkEngine (path self) (name self) (process self) r
           (last_info self) (written self) (delivered self).

Definition start (self : Engine) (w : start_env) : run unit :=
  match spawn w with
  | SpawnFileNotFound =>
      Raised (RuntimeError ("Engine not found: " +++ path self)) self
  | SpawnPermissionError =>
      Raised (RuntimeError ("Permission denied: " +++ path self)) self
  | SpawnFailed e => Raised e self
  | Spawned =>
      let self := set_process self true in
      match _send self "uci" (send_uci w) with
      | Raised e self => Raised e self
      | Pending self => Pending self
      | Returned _ self =>
          match _wait self "uciok" 15000 (uci_t0 w) (uci_ticks w) with
          | Raised e self => Raised e self
          | Pending self => Pending self
          | Returned false self =>
              Raised (RuntimeError ("No 'uciok' from " +++ path self)) self
          | Returned true self =>
              let self := set_ready self true in
              match _send self "isready" (send_isready w) with
              | Raised e self => Raised e self
              | Pending self => Pending self
              | Returned _ self =>
                  match _wait self "readyok" 10000 (ready_t0 w) (ready_ticks w) with
                  | Raised e self => Raised e self
                  | Pending self => Pending self
                  | Returned false self =>
                      Raised (RuntimeError ("No 'readyok' from " +++ path self)) self
                  | Returned true self => Returned tt self
                  end
              end
          end
      end
  end.

(** What [stop] observes: the two sends, then [terminate()] and
    [wait(timeout=3)], each of which may raise. *)
Record stop_env : Type := mkStopEnv {
  send_stop : send_env;
  sleep_error : option exn;
  send_quit : send_env;
  terminate_error : option exn;
  wait_error : option exn
}.

(** The body of the [try] block of [stop]. *)
Definition stop_body (self : Engine) (w : stop_env) : run unit :=
  match _send self "stop" (send_stop w) with
  | Raised e self => Raised e self
  | Pending self => Pending self
  | Returned _ self =>
      match sleep_error w with
      | Some e => Raised e self
      | None =>
          match _send self "quit" (send_quit w) with
          | Raised e self => Raised e self
          | Pending self => Pending self
          | Returned _ self =>
              match terminate_error w with
              | Some e => Raised e self
              | None =>
                  match wait_error w with
                  | Some e => Raised e self
                  | None => Returned tt self
                  end
              end
          end
      end
  end.

Definition stop (self : Engine) (w : stop_env) : run unit :=
  if process self then
    (* try: ... except Exception: pass *)
    let self := match stop_body self w with
                | Returned _ self => self
                | Raised _ self => self
                | Pending self => self
                end in
    Returned tt (set_ready (set_process self false) false)
  else Returned tt self.

(** The read loop of [get_eval] and of [eval_position] (the two loops are
    the same text); the state is [(last_score, last_score_type)]. *)
Fixpoint score_loop (self : Engine) (end_ : Z) (ticks : list tick)
  (last_score : option Z) (last_score_type : string)
  : run (option Z * string) :=
  match ticks with
  | [] => Pending self
  | t :: rest =>
      if now t <? end_ then
        match got t with
        | Empty =>
            if process self && exited t
            then Returned (last_score, last_score_type) self
            else score_loop self end_ rest last_score last_score_type
        | Line line =>
            if String.eqb line ""
            then score_loop self end_ rest last_score last_score_type
            else if Py.startswith line "info " then
              let i := _parse_info line in
              match score i with
              | Some s =>
                  score_loop self end_ rest (Some s)
                    (match score_type i with Some st => st | None => "cp" end)
              | None => score_loop self end_ rest last_score last_score_type
              end
            else if Py.startswith line "bestmove"
            then Returned (last_score, last_score_type) self
            else score_loop self end_ rest last_score last_score_type
        end
      else Returned (last_score, last_score_type) self
  end.

(** [30000 if last_score > 0 else -30000] *)
Definition mate_value (last_score : Z) : Z :=
  if 0 <? last_score then 30000 else -30000.

Definition get_eval (self : Engine) (moves_str : string) (movetime_ms : Z)
  (w : search_env) : run (option Z) :=
  if negb (ready self) || negb (alive self (entry_exited w)) then
    Returned None self
  else
    let cmd := if String.eqb moves_str "" then "position startpos"
               else "position startpos moves " +++ moves_str in
    match _send self cmd (send_position w) with
    | Returned _ self =>
        match _send self ("go movetime " +++ Py.str movetime_ms) (send_go w) with
        | Returned _ self =>
            match score_loop self (t0 w + (movetime_ms + 5000)) (ticks w)
                    None "cp" with
            | Returned (last_score, last_score_type) self =>
                match last_score with
                | None => Returned None self
                | Some s =>
                    if String.eqb last_score_type "mate"
                    then Returned (Some (mate_value s)) self
                    else Returned (Some s) self
                end
            | Raised e self => Raised e self
            | Pending self => Pending self
            end
        | Raised e self => Raised e self
        | Pending self => Pending self
        end
    | Raised e self => Raised e self
    | Pending self => Pending self
    end.

(** [AnalyzerEngine.eval_position]: the pair [(cp, last_score_type)]. *)
Definition eval_position (self : Engine) (moves_str : string) (movetime_ms : Z)
  (w : search_env) : run (option Z * option string) :=
  if negb (ready self) || negb (alive self (entry_exited w)) then
    Returned (None, None) self
  else
    let cmd := if String.eqb moves_str "" then "position startpos"
               else "position startpos moves " +++ moves_str in
    match _send self cmd (send_position w) with
    | Returned _ self =>
        match _send self ("go movetime " +++ Py.str movetime_ms) (send_go w) with
        | Returned _ self =>
            let n_moves := if String.eqb moves_str "" then 0
                           else Z.of_nat (List.length (Py.split_ws moves_str)) in
            let side_to_move := if n_moves mod 2 =? 0 then "w" else "b" in
            match score_loop self (t0 w + (movetime_ms + 5000)) (ticks w)
                    None "cp" with
            | Returned (last_score, last_score_type) self =>
                match last_score with
                | None => Returned (None, None) self
                | Some s =>
                    let cp := if String.eqb last_score_type "mate"
                              then mate_value s else s in
                    let cp := if String.eqb side_to_move "b" then - cp else cp in
                    Returned (Some cp, Some last_score_type) self
                end
            | Raised e self => Raised e self
            | Pending self => Pending self
            end
        | Raised e self => Raised e self
        | Pending self => Pending self
        end
    | Raised e self => Raised e self
    | Pending self => Pending self
    end.

End UCIEngine.

(** ** Vocabulary of the properties *)

(** The sum, over the moves of [l], of the number of legal replies in the
    position reached by the move. *)
Fixpoint count_replies (b : Board) (l : list move) : result Z :=
  match l with
  | [] => Ok 0
  | m :: rest =>
      b2 <- _apply_raw b m ;;
      l2 <- legal_moves b2 None ;;
      n <- count_replies b rest ;;
      Ok (Z.of_nat (List.length l2) + n)
  end.

(** Playing a list of moves given in long-form notation. *)
Fixpoint play (ucis : list string) (b : Board) : result (list string) * Board :=
  match ucis with
  | [] => (Ok [], b)
  | u :: rest =>
      match apply_uci u b with
      | (Ok (san, _), b') =>
          match play rest b' with
          | (Ok sans, b'') => (Ok (san :: sans), b'')
          | (Raise e, b'') => (Raise e, b'')
          end
      | (Raise e, b') => (Raise e, b')
      end
  end.

(** A position of a game: the one [Board()] builds, or one reached from a
    position of a game by a successful [apply_uci]. *)
Inductive reachable : Board -> Prop :=
| reach_init : forall b, Board_init = Ok b -> reachable b
| reach_apply : forall b uci r b',
    reachable b -> apply_uci uci b = (Ok r, b') -> reachable b'.

(** A send that does not raise: the process is seen as exited (nothing is
    written), the write succeeds, or it fails with [BrokenPipeError]. *)
Definition send_harmless (w : UCIEngine.send_env) : bool :=
  UCIEngine.send_exited w ||
  match UCIEngine.send_error w with
  | None => true
  | Some BrokenPipeError => true
  | Some _ => false
  end.

(** An iteration that leaves the read loop of [get_best_move] running:
    the deadline has not passed and the queue gave nothing decisive. *)
Definition keeps_searching (end_ : Z) (t : UCIEngine.tick) : bool :=
  (UCIEngine.now t <? end_) &&
  match UCIEngine.got t with
  | UCIEngine.Empty => negb (UCIEngine.exited t)
  | UCIEngine.Line l =>
      String.eqb l "" || Py.startswith l "info " ||
      negb (Py.startswith l "bestmove")
  end.

(** An iteration that ends the search with no move: the deadline has passed,
    the process has exited, or the [bestmove] line has no usable token. *)
Definition ends_without_move (end_ : Z) (t : UCIEngine.tick) : bool :=
  negb (UCIEngine.now t <? end_) ||
  match UCIEngine.got t with
  | UCIEngine.Empty => UCIEngine.exited t
  | UCIEngine.Line l =>
      negb (String.eqb l "") && negb (Py.startswith l "info ") &&
      Py.startswith l "bestmove" &&
      match UCIEngine.bestmove_token l with None => true | Some _ => false end
  end.

(** An iteration of [_wait] that brings no acknowledgement. *)
Definition no_ack (kw : string) (end_ : Z) (t : UCIEngine.tick) : bool :=
  (UCIEngine.now t <? end_) &&
  match UCIEngine.got t with
  | UCIEngine.Empty => negb (UCIEngine.exited t)
  | UCIEngine.Line l =>
      String.eqb l "" ||
      negb (String.eqb (Py.strip l) kw || Py.startswith l kw)
  end.

(** An iteration at which [_wait] gives up: the bounded wait is over, or the
    queue is empty and the process has exited. *)
Definition wait_gives_up (end_ : Z) (t : UCIEngine.tick) : bool :=
  negb (UCIEngine.now t <? end_) ||
  match UCIEngine.got t with
  | UCIEngine.Empty => UCIEngine.exited t
  | UCIEngine.Line _ => false
  end.

(** The position [Board()] builds. *)
Definition start_position : Board :=
  match Board_init with
  | Ok b => b
  | Raise _ => mkBoard [] "w" "KQkq" "-" 0 1 [] [] [] [] None
  end.

(** The position after a list of moves played from the start. *)
Definition position_after (ucis : list string) : Board :=
  snd (play ucis start_position).



(** [p=='p' and abs(fr-tr)==2]: the moved piece is a pawn and it advances
    two squares. *)
Definition two_square_pawn_advance (piece : ascii) (fr tr : Z) : bool :=
  Ascii.eqb (Py.lower piece) "p" && (Z.abs (fr - tr) =? 2).

(** The position fields of [b] are those of [new]. *)
Definition same_position (b new : Board) : Prop :=
  board b = board new /\ turn b = turn new /\ castling b = castling new /\
  ep b = ep new /\ halfmove b = halfmove new /\ fullmove b = fullmove new.

(** The file letter of column [c] and the rank digit of row [r]. *)
Definition file_name (c : Z) : string :=
  match Py.chr (Py.ord "a" + c) with
  | Ok f => Py.str1 f
  | Raise _ => ""
  end.
Definition rank_name (r : Z) : string := Py.str (8 - r).

(** The move of a pawn onto the en-passant target. *)
Definition is_en_passant (self : Board) (piece : ascii) (tr tc : Z) : bool :=
  Ascii.eqb (Py.lower piece) "p" && negb (String.eqb (ep self) "-") &&
  match ep_file self with
  | Ok f =>
      (tc =? f) && match ep_rank self with
                   | Ok r => tr =? r
                   | Raise _ => false
                   end
  | Raise _ => false
  end.

(** The disambiguator among [rivals], the other legal moves of pieces of the
    same kind to the same square with the same promotion: nothing when there
    is no rival; the file of the origin square when no rival starts on that
    file; else its rank when no rival starts on that rank; else both. *)
Definition disambiguator (rivals : list move) (fr fc : Z) : string :=
  match rivals with
  | [] => ""
  | _ =>
      if negb (existsb (fun m : move => let '(_, m1, _, _, _) := m in m1 =? fc) rivals)
      then file_name fc
      else if negb (existsb (fun m : move => let '(m0, _, _, _, _) := m in m0 =? fr) rivals)
      then rank_name fr
      else file_name fc +++ rank_name fr
  end.


(** The check or checkmate mark. *)
Definition check_suffix (in_chk no_moves : bool) : string :=
  if in_chk then (if no_moves then "#" else "+") else "".

(** SAN without the check mark, in the words of the specification (with the
    disambiguator taken from the origin square): castling as [O-O] / [O-O-O];
    a pawn move as the destination, preceded by the origin file and [x] when
    it captures; any other move as piece letter, disambiguator, capture
    marker, destination; then the promotion suffix. *)
Definition san_by_words (kind : ascii) (capture : bool) (fr fc tr tc : Z)
  (promo : option ascii) (rivals : list move) : string :=
  if Ascii.eqb kind "k" && (fc =? 4) && (tc =? 6) then "O-O"
  else if Ascii.eqb kind "k" && (fc =? 4) && (tc =? 2) then "O-O-O"
  else if Ascii.eqb kind "p" then
    (if capture then file_name fc +++ "x" else "") +++
    file_name tc +++ rank_name tr +++ promo_suffix promo
  else
    Py.str1 (Py.upper kind) +++ disambiguator rivals fr fc +++
    (if capture then "x" else "") +++
    file_name tc +++ rank_name tr +++ promo_suffix promo.


(** The position a FEN text describes, loaded into a fresh [Board()]. *)
Definition position_of_fen (fen : string) : Board :=
  match _load_fen start_position fen with
  | Ok b => b
  | Raise _ => start_position
  end.

(** An 8x8 grid. *)
Definition shape8 (g : list (list ascii)) : Prop :=
  List.length g = 8%nat /\ Forall (fun row => List.length row = 8%nat) g.

(** Every cell of the grid satisfies [P]. *)
Definition all_cells (P : ascii -> Prop) (g : list (list ascii)) : Prop :=
  Forall (Forall P) g.

(** The en-passant field is ['-'] or a text whose first two characters can
    be read as a file and a rank. *)
Definition ep_parses (b : Board) : Prop :=
  ep b = "-" \/
  exists e0 e1 n,
    Py.sindex (ep b) 0 = Ok e0 /\ Py.sindex (ep b) 1 = Ok e1 /\
    Py.int (Py.str1 e1) = Ok n.

(** A position on which the rules engine runs: an 8x8 grid and a readable
    en-passant field. *)
Definition well_formed (b : Board) : Prop :=
  shape8 (board b) /\ ep_parses b.

(** The king letter of a side: every side other than ['w'] is treated as
    Black. *)
Definition king_of (t : string) : ascii :=
  if String.eqb t "w" then "K"%char else "k"%char.

(** The side has no king on the board. *)
Definition kingless (b : Board) (t : string) : Prop :=
  all_cells (fun x => x <> king_of t) (board b).

(** The pseudo-legal moves of the pieces of side [t], square by square in
    the order [legal_moves] visits them: [legal_moves] without the king-safety
    filter. *)
Definition pseudo_from (b : Board) (t : string) (r c : Z) : result (list move) :=
  p <- cell b r c ;;
  if Ascii.eqb p "." then Ok []
  else if negb (Bool.eqb (String.eqb t "w") (Py.isupper p)) then Ok []
  else _pseudo b r c.

Fixpoint pseudo_in_row (b : Board) (t : string) (r : Z) (cs : list Z)
  : result (list move) :=
  match cs with
  | [] => Ok []
  | c :: cs' =>
      here <- pseudo_from b t r c ;;
      rest <- pseudo_in_row b t r cs' ;;
      Ok (here ++ rest)
  end.

Fixpoint pseudo_in_rows (b : Board) (t : string) (rs : list Z)
  : result (list move) :=
  match rs with
  | [] => Ok []
  | r :: rs' =>
      here <- pseudo_in_row b t r Py.range8 ;;
      rest <- pseudo_in_rows b t rs' ;;
      Ok (here ++ rest)
  end.

Definition pseudo_moves (b : Board) (t : string) : result (list move) :=
  pseudo_in_rows b t Py.range8.

(** A direction of the offset tables: one step in at least one coordinate. *)
Definition unit_step (d : Z * Z) : Prop :=
  let '(dr, dc) := d in
  -1 <= dr <= 1 /\ -1 <= dc <= 1 /\ (dr <> 0 \/ dc <> 0).

(** An upper bound on the number of board squares ahead of [(nr, nc)] in the
    direction [(dr, dc)], the square itself included. *)
Definition steps_left (dr dc nr nc : Z) : Z :=
  if dr =? 1 then 8 - nr
  else if dr =? -1 then nr + 1
  else if dc =? 1 then 8 - nc
  else nc + 1.

(** What a pseudo-legal move of the piece [piece] standing on [(r, c)]
    looks like: it starts there and ends on the board; only a pawn promotes,
    and to one of the four pieces; a pawn advances two rows only from its
    home row; a king on the e-file reaches the g- or c-file only by
    castling, which needs the flag. *)
Definition pseudo_shape (b : Board) (r c : Z) (piece : ascii) (m : move) : Prop :=
  let '(fr, fc, tr, tc, promo) := m in
  let kind := Py.lower piece in
  fr = r /\ fc = c /\ valid tr tc = true /\
  match promo with
  | None => True
  | Some pp => kind = "p"%char /\ In pp (Py.chars "qrbn")
  end /\
  (kind = "p"%char -> Z.abs (fr - tr) = 2 ->
   fr = (if Py.isupper piece then 6 else 1) /\
   tr = (if Py.isupper piece then 4 else 3)) /\
  (kind = "k"%char -> fc = 4 -> tc = 6 ->
   Py.char_in (if Py.isupper piece then "K" else "k")%char (castling b) = true) /\
  (kind = "k"%char -> fc = 4 -> tc = 2 ->
   Py.char_in (if Py.isupper piece then "Q" else "q")%char (castling b) = true).

(** The move [m] is one [legal_moves] generates for side [t]: a pseudo-legal
    move of a piece of that side, after which the side is not in check. *)
Definition generated_for (b : Board) (t : string) (m : move) : Prop :=
  exists r c piece mvs b2,
    valid r c = true /\
    cell b r c = Ok piece /\
    piece <> "."%char /\
    String.eqb t "w" = Py.isupper piece /\
    _pseudo b r c = Ok mvs /\
    In m mvs /\
    _apply_raw b m = Ok b2 /\
    in_check b2 (Some t) = Ok false.

(** A later position of the same game. *)
Inductive later : Board -> Board -> Prop :=
| later_refl : forall b, later b b
| later_step : forall b b1 b2 uci r,
    later b b1 -> apply_uci uci b1 = (Ok r, b2) -> later b b2.

(** The castling flag, the home row and the rook of a side; [kingside]
    selects the wing. *)
Definition castling_flag (s : string) (kingside : bool) : ascii :=
  if String.eqb s "w" then (if kingside then "K" else "Q")%char
  else (if kingside then "k" else "q")%char.
Definition home_row (s : string) : Z := if String.eqb s "w" then 7 else 0.
Definition rook_of (s : string) : ascii :=
  if String.eqb s "w" then "R"%char else "r"%char.
Definition rook_file (kingside : bool) : Z := if kingside then 7 else 0.
Definition castled_file (kingside : bool) : Z := if kingside then 6 else 2.

(** The position still carries the flag. *)
Definition has_flag (f : ascii) (b : Board) : Prop :=
  Py.char_in f (castling b) = true.

(** The legal moves of side [s] include the castling move on the wing: the
    king of [s] stands on its home square and may go two files. *)
Definition castling_offered (b : Board) (s : string) (kingside : bool) : Prop :=
  exists legal,
    legal_moves b (Some s) = Ok legal /\
    cell b (home_row s) 4 = Ok (king_of s) /\
    In (home_row s, 4, home_row s, castled_file kingside, None) legal.

(** The move text moves the king of [s], or the rook of [s] that stands on
    the home corner of the wing. *)
Definition moves_king_or_rook (b : Board) (uci : string) (s : string)
  (kingside : bool) : Prop :=
  exists fr fc tr tc promo,
    parse_uci uci = Ok (fr, fc, tr, tc, promo) /\
    (cell b fr fc = Ok (king_of s) \/
     (cell b fr fc = Ok (rook_of s) /\
      fr = home_row s /\ fc = rook_file kingside)).

(** A field of the serialization: not empty, no whitespace. *)
Definition token (s : string) : Prop :=
  s <> "" /\ Forall (fun c => Py.isspace c = false) (Py.chars s).

(** A board cell: the empty cell or a piece letter. *)
Definition piece_or_empty (x : ascii) : Prop :=
  Py.char_in x ".PNBRQKpnbrqk" = true.

(** The invariant of the positions of a game that the FEN codec relies on. *)
Definition fen_wf (b : Board) : Prop :=
  shape8 (board b) /\
  all_cells piece_or_empty (board b) /\
  (turn b = "w" \/ turn b = "b") /\
  token (castling b) /\
  token (ep b) /\
  0 <= halfmove b /\
  0 <= fullmove b /\
  _material_cache b = None.

(** [q] after loading the six fields of [p]. *)
Definition with_position_of (q p : Board) : Board :=
  {| board := board p; turn := turn p; castling := castling p; ep := ep p;
     halfmove := halfmove p; fullmove := fullmove p;
     move_history := move_history q; pos_history := pos_history q;
     cap_white := cap_white q; cap_black := cap_black q;
     _material_cache := None |}.

(** The position of a label among the keys of [QUALITY_COLORS], the order
    in which the labels are ranked from best to worst. *)
Fixpoint key_index (d : list (string * string)) (k : string) : option nat :=
  match d with
  | [] => None
  | (k', _) :: rest =>
      if String.eqb k' k then Some O else option_map S (key_index rest k)
  end.

Definition quality_index (q : option string) : option nat :=
  match q with
  | Some k => key_index QUALITY_COLORS k
  | None => None
  end.

(** The moves played begin with the line [seq]. *)
Definition starts_with (played seq : list string) : Prop :=
  exists rest, played = seq ++ rest.

(** The line of an entry of the book. *)
Definition line_of (e : OpeningBook.entry) : list string := fst (fst e).

(** Longest line first. *)
Fixpoint longest_first (l : list OpeningBook.entry) : Prop :=
  match l with
  | [] => True
  | e :: rest =>
      Forall (fun x => (List.length (line_of x) <= List.length (line_of e))%nat) rest
      /\ longest_first rest
  end.

(** The entries whose line has [n] moves; a stable sort by length keeps
    their order. *)
Definition of_length (n : nat) (e : OpeningBook.entry) : bool :=
  (List.length (line_of e) =? n)%nat.

(** A move that starts and ends on the board and promotes, if it does, to
    one of the four pieces. *)
Definition on_board (m : move) : Prop :=
  let '(fr, fc, tr, tc, promo) := m in
  valid fr fc = true /\ valid tr tc = true /\
  match promo with
  | Some pp => In pp (Py.chars "qrbn")
  | None => True
  end.

(** The components of an entry [(uci, san, fen_after)] of [move_history]. *)
Definition uci_of (e : string * string * string) : string := fst (fst e).
Definition san_of (e : string * string * string) : string := snd (fst e).
Definition fen_of (e : string * string * string) : string := snd e.

(** The repetition key of a FEN text: its first four fields, as [_pos_key]
    cuts them out. *)
Definition key_of_fen (fen : string) : string :=
  Py.join " " (firstn 4 (Py.split_ws fen)).

(** How many entries of the history left the position with key [k]. *)
Definition times_reached (h : list (string * string * string)) (k : string) : Z :=
  Z.of_nat (count_occ String.string_dec (map (fun e => key_of_fen (fen_of e)) h) k).

(** The side to move after [n] half-moves of a game. *)
Definition side_after (n : nat) : string := if Nat.even n then "w" else "b".

(** * Properties *)

(** ** The result monad *)

Lemma bind_Ok {A B} (m : result A) (k : A -> result B) (b : B) :
  bind m k = Ok b -> exists a, m = Ok a /\ k a = Ok b.
Proof.
  destruct m as [a|e]; simpl; intros H; [eauto | discriminate].
Qed.

Lemma bind_Ok_l {A B} (m : result A) (k : A -> result B) (a : A) :
  m = Ok a -> bind m k = k a.
Proof. intros ->. reflexivity. Qed.

Lemma bind_Raise_l {A B} (m : result A) (k : A -> result B) (e : exn) :
  m = Raise e -> bind m k = Raise e.
Proof. intros ->. reflexivity. Qed.

(** Splits a hypothesis [x <- m ;; k = Ok b] into its two steps. *)
Ltac bind_inv H :=
  let a := fresh "v" in
  let Ha := fresh "E" in
  apply bind_Ok in H; destruct H as [a [Ha H]].

(** ** C1: move counts from the starting position *)

(** C1. From the standard starting position [legal_moves] yields exactly 20
    moves, and the legal replies to those 20 moves number 400 in total
    (perft(1) = 20, perft(2) = 400). *)
Theorem perft_start :
  exists b0 legal,
    Board_init = Ok b0 /\
    legal_moves b0 None = Ok legal /\
    List.length legal = 20%nat /\
    count_replies b0 legal = Ok 400.
Proof.
  eexists. eexists.
  split; [vm_compute; reflexivity|].
  split; [vm_compute; reflexivity|].
  split; vm_compute; reflexivity.
Qed.

(** ** C9: teardown of the engine client *)

Lemma alive_without_process (self : UCIEngine.Engine) (exited_now : bool) :
  UCIEngine.process self = false -> UCIEngine.alive self exited_now = false.
Proof. unfold UCIEngine.alive. intros ->. reflexivity. Qed.

(** C9. [stop] never raises, whatever the state of the client and whatever
    each step of the shutdown does (a send that fails, a [terminate] or a
    [wait] that raises, a process already dead or never started); afterwards
    [alive] is false. *)
Theorem stop_never_raises (self : UCIEngine.Engine) (w : UCIEngine.stop_env) :
  exists self',
    UCIEngine.stop self w = UCIEngine.Returned tt self' /\
    UCIEngine.process self' = false /\
    forall exited_now, UCIEngine.alive self' exited_now = false.
Proof.
  unfold UCIEngine.stop.
  destruct (UCIEngine.process self) eqn:P.
  - eexists. split; [reflexivity|]. split; [reflexivity|].
    intros x. apply alive_without_process. reflexivity.
  - exists self. split; [reflexivity|]. split; [exact P|].
    intros x. apply alive_without_process. exact P.
Qed.

(** ** C8: failures of the engine process *)

Module EngineFacts.
Import UCIEngine.

Lemma send_harmless_returns (self : Engine) (cmd : string) (w : send_env) :
  send_harmless w = true ->
  exists self', _send self cmd w = Returned tt self' /\
                process self' = process self /\ path self' = path self.
Proof.
  unfold send_harmless, _send. intros H.
  destruct (process self) eqn:P; simpl.
  - destruct (send_exited w); simpl in *.
    + exists self. auto.
    + destruct (send_error w) as [e|].
      * destruct e; try discriminate. exists self. auto.
      * eexists. split; [reflexivity|]. simpl. auto.
  - exists self. auto.
Qed.

Lemma search_loop_none (on_info : bool) (end_ : Z) (pre : list tick) :
  forall (self : Engine) (last : tick) (rest : list tick),
    process self = true ->
    forallb (keeps_searching end_) pre = true ->
    ends_without_move end_ last = true ->
    exists self', search_loop self on_info end_ (pre ++ last :: rest)
                  = Returned None self'.
Proof.
  induction pre as [|t pre IH]; intros self last rest P Hpre Hlast.
  - simpl. unfold ends_without_move in Hlast.
    destruct (now last <? end_); simpl in *.
    + destruct (got last) as [l|].
      * apply andb_prop in Hlast. destruct Hlast as [H1 H4].
        apply andb_prop in H1. destruct H1 as [H1 H3].
        apply andb_prop in H1. destruct H1 as [H1 H2].
        apply negb_true_iff in H1, H2. rewrite H1, H2, H3.
        destruct (bestmove_token l); [discriminate|]. eauto.
      * rewrite P, Hlast. simpl. eauto.
    + eauto.
  - simpl in Hpre. apply andb_prop in Hpre. destruct Hpre as [Ht Hpre].
    unfold keeps_searching in Ht. apply andb_prop in Ht. destruct Ht as [Hn Hg].
    simpl. rewrite Hn.
    destruct (got t) as [l|].
    + destruct (String.eqb l "") eqn:El; [apply IH; assumption|].
      destruct (Py.startswith l "info ") eqn:Ei.
      * apply IH; assumption.
      * simpl in Hg. apply negb_true_iff in Hg. rewrite Hg.
        apply IH; assumption.
    + apply negb_true_iff in Hg. rewrite P, Hg. simpl. apply IH; assumption.
Qed.

Lemma wait_loop_false (kw : string) (end_ : Z) (pre : list tick) :
  forall (self : Engine) (last : tick) (rest : list tick),
    process self = true ->
    forallb (no_ack kw end_) pre = true ->
    wait_gives_up end_ last = true ->
    wait_loop self kw end_ (pre ++ last :: rest) = Returned false self.
Proof.
  induction pre as [|t pre IH]; intros self last rest P Hpre Hlast.
  - simpl. unfold wait_gives_up in Hlast.
    destruct (now last <? end_); simpl in *; [|reflexivity].
    destruct (got last) as [l|]; [discriminate|].
    rewrite P, Hlast. reflexivity.
  - simpl in Hpre. apply andb_prop in Hpre. destruct Hpre as [Ht Hpre].
    unfold no_ack in Ht. apply andb_prop in Ht. destruct Ht as [Hn Hg].
    simpl. rewrite Hn.
    destruct (got t) as [l|].
    + destruct (String.eqb l "") eqn:El; [apply IH; assumption|].
      simpl in Hg. apply negb_true_iff in Hg. rewrite Hg.
      apply IH; assumption.
    + apply negb_true_iff in Hg. rewrite P, Hg. simpl. apply IH; assumption.
Qed.

End EngineFacts.

(** C8. [get_best_move] returns [None], without raising, when the search is
    ended by the exit of the process, by a [bestmove] line with no usable
    token (the sentinels included) or by the deadline; [start] raises the
    handshake error ["No 'uciok' from ..."], which is not the error of an
    executable that cannot be found, when no acknowledgement arrives within
    the bounded wait. *)
Theorem engine_failures :
  (forall (self : UCIEngine.Engine) (moves_str : string) (movetime_ms : Z)
          (on_info : bool) (w : UCIEngine.search_env)
          (pre : list UCIEngine.tick) (last : UCIEngine.tick)
          (rest : list UCIEngine.tick),
      UCIEngine.ticks w = pre ++ last :: rest ->
      send_harmless (UCIEngine.send_position w) = true ->
      send_harmless (UCIEngine.send_go w) = true ->
      forallb (keeps_searching (UCIEngine.t0 w + (movetime_ms + 10000))) pre = true ->
      ends_without_move (UCIEngine.t0 w + (movetime_ms + 10000)) last = true ->
      exists self',
        UCIEngine.get_best_move self moves_str movetime_ms on_info w
        = UCIEngine.Returned None self')
  /\
  (forall (self : UCIEngine.Engine) (w : UCIEngine.start_env)
          (pre : list UCIEngine.tick) (last : UCIEngine.tick)
          (rest : list UCIEngine.tick),
      UCIEngine.spawn w = UCIEngine.Spawned ->
      send_harmless (UCIEngine.send_uci w) = true ->
      UCIEngine.uci_ticks w = pre ++ last :: rest ->
      forallb (no_ack "uciok" (UCIEngine.uci_t0 w + 15000)) pre = true ->
      wait_gives_up (UCIEngine.uci_t0 w + 15000) last = true ->
      (exists self',
          UCIEngine.start self w
          = UCIEngine.Raised
              (RuntimeError ("No 'uciok' from " +++ UCIEngine.path self)) self') /\
      RuntimeError ("No 'uciok' from " +++ UCIEngine.path self)
      <> RuntimeError ("Engine not found: " +++ UCIEngine.path self)).
Proof.
  split.
  - intros self moves_str movetime_ms on_info w pre last rest Ht H1 H2 Hpre Hlast.
    unfold UCIEngine.get_best_move.
    destruct (negb (UCIEngine.ready self)
              || negb (UCIEngine.alive self (UCIEngine.entry_exited w))) eqn:G.
    + eauto.
    + apply orb_false_iff in G. destruct G as [_ G].
      apply negb_false_iff in G. unfold UCIEngine.alive in G.
      apply andb_prop in G. destruct G as [P _].
      destruct (EngineFacts.send_harmless_returns
                  (UCIEngine.clear_info self)
                  (if String.eqb moves_str "" then "position startpos"
                   else "position startpos moves " +++ moves_str)
                  _ H1) as [s1 [E1 [P1 _]]].
      rewrite E1.
      destruct (EngineFacts.send_harmless_returns s1
                  ("go movetime " +++ Py.str movetime_ms) _ H2)
        as [s2 [E2 [P2 _]]].
      rewrite E2, Ht.
      apply EngineFacts.search_loop_none; try assumption.
      rewrite P2, P1. exact P.
  - intros self w pre last rest Hs H1 Ht Hpre Hlast. split.
    + unfold UCIEngine.start. rewrite Hs.
      destruct (EngineFacts.send_harmless_returns
                  (UCIEngine.set_process self true) "uci" _ H1)
        as [s1 [E1 [P1 Q1]]].
      rewrite E1. unfold UCIEngine._wait. rewrite Ht.
      assert (P : UCIEngine.process s1 = true) by (rewrite P1; reflexivity).
      rewrite (EngineFacts.wait_loop_false _ _ pre s1 last rest P Hpre Hlast).
      rewrite Q1. simpl. eauto.
    + intros H. injection H as H. discriminate H.
Qed.

Lemma engine_failures_witness :
  (exists self',
      UCIEngine.get_best_move
        (UCIEngine.mkEngine "sf" "Engine" true true UCIEngine.empty_info [] [])
        "e2e4" 1000 true
        (UCIEngine.mkSearchEnv false
           (UCIEngine.mkSendEnv false None) (UCIEngine.mkSendEnv false None) 0
           [UCIEngine.mkTick 100 (UCIEngine.Line "info depth 3 score cp 20") false;
            UCIEngine.mkTick 400 UCIEngine.Empty true])
      = UCIEngine.Returned None self')
  /\
  (exists self',
      UCIEngine.start (UCIEngine.init "sf" "Engine")
        (UCIEngine.mkStartEnv UCIEngine.Spawned
           (UCIEngine.mkSendEnv false None) 0
           [UCIEngine.mkTick 200 UCIEngine.Empty false;
            UCIEngine.mkTick 15000 UCIEngine.Empty false]
           (UCIEngine.mkSendEnv false None) 0 [])
      = UCIEngine.Raised (RuntimeError "No 'uciok' from sf") self').
Proof.
  split.
  - apply (proj1 engine_failures _ "e2e4" 1000 true _
             [UCIEngine.mkTick 100 (UCIEngine.Line "info depth 3 score cp 20") false]
             (UCIEngine.mkTick 400 UCIEngine.Empty true) []);
      reflexivity.
  - apply (proj2 engine_failures (UCIEngine.init "sf" "Engine") _
             [UCIEngine.mkTick 200 UCIEngine.Empty false]
             (UCIEngine.mkTick 15000 UCIEngine.Empty false) []);
      reflexivity.
Defined.

(** ** Games from the starting position *)

Lemma Board_init_start : Board_init = Ok start_position.
Proof. vm_compute. reflexivity. Qed.

Lemma play_reachable (ucis : list string) :
  forall b sans b',
    reachable b -> play ucis b = (Ok sans, b') -> reachable b'.
Proof.
  induction ucis as [|u rest IH]; intros b sans b' R H; simpl in H.
  - injection H as _ <-. exact R.
  - destruct (apply_uci u b) as [[[san cap]|e] b1] eqn:E; [|discriminate].
    destruct (play rest b1) as [[ss|e] b2] eqn:E2; [|discriminate].
    injection H as _ <-.
    eapply IH; [|exact E2]. eapply reach_apply; eassumption.
Qed.

Lemma position_after_reachable (ucis : list string) (sans : list string) :
  fst (play ucis start_position) = Ok sans -> reachable (position_after ucis).
Proof.
  intros H. unfold position_after.
  destruct (play ucis start_position) as [r b'] eqn:E. simpl in *. subst r.
  eapply play_reachable; [|exact E].
  apply reach_init. exact Board_init_start.
Qed.

(** ** C2: rejection of a move *)

Lemma apply_uci_malformed (self : Board) (uci : string) (e : exn) :
  parse_uci uci = Raise e -> apply_uci uci self = (Raise e, self).
Proof.
  intros H. unfold apply_uci, bindM, query. rewrite H. reflexivity.
Qed.

(** C2 (amended). A move text that decodes to a move outside the legal-move
    set is rejected with the illegal-move error and the position is left
    unchanged in every field, unless the text carries no promotion letter
    and the same move with promotion to a queen is legal. *)
Theorem apply_uci_rejects (self : Board) (uci : string)
  (fr fc tr tc : Z) (promo : option ascii) (legal : list move) :
  parse_uci uci = Ok (fr, fc, tr, tc, promo) ->
  legal_moves self None = Ok legal ->
  move_in (fr, fc, tr, tc, promo) legal = false ->
  (promo = None -> move_in (fr, fc, tr, tc, Some "q"%char) legal = false) ->
  apply_uci uci self = (Raise (ValueError_illegal_move uci), self).
Proof.
  intros Hp Hl Hm Hq.
  unfold apply_uci, bindM, query. rewrite Hp, Hl, Hm. simpl.
  destruct promo as [x|]; [reflexivity|].
  rewrite (Hq eq_refl). reflexivity.
Qed.

Lemma apply_uci_rejects_witness :
  apply_uci "e2e5" start_position
  = (Raise (ValueError_illegal_move "e2e5"), start_position).
Proof.
  destruct (legal_moves start_position None) as [legal|e] eqn:E;
    [|vm_compute in E; discriminate].
  apply (apply_uci_rejects start_position "e2e5" 6 4 3 4 None legal);
    [reflexivity | exact E | | intros _];
    vm_compute in E; injection E as <-; vm_compute; reflexivity.
Defined.

(** C2 as stated fails: after 1.a4 b5 2.axb5 a6 3.bxa6 Bb7 4.axb7 Nc6 the
    text [b7a8] decodes to a move that is not in the legal-move set (the
    legal moves from b7 to a8 all carry a promotion piece), yet it is
    applied, as a promotion to a queen. *)
Lemma bare_promotion_is_applied :
  ~ (forall (self : Board) (uci : string) (m : move) (legal : list move),
        reachable self ->
        parse_uci uci = Ok m ->
        legal_moves self None = Ok legal ->
        move_in m legal = false ->
        apply_uci uci self = (Raise (ValueError_illegal_move uci), self)).
Proof.
  intros H.
  pose (game := ["a2a4"; "b7b5"; "a4b5"; "a7a6"; "b5a6"; "c8b7"; "a6b7"; "b8c6"]).
  assert (R : reachable (position_after game)).
  { apply (position_after_reachable game
             ["a4"; "b5"; "axb5"; "a6"; "bxa6"; "Bb7"; "axb7"; "Nc6"]).
    vm_compute. reflexivity. }
  destruct (legal_moves (position_after game) None) as [legal|e] eqn:E;
    [|vm_compute in E; discriminate].
  specialize (H (position_after game) "b7a8" (1, 1, 0, 0, None) legal R eq_refl E).
  vm_compute in E. injection E as <-.
  specialize (H eq_refl).
  vm_compute in H. discriminate H.
Qed.

(** ** C3: game-end classification *)




(** Bare kings, and a bare king against king and knight or king and bishop,
    are drawn for insufficient material; king and two knights against a bare
    king is not. *)
Example insufficient_material_examples :
  game_result (position_of_fen "8/8/8/4k3/8/8/8/4K3 w - - 0 1")
  = Ok (true, "1/2-1/2", "Draw by insufficient material", None) /\
  game_result (position_of_fen "8/8/8/4k3/8/8/8/4KN2 w - - 0 1")
  = Ok (true, "1/2-1/2", "Draw by insufficient material", None) /\
  game_result (position_of_fen "8/8/8/3bk3/8/8/8/4K3 w - - 0 1")
  = Ok (true, "1/2-1/2", "Draw by insufficient material", None) /\
  game_result (position_of_fen "8/8/8/4k3/8/8/8/3NKN2 w - - 0 1")
  = Ok (false, "", "", None).
Proof. repeat split; vm_compute; reflexivity. Qed.

(** ** What a successful [apply_uci] did *)

Lemma bindM_Ok {A B} (m : M A) (k : A -> M B) (s s' : Board) (b : B) :
  bindM m k s = (Ok b, s') ->
  exists a s1, m s = (Ok a, s1) /\ k a s1 = (Ok b, s').
Proof.
  unfold bindM. destruct (m s) as [[a|e] s1]; intros H.
  - exists a, s1. auto.
  - discriminate.
Qed.

Lemma query_Ok {A} (f : Board -> result A) (s s1 : Board) (a : A) :
  query f s = (Ok a, s1) -> f s = Ok a /\ s1 = s.
Proof. unfold query. intros H. injection H as H <-. auto. Qed.

Lemma move_eqb_eq (m1 m2 : move) : move_eqb m1 m2 = true -> m1 = m2.
Proof.
  destruct m1 as [[[[a1 b1] c1] d1] p1], m2 as [[[[a2 b2] c2] d2] p2].
  unfold move_eqb. intros H.
  apply andb_prop in H. destruct H as [H Hp].
  apply andb_prop in H. destruct H as [H Hd].
  apply andb_prop in H. destruct H as [H Hc].
  apply andb_prop in H. destruct H as [Ha Hb].
  apply Z.eqb_eq in Ha, Hb, Hc, Hd. subst.
  destruct p1 as [x|], p2 as [y|]; try discriminate; [|reflexivity].
  apply Ascii.eqb_eq in Hp. subst. reflexivity.
Qed.

Lemma move_in_In (m : move) (l : list move) : move_in m l = true -> In m l.
Proof.
  unfold move_in. intros H. apply existsb_exists in H.
  destruct H as [x [Hx E]]. apply move_eqb_eq in E. subst. exact Hx.
Qed.

(** The move applied, the legal-move list it was checked against and the
    copy [_apply_raw] returned, from which the position fields are taken. *)
Lemma apply_uci_Ok (uci : string) (self self' : Board) (san : string)
  (cap : option ascii) :
  apply_uci uci self = (Ok (san, cap), self') ->
  exists fr fc tr tc promo0 promo legal new,
    parse_uci uci = Ok (fr, fc, tr, tc, promo0) /\
    legal_moves self None = Ok legal /\
    In (fr, fc, tr, tc, promo) legal /\
    (promo = promo0 \/ (promo0 = None /\ promo = Some "q"%char)) /\
    _apply_raw self (fr, fc, tr, tc, promo) = Ok new /\
    same_position self' new /\
    _material_cache self' = None /\
    move_history self' = move_history self ++ [(uci, san, to_fen self')] /\
    pos_history self'
    = dict_set (pos_history self) (_pos_key self')
        (dict_get (pos_history self) (_pos_key self') 0 + 1) /\
    exists san0 in_chk legal_after s1,
      _build_san self fr fc tr tc promo legal = Ok san0 /\
      same_position s1 self' /\
      in_check s1 None = Ok in_chk /\
      legal_moves s1 None = Ok legal_after /\
      san = san0 +++ check_suffix in_chk (is_nil legal_after).
Proof.
  unfold apply_uci. intros H.
  apply bindM_Ok in H. destruct H as [[[[[fr fc] tr] tc] promo0] [s1 [Hp H]]].
  apply query_Ok in Hp. destruct Hp as [Hp ->].
  apply bindM_Ok in H. destruct H as [legal [s1 [Hl H]]].
  apply query_Ok in Hl. destruct Hl as [Hl ->].
  apply bindM_Ok in H. destruct H as [promo [s1 [Hpr H]]].
  assert (Hpromo : s1 = self /\ In (fr, fc, tr, tc, promo) legal /\
                   (promo = promo0 \/ (promo0 = None /\ promo = Some "q"%char))).
  { destruct (move_in (fr, fc, tr, tc, promo0) legal) eqn:Hin; simpl in Hpr.
    - unfold ret in Hpr. injection Hpr as <- <-.
      split; [reflexivity|]. split; [apply move_in_In; exact Hin | left; reflexivity].
    - destruct promo0 as [x|]; [discriminate|].
      destruct (move_in (fr, fc, tr, tc, Some "q"%char) legal) eqn:Hq;
        [|discriminate].
      unfold ret in Hpr. injection Hpr as <- <-.
      split; [reflexivity|]. split; [apply move_in_In; exact Hq | right; auto]. }
  destruct Hpromo as [-> [Hin Hor]]. clear Hpr.
  apply bindM_Ok in H. destruct H as [san0 [s1 [Hs H]]].
  apply query_Ok in Hs. destruct Hs as [Hs ->].
  apply bindM_Ok in H. destruct H as [piece [s1 [Hc H]]].
  apply query_Ok in Hc. destruct Hc as [Hc ->].
  apply bindM_Ok in H. destruct H as [target [s1 [Ht H]]].
  apply query_Ok in Ht. destruct Ht as [Ht ->].
  apply bindM_Ok in H. destruct H as [ep_removed [s1 [He H]]].
  apply query_Ok in He. destruct He as [He ->].
  apply bindM_Ok in H. destruct H as [new [s1 [Hn H]]].
  apply query_Ok in Hn. destruct Hn as [Hn ->].
  apply bindM_Ok in H. destruct H as [u1 [s1 [Ha H]]].
  unfold assign in Ha. injection Ha as _ <-.
  apply bindM_Ok in H. destruct H as [in_chk [s1 [Hk H]]].
  apply query_Ok in Hk. destruct Hk as [Hk ->].
  apply bindM_Ok in H. destruct H as [legal_after [s1 [Hla H]]].
  apply query_Ok in Hla. destruct Hla as [Hla ->].
  apply bindM_Ok in H. destruct H as [u2 [s2 [Hcap H]]].
  apply bindM_Ok in H. destruct H as [u3 [s3 [Hh H]]].
  unfold ret in H. injection H as <- <- <-.
  unfold assign in Hh. injection Hh as _ <-.
  exists fr, fc, tr, tc, promo0, promo, legal, new.
  repeat (split; [assumption|]).
  (* the capture bookkeeping touches neither the position nor the histories *)
  set (s1 := {| board := board new; turn := turn new; castling := castling new;
                ep := ep new; halfmove := halfmove new;
                fullmove := fullmove new;
                move_history := move_history self;
                pos_history := pos_history self;
                cap_white := cap_white self; cap_black := cap_black self;
                _material_cache := None |}) in *.
  assert (Hs2 : same_position s2 new /\ _material_cache s2 = None /\
                move_history s2 = move_history self /\
                pos_history s2 = pos_history self).
  { destruct (match ep_removed with
              | Some x => Some x
              | None => if negb (Ascii.eqb target ".") then Some target else None
              end) as [x|]; simpl in Hcap.
    - destruct (negb (Ascii.eqb x ".")).
      + unfold assign in Hcap. injection Hcap as _ <-.
        simpl. destruct (String.eqb (turn new) "w"); unfold same_position; simpl;
          repeat split; reflexivity.
      + unfold ret in Hcap. injection Hcap as _ <-.
        unfold same_position; simpl; repeat split; reflexivity.
    - unfold ret in Hcap. injection Hcap as _ <-.
      unfold same_position; simpl; repeat split; reflexivity. }
  destruct Hs2 as [Hsame [Hmc [Hmh Hph]]].
  assert (Hfen : forall a b c d e,
             to_fen {| board := board s2; turn := turn s2; castling := castling s2;
                       ep := ep s2; halfmove := halfmove s2;
                       fullmove := fullmove s2; move_history := a;
                       pos_history := b; cap_white := c; cap_black := d;
                       _material_cache := e |} = to_fen s2) by reflexivity.
  split; [exact Hsame|]. split; [exact Hmc|].
  simpl. unfold _pos_key. rewrite !Hfen, Hmh, Hph.
  split; [reflexivity|]. split; [reflexivity|].
  exists san0, in_chk, legal_after, s1.
  repeat (split; [assumption|]).
  split.
  - destruct Hsame as (H1 & H2 & H3 & H4 & H5 & H6).
    unfold same_position. simpl. rewrite H1, H2, H3, H4, H5, H6.
    repeat split; reflexivity.
  - split; [assumption|]. split; [assumption|].
    unfold check_suffix, is_nil.
    destruct in_chk; [destruct legal_after; reflexivity|].
    clear. induction san0 as [|c s IH]; simpl; [reflexivity | f_equal; exact IH].
Qed.

(** ** What [_apply_raw] returns, field by field *)

Lemma apply_raw_Ok (self b' : Board) (fr fc tr tc : Z) (promo : option ascii) :
  _apply_raw self (fr, fc, tr, tc, promo) = Ok b' ->
  exists piece target,
    cell self fr fc = Ok piece /\
    cell self tr tc = Ok target /\
    (if two_square_pawn_advance piece fr tr
     then square_name ((fr + tr) / 2) fc = Ok (ep b')
     else ep b' = "-") /\
    castling b'
    = update_castling (castling self) (turn self) (Py.lower piece) fr fc tr tc /\
    turn b' = (if String.eqb (turn self) "w" then "b" else "w") /\
    halfmove b' = (if Ascii.eqb (Py.lower piece) "p" || negb (Ascii.eqb target ".")
                   then 0 else halfmove self + 1) /\
    fullmove b' = (if String.eqb (turn self) "b" then fullmove self + 1
                   else fullmove self) /\
    _material_cache b' = None.
Proof.
  unfold _apply_raw. intros H.
  bind_inv H. rename v into piece, E into Hpiece.
  bind_inv H. rename v into target, E into Htarget.
  bind_inv H. bind_inv H. bind_inv H. bind_inv H. bind_inv H. bind_inv H.
  injection H as <-. simpl.
  exists piece, target. repeat (split; [assumption || reflexivity|]).
  split; [|repeat split; reflexivity].
  unfold two_square_pawn_advance, square_name.
  match goal with
  | E : (if ?c then _ else _) = Ok ?x |- context [if ?c then _ else _] =>
      destruct c; [exact E | injection E as <-; reflexivity]
  end.
Qed.

Lemma str_nonempty (n : Z) : Py.str n <> "".
Proof.
  unfold Py.str, DecimalString.NilZero.string_of_int,
    DecimalString.NilZero.string_of_uint.
  destruct (Z.to_int n) as [d|d]; destruct d; simpl; discriminate.
Qed.

Lemma square_name_not_dash (r c : Z) (s : string) :
  square_name r c = Ok s -> s <> "-".
Proof.
  unfold square_name. intros H. bind_inv H. injection H as <-.
  simpl. intros C. injection C as _ C. exact (str_nonempty _ C).
Qed.


(** ** C7: SAN rendering *)



Lemma chr_file_name (c : Z) (f : ascii) :
  Py.chr (Py.ord "a" + c) = Ok f -> file_name c = Py.str1 f.
Proof. unfold file_name. intros ->. reflexivity. Qed.

(** [_build_san] renders the move as the (amended) words say. *)
Lemma build_san_by_words (self : Board) (fr fc tr tc : Z)
  (promo : option ascii) (legal : list move) (s : string) :
  _build_san self fr fc tr tc promo legal = Ok s ->
  exists piece target,
    cell self fr fc = Ok piece /\
    cell self tr tc = Ok target /\
    let kind := Py.lower piece in
    let capture := negb (Ascii.eqb target ".")
                   || is_en_passant self piece tr tc in
    let castles := Ascii.eqb kind "k" && (fc =? 4) && ((tc =? 6) || (tc =? 2)) in
    let plain := Ascii.eqb kind "p" || castles in
    exists rivals,
      (plain = false ->
       ambiguous self kind fr fc tr tc promo legal = Ok rivals) /\
      s = san_by_words kind capture fr fc tr tc promo rivals.
Proof.
  unfold _build_san. intros H.
  bind_inv H. rename v into piece, E into Hpiece.
  bind_inv H. rename v into target, E into Htarget.
  bind_inv H. rename v into is_cap, E into Hcap.
  exists piece, target. split; [assumption|]. split; [assumption|].
  cbv zeta.
  assert (Hc : is_cap = negb (Ascii.eqb target ".")
                         || is_en_passant self piece tr tc).
  { unfold is_en_passant.
    destruct (negb (Ascii.eqb target ".")); simpl.
    - injection Hcap as <-. reflexivity.
    - destruct (Ascii.eqb (Py.lower piece) "p" && negb (String.eqb (ep self) "-"));
        simpl; [|injection Hcap as <-; reflexivity].
      bind_inv Hcap. rewrite E.
      destruct (tc =? v); simpl; [|injection Hcap as <-; reflexivity].
      bind_inv Hcap. rewrite E0. injection Hcap as <-. reflexivity. }
  rewrite <- Hc. clear Hcap Hc.
  unfold san_by_words.
  destruct (Ascii.eqb (Py.lower piece) "k" && (fc =? 4) && (tc =? 6)) eqn:K6.
  { injection H as <-. exists [].
    apply andb_prop in K6. destruct K6 as [K6 ->].
    rewrite K6. simpl. rewrite orb_true_r. split; [discriminate | reflexivity]. }
  destruct (Ascii.eqb (Py.lower piece) "k" && (fc =? 4) && (tc =? 2)) eqn:K2.
  { injection H as <-. exists [].
    apply andb_prop in K2. destruct K2 as [K2 ->].
    rewrite K2. simpl. rewrite !orb_true_r. split; [discriminate | reflexivity]. }
  bind_inv H. rename v into to_sq, E into Hsq.
  unfold square_name in Hsq. bind_inv Hsq. rename v into f2.
  injection Hsq as <-. unfold rank_name.
  rewrite (chr_file_name _ _ E).
  destruct (Ascii.eqb (Py.lower piece) "p") eqn:P.
  - bind_inv H. injection H as <-. exists []. split; [discriminate|].
    destruct is_cap.
    + bind_inv E0. injection E0 as <-. rewrite (chr_file_name _ _ E1). reflexivity.
    + injection E0 as <-. reflexivity.
  - bind_inv H. rename v into rivals, E0 into Hamb.
    bind_inv H. rename v into dis, E0 into Hdis.
    injection H as <-. exists rivals. split; [intros _; exact Hamb|].
    assert (Hd : dis = disambiguator rivals fr fc).
    { unfold disambiguator. destruct rivals as [|r0 rivals'].
      - injection Hdis as <-. reflexivity.
      - destruct (negb (existsb _ (r0 :: rivals'))).
        + bind_inv Hdis. injection Hdis as <-.
          rewrite (chr_file_name _ _ E0). reflexivity.
        + destruct (negb (existsb _ (r0 :: rivals'))).
          * injection Hdis as <-. reflexivity.
          * bind_inv Hdis. injection Hdis as <-.
            rewrite (chr_file_name _ _ E0). reflexivity. }
    rewrite Hd. reflexivity.
Qed.




(** ** Lists, rows and cells *)

Lemma valid_range (r c : Z) :
  valid r c = true <-> 0 <= r < 8 /\ 0 <= c < 8.
Proof.
  unfold valid. rewrite !andb_true_iff, !Z.leb_le, !Z.ltb_lt. lia.
Qed.

Lemma norm_index_Some (len i : Z) (j : nat) :
  Py.norm_index len i = Some j -> (Z.of_nat j < len) /\ 0 <= len.
Proof.
  unfold Py.norm_index. intros H.
  destruct (i <? 0) eqn:N;
    destruct ((0 <=? _) && (_ <? len)) eqn:C; try discriminate;
    injection H as <-; apply andb_prop in C; destruct C as [C1 C2];
    apply Z.leb_le in C1; apply Z.ltb_lt in C2; lia.
Qed.

Lemma norm_index_in_range (len i : Z) :
  0 <= i < len -> Py.norm_index len i = Some (Z.to_nat i).
Proof.
  intros H. unfold Py.norm_index.
  destruct (i <? 0) eqn:N; [apply Z.ltb_lt in N; lia|].
  replace (0 <=? i) with true by (symmetry; apply Z.leb_le; lia).
  replace (i <? len) with true by (symmetry; apply Z.ltb_lt; lia).
  reflexivity.
Qed.

Lemma index_total {A} (l : list A) (i : Z) :
  0 <= i < Z.of_nat (List.length l) -> exists x, Py.index l i = Ok x.
Proof.
  intros H. unfold Py.index. rewrite (norm_index_in_range _ _ H).
  destruct (nth_error l (Z.to_nat i)) as [x|] eqn:E; [eauto|].
  apply nth_error_None in E. lia.
Qed.

Lemma index_In {A} (l : list A) (i : Z) (x : A) :
  Py.index l i = Ok x -> In x l.
Proof.
  unfold Py.index. destruct (Py.norm_index _ i) as [j|]; [|discriminate].
  destruct (nth_error l j) as [y|] eqn:E; [|discriminate].
  intros H. injection H as <-. eapply nth_error_In. exact E.
Qed.

Lemma replace_nth_length {A} (l : list A) (j : nat) (x : A) :
  List.length (Py.replace_nth l j x) = List.length l.
Proof.
  revert j. induction l as [|h t IH]; intros [|j]; simpl; auto.
Qed.

Lemma replace_nth_Forall {A} (P : A -> Prop) (l : list A) (j : nat) (x : A) :
  Forall P l -> P x -> Forall P (Py.replace_nth l j x).
Proof.
  intros Hl Hx. revert j.
  induction Hl as [|h t Hh Ht IH]; intros [|j]; simpl; auto.
Qed.

Lemma setitem_length {A} (l l' : list A) (i : Z) (x : A) :
  Py.setitem l i x = Ok l' -> List.length l' = List.length l.
Proof.
  unfold Py.setitem. destruct (Py.norm_index _ i); [|discriminate].
  intros H. injection H as <-. apply replace_nth_length.
Qed.

Lemma setitem_Forall {A} (P : A -> Prop) (l l' : list A) (i : Z) (x : A) :
  Py.setitem l i x = Ok l' -> Forall P l -> P x -> Forall P l'.
Proof.
  unfold Py.setitem. destruct (Py.norm_index _ i); [|discriminate].
  intros H. injection H as <-. apply replace_nth_Forall.
Qed.

Lemma setitem_total {A} (l : list A) (i : Z) (x : A) :
  0 <= i < Z.of_nat (List.length l) -> exists l', Py.setitem l i x = Ok l'.
Proof.
  intros H. unfold Py.setitem. rewrite (norm_index_in_range _ _ H). eauto.
Qed.

Lemma cell_total (b : Board) (r c : Z) :
  shape8 (board b) -> valid r c = true -> exists x, cell b r c = Ok x.
Proof.
  intros [Hl Hr] V. apply valid_range in V. unfold cell.
  destruct (index_total (board b) r) as [row Erow]; [rewrite Hl; lia|].
  rewrite Erow. simpl.
  apply index_In in Erow. rewrite Forall_forall in Hr. specialize (Hr row Erow).
  apply index_total. rewrite Hr. lia.
Qed.

Lemma cell_all_cells (P : ascii -> Prop) (b : Board) (r c : Z) (x : ascii) :
  all_cells P (board b) -> cell b r c = Ok x -> P x.
Proof.
  unfold cell, all_cells. intros Hall H. bind_inv H.
  apply index_In in E, H. rewrite Forall_forall in Hall.
  specialize (Hall v E). rewrite Forall_forall in Hall. auto.
Qed.

Lemma set_cell_shape (g g' : list (list ascii)) (r c : Z) (x : ascii) :
  set_cell g r c x = Ok g' -> shape8 g -> shape8 g'.
Proof.
  unfold set_cell. intros H [Hl Hr]. bind_inv H. bind_inv H.
  split.
  - rewrite (setitem_length _ _ _ _ H). exact Hl.
  - eapply setitem_Forall; [exact H | exact Hr |].
    rewrite (setitem_length _ _ _ _ E0).
    apply index_In in E. rewrite Forall_forall in Hr. auto.
Qed.

Lemma set_cell_all_cells (P : ascii -> Prop) (g g' : list (list ascii))
  (r c : Z) (x : ascii) :
  set_cell g r c x = Ok g' -> all_cells P g -> P x -> all_cells P g'.
Proof.
  unfold set_cell, all_cells. intros H Hall Hx. bind_inv H. bind_inv H.
  eapply setitem_Forall; [exact H | exact Hall |].
  eapply setitem_Forall; [exact E0 | | exact Hx].
  apply index_In in E. rewrite Forall_forall in Hall. auto.
Qed.

Lemma set_cell_total (g : list (list ascii)) (r c : Z) (x : ascii) :
  shape8 g -> valid r c = true -> exists g', set_cell g r c x = Ok g'.
Proof.
  intros [Hl Hr] V. apply valid_range in V. unfold set_cell.
  destruct (index_total g r) as [row Erow]; [rewrite Hl; lia|].
  rewrite Erow. simpl.
  assert (Hrow : List.length row = 8%nat).
  { apply index_In in Erow. rewrite Forall_forall in Hr. auto. }
  destruct (setitem_total row c x) as [row' Erow']; [rewrite Hrow; lia|].
  rewrite Erow'. simpl. apply setitem_total. rewrite Hl. lia.
Qed.

(** ** Attack detection never raises on an 8x8 grid *)

Section AttackTotal.

Variable b : Board.
Hypothesis Hshape : shape8 (board b).

Lemma attacked_by_offsets_total (r c : Z) (by_ : string) (kind : ascii)
  (ds : list (Z * Z)) :
  exists v, attacked_by_offsets b r c by_ kind ds = Ok v.
Proof.
  induction ds as [|[dr dc] ds IH]; simpl; [eauto|].
  destruct (valid (r + dr) (c + dc)) eqn:V.
  - destruct (cell_total b _ _ Hshape V) as [x Ex]. rewrite Ex. simpl.
    destruct (_ && _); [eauto | exact IH].
  - simpl. exact IH.
Qed.

Lemma steps_left_step (dr dc nr nc : Z) :
  unit_step (dr, dc) ->
  valid nr nc = true ->
  1 <= steps_left dr dc nr nc /\
  (valid (nr + dr) (nc + dc) = true ->
   steps_left dr dc (nr + dr) (nc + dc) = steps_left dr dc nr nc - 1).
Proof.
  unfold unit_step, steps_left. intros (Hr & Hc & Hne) V.
  apply valid_range in V.
  destruct (dr =? 1) eqn:E1; [apply Z.eqb_eq in E1; lia|].
  destruct (dr =? -1) eqn:E2; [apply Z.eqb_eq in E2; lia|].
  apply Z.eqb_neq in E1, E2.
  destruct (dc =? 1) eqn:E3; [apply Z.eqb_eq in E3; lia|].
  apply Z.eqb_neq in E3. lia.
Qed.

Lemma attack_ray_total (by_ chars : string) (dr dc : Z) :
  unit_step (dr, dc) ->
  forall (fuel : nat) (nr nc : Z),
    (0 < fuel)%nat ->
    (valid nr nc = true -> steps_left dr dc nr nc < Z.of_nat fuel) ->
    exists v, attack_ray fuel b by_ chars dr dc nr nc = Ok v.
Proof.
  intros Hd. induction fuel as [|fuel IH]; intros nr nc Hpos Hm; [lia|].
  simpl. destruct (valid nr nc) eqn:V; [|eauto].
  destruct (cell_total b _ _ Hshape V) as [x Ex]. rewrite Ex. simpl.
  destruct (negb (Ascii.eqb x ".")); [eauto|].
  destruct (steps_left_step dr dc nr nc Hd V) as [H1 H2].
  specialize (Hm eq_refl).
  apply IH; [lia|].
  intros V'. rewrite (H2 V'). lia.
Qed.

Lemma attack_ray_start (by_ chars : string) (dr dc nr nc : Z) :
  unit_step (dr, dc) ->
  exists v, attack_ray 9 b by_ chars dr dc nr nc = Ok v.
Proof.
  intros Hd. apply attack_ray_total; [exact Hd | lia |].
  intros V. apply valid_range in V.
  unfold steps_left.
  destruct (dr =? 1); [lia|]. destruct (dr =? -1); [lia|].
  destruct (dc =? 1); lia.
Qed.

Lemma attacked_by_rays_total (r c : Z) (by_ chars : string) (ds : list (Z * Z)) :
  Forall unit_step ds ->
  exists v, attacked_by_rays b r c by_ chars ds = Ok v.
Proof.
  induction 1 as [|[dr dc] ds Hd Hds IH]; cbn [attacked_by_rays]; [eauto|].
  destruct (attack_ray_start by_ chars dr dc (r + dr) (c + dc) Hd) as [v Ev].
  rewrite Ev. cbn [bind]. destruct v; [eauto | exact IH].
Qed.

Lemma ROOK_D_unit : Forall unit_step ROOK_D.
Proof. repeat constructor; simpl; lia. Qed.

Lemma BISHOP_D_unit : Forall unit_step BISHOP_D.
Proof. repeat constructor; simpl; lia. Qed.

Lemma is_attacked_total (r c : Z) (by_ : string) :
  exists v, is_attacked b r c by_ = Ok v.
Proof.
  unfold is_attacked.
  destruct (attacked_by_offsets_total r c by_ "n" KNIGHT_D) as [v1 ->]. cbn [bind].
  destruct v1; [eauto|].
  destruct (attacked_by_rays_total r c by_ "qr" ROOK_D ROOK_D_unit) as [v2 ->].
  cbn [bind]. destruct v2; [eauto|].
  destruct (attacked_by_rays_total r c by_ "qb" BISHOP_D BISHOP_D_unit) as [v3 ->].
  cbn [bind]. destruct v3; [eauto|].
  destruct (attacked_by_offsets_total r c by_ "k" KING_D) as [v4 ->]. cbn [bind].
  destruct v4; [eauto|].
  apply attacked_by_offsets_total.
Qed.

Lemma find_in_row_total (k : ascii) (r : Z) (cs : list Z) :
  0 <= r < 8 -> Forall (fun c => 0 <= c < 8) cs ->
  exists o, find_in_row b k r cs = Ok o.
Proof.
  intros Hr. induction 1 as [|c cs Hc Hcs IH]; simpl; [eauto|].
  destruct (cell_total b r c Hshape) as [x Ex];
    [apply valid_range; lia|].
  rewrite Ex. simpl. destruct (Ascii.eqb x k); [eauto | exact IH].
Qed.

Lemma range8_bounds : Forall (fun c => 0 <= c < 8) Py.range8.
Proof. repeat constructor; lia. Qed.

Lemma find_in_rows_total (k : ascii) (rs : list Z) :
  Forall (fun r => 0 <= r < 8) rs ->
  exists o, find_in_rows b k rs = Ok o.
Proof.
  induction 1 as [|r rs Hr Hrs IH]; cbn [find_in_rows]; [eauto|].
  destruct (find_in_row_total k r Py.range8 Hr range8_bounds) as [o ->].
  cbn [bind]. destruct o; [eauto | exact IH].
Qed.

Lemma find_king_total (t : string) : exists o, find_king b t = Ok o.
Proof. unfold find_king. apply find_in_rows_total. exact range8_bounds. Qed.

Lemma in_check_total (turn_arg : option string) :
  exists v, in_check b turn_arg = Ok v.
Proof.
  unfold in_check. destruct (find_king_total (Py.or_str turn_arg (turn b))) as [o ->].
  simpl. destruct o as [[kr kc]|]; [apply is_attacked_total | eauto].
Qed.

(** Without a king of the side there is nothing to find. *)
Lemma find_in_row_absent (k : ascii) (r : Z) (cs : list Z) (o : option (Z * Z)) :
  all_cells (fun x => x <> k) (board b) ->
  find_in_row b k r cs = Ok o -> o = None.
Proof.
  intros Hk. revert o. induction cs as [|c cs IH]; intros o H; simpl in H.
  - injection H as <-. reflexivity.
  - bind_inv H. destruct (Ascii.eqb v k) eqn:C; [|auto].
    apply Ascii.eqb_eq in C. exfalso.
    exact (cell_all_cells _ b r c v Hk E C).
Qed.

Lemma find_in_rows_absent (k : ascii) (rs : list Z) (o : option (Z * Z)) :
  all_cells (fun x => x <> k) (board b) ->
  find_in_rows b k rs = Ok o -> o = None.
Proof.
  intros Hk. revert o. induction rs as [|r rs IH]; intros o H.
  - injection H as <-. reflexivity.
  - cbn [find_in_rows] in H. bind_inv H.
    apply find_in_row_absent in E; [|exact Hk]. subst v. auto.
Qed.

Lemma kingless_not_in_check (t : string) :
  kingless b t ->
  find_king b t = Ok None /\
  (forall turn_arg, Py.or_str turn_arg (turn b) = t ->
                    in_check b turn_arg = Ok false).
Proof.
  intros Hk.
  assert (F : find_king b t = Ok None).
  { destruct (find_king_total t) as [o Eo]. rewrite Eo. f_equal.
    unfold find_king in Eo. eapply find_in_rows_absent; [|exact Eo].
    exact Hk. }
  split; [exact F|].
  intros turn_arg <-. unfold in_check. rewrite F. reflexivity.
Qed.

End AttackTotal.

(** ** The shape of pseudo-legal moves *)

Section PseudoShape.

Variable b : Board.

Lemma promo_moves_shape (r c nr nc : Z) (m : move) :
  In m (promo_moves r c nr nc) ->
  exists pp, m = (r, c, nr, nc, Some pp) /\ In pp (Py.chars "qrbn").
Proof.
  unfold promo_moves. intros H. apply in_map_iff in H.
  destruct H as [pp [<- Hpp]]. eauto.
Qed.

Lemma offset_moves_shape (piece : ascii) (r c : Z) (ds : list (Z * Z)) :
  forall mvs m,
    offset_moves b piece r c ds = Ok mvs -> In m mvs ->
    exists dr dc, In (dr, dc) ds /\ m = (r, c, r + dr, c + dc, None) /\
                  valid (r + dr) (c + dc) = true.
Proof.
  induction ds as [|[dr dc] ds IH]; intros mvs m H Hin; simpl in H.
  - injection H as <-. contradiction.
  - bind_inv H. rename v into ok, E into Hok.
    bind_inv H. rename v into rest, E into Hrest.
    injection H as <-.
    assert (Hrec : In m rest ->
                   exists dr0 dc0, In (dr0, dc0) ((dr, dc) :: ds) /\
                                   m = (r, c, r + dr0, c + dc0, None) /\
                                   valid (r + dr0) (c + dc0) = true).
    { intros Hm. destruct (IH rest m Hrest Hm) as (a & d & H1 & H2).
      exists a, d. split; [right; exact H1 | exact H2]. }
    destruct ok; [|auto].
    destruct Hin as [<- | Hm]; [|auto].
    exists dr, dc. split; [left; reflexivity|]. split; [reflexivity|].
    destruct (valid (r + dr) (c + dc)); [reflexivity | discriminate].
Qed.

Lemma slide_ray_shape (turn : string) (r c dr dc : Z) (fuel : nat) :
  forall nr nc mvs m,
    slide_ray fuel b turn r c dr dc nr nc = Ok mvs -> In m mvs ->
    exists nr' nc', m = (r, c, nr', nc', None) /\ valid nr' nc' = true.
Proof.
  induction fuel as [|fuel IH]; intros nr nc mvs m H Hin; simpl in H;
    [discriminate|].
  destruct (valid nr nc) eqn:V; [|injection H as <-; contradiction].
  bind_inv H. destruct (Ascii.eqb v ".").
  - bind_inv H. injection H as <-.
    destruct Hin as [<- | Hm]; [eauto | eapply IH; eassumption].
  - destruct (enemy v turn); injection H as <-; [|contradiction].
    destruct Hin as [<- | []]. eauto.
Qed.

Lemma slide_moves_shape (turn : string) (r c : Z) (ds : list (Z * Z)) :
  forall mvs m,
    slide_moves b turn r c ds = Ok mvs -> In m mvs ->
    exists nr' nc', m = (r, c, nr', nc', None) /\ valid nr' nc' = true.
Proof.
  induction ds as [|[dr dc] ds IH]; intros mvs m H Hin; cbn [slide_moves] in H.
  - injection H as <-. contradiction.
  - bind_inv H. bind_inv H. injection H as <-.
    apply in_app_or in Hin. destruct Hin as [Hm | Hm].
    + eapply slide_ray_shape; eassumption.
    + eapply IH; eassumption.
Qed.

Lemma pawn_captures_shape (turn : string) (r c fwd promo_r : Z) (dcs : list Z) :
  forall mvs m,
    pawn_captures b turn r c fwd promo_r dcs = Ok mvs -> In m mvs ->
    exists tc pr, m = (r, c, r + fwd, tc, pr) /\ valid (r + fwd) tc = true /\
                  match pr with
                  | None => True
                  | Some pp => In pp (Py.chars "qrbn")
                  end.
Proof.
  induction dcs as [|dc dcs IH]; intros mvs m H Hin; simpl in H.
  - injection H as <-. contradiction.
  - bind_inv H. rename v into here, E into Hhere.
    bind_inv H. injection H as <-.
    apply in_app_or in Hin. destruct Hin as [Hm | Hm]; [|eapply IH; eassumption].
    destruct (valid (r + fwd) (c + dc)) eqn:V;
      [|injection Hhere as <-; contradiction].
    bind_inv Hhere. bind_inv Hhere.
    destruct (enemy v0 turn || v1); [|injection Hhere as <-; contradiction].
    destruct (r + fwd =? promo_r); injection Hhere as <-.
    + apply promo_moves_shape in Hm. destruct Hm as [pp [-> Hpp]].
      exists (c + dc), (Some pp). auto.
    + destruct Hm as [<- | []]. exists (c + dc), None. auto.
Qed.

Lemma pawn_moves_shape (turn : string) (r c : Z) (mvs : list move) (m : move) :
  pawn_moves b turn r c = Ok mvs -> In m mvs ->
  let fwd := if String.eqb turn "w" then -1 else 1 in
  let start_r := if String.eqb turn "w" then 6 else 1 in
  (exists tc pr, m = (r, c, r + fwd, tc, pr) /\ valid (r + fwd) tc = true /\
                 match pr with
                 | None => True
                 | Some pp => In pp (Py.chars "qrbn")
                 end) \/
  (m = (r, c, r + 2 * fwd, c, None) /\ r = start_r /\ valid (r + fwd) c = true).
Proof.
  unfold pawn_moves. intros H Hin. cbv zeta.
  set (fwd := if String.eqb turn "w" then -1 else 1) in *.
  set (start_r := if String.eqb turn "w" then 6 else 1) in *.
  set (promo_r := if String.eqb turn "w" then 0 else 7) in *.
  bind_inv H. rename v into adv, E into Hadv.
  bind_inv H. rename v into caps, E into Hcaps.
  injection H as <-.
  apply in_app_or in Hin. destruct Hin as [Hm | Hm];
    [|left; eapply pawn_captures_shape; eassumption].
  destruct (valid (r + fwd) c) eqn:V; [|injection Hadv as <-; contradiction].
  bind_inv Hadv.
  destruct (Ascii.eqb v "."); [|injection Hadv as <-; contradiction].
  destruct (r + fwd =? promo_r).
  - injection Hadv as <-. apply promo_moves_shape in Hm.
    destruct Hm as [pp [-> Hpp]]. left. exists c, (Some pp). auto.
  - bind_inv Hadv. rename v0 into dbl. injection Hadv as <-.
    destruct Hm as [<- | Hm]; [left; exists c, None; auto|].
    destruct dbl; [|contradiction].
    destruct Hm as [<- | []]. right.
    destruct (r =? start_r) eqn:S; [|discriminate].
    apply Z.eqb_eq in S. auto.
Qed.

Lemma castle_moves_shape (turn : string) (r c : Z) (mvs : list move) (m : move) :
  castle_moves b turn r c = Ok mvs -> In m mvs ->
  let kr := if String.eqb turn "w" then 7 else 0 in
  c = 4 /\ r = kr /\
  ((m = (r, c, kr, 6, None) /\
    Py.char_in (if String.eqb turn "w" then "K" else "k")%char (castling b) = true) \/
   (m = (r, c, kr, 2, None) /\
    Py.char_in (if String.eqb turn "w" then "Q" else "q")%char (castling b) = true)).
Proof.
  unfold castle_moves. intros H Hin. cbv zeta.
  assert (Hcas : (if String.eqb (castling b) "" then "" else castling b)
                 = castling b).
  { destruct (String.eqb (castling b) "") eqn:E; [|reflexivity].
    apply String.eqb_eq in E. symmetry. exact E. }
  rewrite Hcas in H. clear Hcas.
  destruct (String.eqb turn "w"); cbv beta iota zeta in H.
  - destruct ((r =? 7) && (c =? 4)) eqn:Hk; [|injection H as <-; contradiction].
    apply andb_prop in Hk. destruct Hk as [Hr Hc].
    apply Z.eqb_eq in Hr, Hc.
    bind_inv H. destruct (negb v); [|injection H as <-; contradiction].
    bind_inv H. rename v0 into kside, E0 into Hks.
    bind_inv H. rename v0 into qside, E0 into Hqs.
    injection H as <-. split; [exact Hc|]. split; [exact Hr|].
    apply in_app_or in Hin. destruct Hin as [Hm | Hm].
    + destruct kside; [|contradiction]. destruct Hm as [<- | []].
      left. split; [reflexivity|].
      destruct (Py.char_in "K" (castling b)); [reflexivity | discriminate].
    + destruct qside; [|contradiction]. destruct Hm as [<- | []].
      right. split; [reflexivity|].
      destruct (Py.char_in "Q" (castling b)); [reflexivity | discriminate].
  - destruct ((r =? 0) && (c =? 4)) eqn:Hk; [|injection H as <-; contradiction].
    apply andb_prop in Hk. destruct Hk as [Hr Hc].
    apply Z.eqb_eq in Hr, Hc.
    bind_inv H. destruct (negb v); [|injection H as <-; contradiction].
    bind_inv H. rename v0 into kside, E0 into Hks.
    bind_inv H. rename v0 into qside, E0 into Hqs.
    injection H as <-. split; [exact Hc|]. split; [exact Hr|].
    apply in_app_or in Hin. destruct Hin as [Hm | Hm].
    + destruct kside; [|contradiction]. destruct Hm as [<- | []].
      left. split; [reflexivity|].
      destruct (Py.char_in "k" (castling b)); [reflexivity | discriminate].
    + destruct qside; [|contradiction]. destruct Hm as [<- | []].
      right. split; [reflexivity|].
      destruct (Py.char_in "q" (castling b)); [reflexivity | discriminate].
Qed.

End PseudoShape.

Lemma KING_D_columns : Forall (fun d : Z * Z => -1 <= snd d <= 1) KING_D.
Proof. repeat constructor; simpl; lia. Qed.

Lemma turn_of_piece (piece : ascii) :
  String.eqb (if Py.isupper piece then "w" else "b") "w" = Py.isupper piece.
Proof. destruct (Py.isupper piece); reflexivity. Qed.

(** Two facts about the kind of one piece that contradict each other. *)
Ltac kind_clash :=
  match goal with
  | K : Py.lower ?p = ?x, N : Py.lower ?p <> ?x |- _ => contradiction
  | K : Py.lower ?p = _, K' : Py.lower ?p = _ |- _ =>
      rewrite K in K'; discriminate
  | K : Py.lower ?p = _, S : _ || _ = _ |- _ => rewrite K in S; discriminate
  end.

(** Every move [_pseudo] returns has the shape of a pseudo-legal move. *)
Lemma pseudo_shape_holds (b : Board) (r c : Z) (piece : ascii)
  (mvs : list move) (m : move) :
  _pseudo b r c = Ok mvs -> cell b r c = Ok piece -> In m mvs ->
  pseudo_shape b r c piece m.
Proof.
  unfold _pseudo. intros H Hp Hin. rewrite Hp in H. cbn [bind] in H.
  destruct (Ascii.eqb piece "."); [injection H as <-; contradiction|].
  destruct (Ascii.eqb (Py.lower piece) "p") eqn:Kp.
  { apply Ascii.eqb_eq in Kp.
    pose proof (pawn_moves_shape b _ r c mvs m H Hin) as S. cbv zeta in S.
    rewrite turn_of_piece in S.
    destruct S as [(tc & pr & -> & V & Hpr) | (-> & Hs & V)]; unfold pseudo_shape.
    - repeat split; intros; try assumption; try kind_clash;
        try (destruct pr; auto; fail);
        destruct (Py.isupper piece); lia.
    - apply valid_range in V.
      repeat split; intros; try kind_clash;
        try (apply valid_range);
        destruct (Py.isupper piece); lia. }
  apply Ascii.eqb_neq in Kp.
  destruct (Ascii.eqb (Py.lower piece) "n") eqn:Kn.
  { apply Ascii.eqb_eq in Kn.
    destruct (offset_moves_shape b piece r c KNIGHT_D mvs m H Hin)
      as (dr & dc & _ & -> & V).
    unfold pseudo_shape. repeat split; intros; try assumption; kind_clash. }
  destruct ((Ascii.eqb (Py.lower piece) "b") || (Ascii.eqb (Py.lower piece) "r")
            || (Ascii.eqb (Py.lower piece) "q")) eqn:Ks.
  { destruct (slide_moves_shape b _ r c _ mvs m H Hin) as (nr & nc & -> & V).
    unfold pseudo_shape. repeat split; intros; try assumption; kind_clash. }
  destruct (Ascii.eqb (Py.lower piece) "k") eqn:Kk;
    [|injection H as <-; contradiction].
  bind_inv H. rename v into steps, E into Hsteps.
  bind_inv H. rename v into cast, E into Hcast.
  injection H as <-.
  apply in_app_or in Hin. destruct Hin as [Hm | Hm].
  - destruct (offset_moves_shape b piece r c KING_D steps m Hsteps Hm)
      as (dr & dc & Hd & -> & V).
    pose proof KING_D_columns as Hcol. rewrite Forall_forall in Hcol.
    specialize (Hcol (dr, dc) Hd). simpl in Hcol.
    unfold pseudo_shape. repeat split; intros; try assumption;
      try kind_clash; lia.
  - pose proof (castle_moves_shape b _ r c cast m Hcast Hm) as S.
    cbv zeta in S. rewrite turn_of_piece in S.
    destruct S as (Hc & Hr & [[-> Hf] | [-> Hf]]);
      unfold pseudo_shape; repeat split; intros; try assumption;
      try kind_clash;
      try (apply valid_range; destruct (Py.isupper piece); lia);
      lia.
Qed.

(** ** Legal moves are pseudo-legal moves that leave the king safe *)

Lemma keep_safe_In (b : Board) (t : string) (mvs : list move) :
  forall kept m,
    keep_safe b t mvs = Ok kept -> In m kept ->
    In m mvs /\
    exists b2, _apply_raw b m = Ok b2 /\ in_check b2 (Some t) = Ok false.
Proof.
  induction mvs as [|mv mvs IH]; intros kept m H Hin; cbn [keep_safe] in H.
  - injection H as <-. contradiction.
  - bind_inv H. rename v into b2, E into Hb2.
    bind_inv H. rename v into chk, E into Hchk.
    bind_inv H. rename v into rest, E into Hrest.
    injection H as <-.
    destruct chk; cbn [negb] in Hin.
    + destruct (IH rest m Hrest Hin) as [H1 H2]. split; [right; exact H1 | exact H2].
    + destruct Hin as [<- | Hin].
      * split; [left; reflexivity | eauto].
      * destruct (IH rest m Hrest Hin) as [H1 H2].
        split; [right; exact H1 | exact H2].
Qed.

Lemma legal_from_In (b : Board) (t : string) (r c : Z) (l : list move) (m : move) :
  valid r c = true ->
  legal_from b t r c = Ok l -> In m l -> generated_for b t m.
Proof.
  unfold legal_from. intros V H Hin. bind_inv H. rename v into piece.
  destruct (Ascii.eqb piece ".") eqn:D; [injection H as <-; contradiction|].
  destruct (negb (Bool.eqb (String.eqb t "w") (Py.isupper piece))) eqn:C;
    [injection H as <-; contradiction|].
  bind_inv H. rename v into mvs.
  destruct (keep_safe_In b t mvs l m H Hin) as [Hm [b2 [H1 H2]]].
  exists r, c, piece, mvs, b2.
  repeat (split; [assumption|]).
  split; [apply Ascii.eqb_neq; exact D|].
  split; [|auto].
  apply negb_false_iff in C. apply Bool.eqb_prop in C. exact C.
Qed.

Lemma legal_in_row_In (b : Board) (t : string) (r : Z) (cs : list Z) :
  0 <= r < 8 -> Forall (fun c => 0 <= c < 8) cs ->
  forall l m, legal_in_row b t r cs = Ok l -> In m l -> generated_for b t m.
Proof.
  intros Hr. induction 1 as [|c cs Hc Hcs IH]; intros l m H Hin;
    cbn [legal_in_row] in H.
  - injection H as <-. contradiction.
  - bind_inv H. bind_inv H. injection H as <-.
    apply in_app_or in Hin. destruct Hin as [Hin | Hin].
    + eapply legal_from_In; [|eassumption|exact Hin]. apply valid_range. lia.
    + eapply IH; eassumption.
Qed.

Lemma legal_in_rows_In (b : Board) (t : string) (rs : list Z) :
  Forall (fun r => 0 <= r < 8) rs ->
  forall l m, legal_in_rows b t rs = Ok l -> In m l -> generated_for b t m.
Proof.
  induction 1 as [|r rs Hr Hrs IH]; intros l m H Hin; cbn [legal_in_rows] in H.
  - injection H as <-. contradiction.
  - bind_inv H. bind_inv H. injection H as <-.
    apply in_app_or in Hin. destruct Hin as [Hin | Hin].
    + eapply legal_in_row_In; [exact Hr | exact range8_bounds | eassumption | exact Hin].
    + eapply IH; eassumption.
Qed.

Lemma legal_moves_In (b : Board) (turn_arg : option string)
  (legal : list move) (m : move) :
  legal_moves b turn_arg = Ok legal -> In m legal ->
  generated_for b (Py.or_str turn_arg (turn b)) m.
Proof.
  unfold legal_moves. apply legal_in_rows_In. exact range8_bounds.
Qed.

(** The shape of a legal move, with the piece it moves. *)
Lemma legal_move_shape (b : Board) (t : string) (m : move) :
  generated_for b t m ->
  let '(fr, fc, _, _, _) := m in
  exists piece,
    valid fr fc = true /\
    cell b fr fc = Ok piece /\ piece <> "."%char /\
    String.eqb t "w" = Py.isupper piece /\
    pseudo_shape b fr fc piece m.
Proof.
  intros (r & c & piece & mvs & b2 & V & Hp & Hd & Ht & Hps & Hin & _).
  pose proof (pseudo_shape_holds b r c piece mvs m Hps Hp Hin) as S.
  destruct m as [[[[fr fc] tr] tc] promo].
  assert (fr = r /\ fc = c) as [-> ->] by (unfold pseudo_shape in S; tauto).
  exists piece. auto 6.
Qed.

(** ** [_apply_raw] on an 8x8 grid *)

Lemma set_cell_ok (g : list (list ascii)) (r c : Z) (x : ascii) :
  shape8 g -> valid r c = true ->
  exists g', set_cell g r c x = Ok g' /\ shape8 g'.
Proof.
  intros S V. destruct (set_cell_total g r c x S V) as [g' E].
  exists g'. split; [exact E | eapply set_cell_shape; eassumption].
Qed.

Lemma chr_file (c : Z) : 0 <= c < 8 -> exists f, Py.chr (Py.ord "a" + c) = Ok f.
Proof.
  intros H. unfold Py.chr.
  replace (Py.ord "a") with 97 by reflexivity.
  replace (0 <=? 97 + c) with true by (symmetry; apply Z.leb_le; lia).
  replace (97 + c <? 256) with true by (symmetry; apply Z.ltb_lt; lia).
  simpl. eauto.
Qed.

(** [_apply_raw] returns a position when the move starts and ends on the
    board. *)
Lemma apply_raw_total (self : Board) (fr fc tr tc : Z) (promo : option ascii) :
  well_formed self -> valid fr fc = true -> valid tr tc = true ->
  exists b', _apply_raw self (fr, fc, tr, tc, promo) = Ok b'.
Proof.
  intros [S Hep] Vf Vt. unfold _apply_raw.
  destruct (cell_total self fr fc S Vf) as [piece ->].
  destruct (cell_total self tr tc S Vt) as [target ->]. cbn [bind].
  pose proof Vf as Vf'. pose proof Vt as Vt'.
  apply valid_range in Vf', Vt'.
  (* the en-passant capture *)
  assert (H1 : exists g1,
             (if Ascii.eqb (Py.lower piece) "p" && negb (String.eqb (ep self) "-")
              then
                e0 <- Py.sindex (ep self) 0 ;;
                e1 <- Py.sindex (ep self) 1 ;;
                n <- Py.int (Py.str1 e1) ;;
                (if (tr =? 8 - n) && (tc =? Py.ord e0 - Py.ord "a")
                 then set_cell (board self) fr (Py.ord e0 - Py.ord "a") "."
                 else Ok (board self))
              else Ok (board self)) = Ok g1 /\ shape8 g1).
  { destruct (Ascii.eqb (Py.lower piece) "p" && negb (String.eqb (ep self) "-"))
      eqn:C; [|eauto].
    destruct Hep as [Hd | (e0 & e1 & n & E0 & E1 & En)].
    - rewrite Hd in C. rewrite andb_false_r in C. discriminate.
    - rewrite E0. cbn [bind]. rewrite E1. cbn [bind]. rewrite En. cbn [bind].
      destruct ((tr =? 8 - n) && (tc =? Py.ord e0 - Py.ord "a")) eqn:C2; [|eauto].
      apply andb_prop in C2. destruct C2 as [_ C2]. apply Z.eqb_eq in C2.
      rewrite <- C2. apply set_cell_ok; [exact S | apply valid_range; lia]. }
  destruct H1 as [g1 [-> S1]]. cbn [bind].
  (* the rook of a castling move *)
  assert (H2 : exists g2,
             (if Ascii.eqb (Py.lower piece) "k"
              then
                if (fc =? 4) && (tc =? 6)
                then g <- set_cell g1 fr 7 "." ;;
                     set_cell g fr 5
                       (if String.eqb (turn self) "w" then "R"%char else "r"%char)
                else if (fc =? 4) && (tc =? 2)
                then g <- set_cell g1 fr 0 "." ;;
                     set_cell g fr 3
                       (if String.eqb (turn self) "w" then "R"%char else "r"%char)
                else Ok g1
              else Ok g1) = Ok g2 /\ shape8 g2).
  { destruct (Ascii.eqb (Py.lower piece) "k"); [|eauto].
    destruct ((fc =? 4) && (tc =? 6)).
    - destruct (set_cell_ok g1 fr 7 "." S1) as [g [-> Sg]];
        [apply valid_range; lia|].
      cbn [bind]. apply set_cell_ok; [exact Sg | apply valid_range; lia].
    - destruct ((fc =? 4) && (tc =? 2)); [|eauto].
      destruct (set_cell_ok g1 fr 0 "." S1) as [g [-> Sg]];
        [apply valid_range; lia|].
      cbn [bind]. apply set_cell_ok; [exact Sg | apply valid_range; lia]. }
  destruct H2 as [g2 [-> S2]]. cbn [bind].
  destruct (set_cell_ok g2 tr tc piece S2 Vt) as [g3 [-> S3]]. cbn [bind].
  destruct (set_cell_ok g3 fr fc "." S3 Vf) as [g4 [-> S4]]. cbn [bind].
  assert (H5 : exists g5,
             match promo with
             | Some pr =>
                 set_cell g4 tr tc
                   (if String.eqb (turn self) "w" then Py.upper pr else Py.lower pr)
             | None =>
                 if Ascii.eqb (Py.lower piece) "p" && ((tr =? 0) || (tr =? 7))
                 then set_cell g4 tr tc
                        (if String.eqb (turn self) "w" then "Q" else "q")%char
                 else Ok g4
             end = Ok g5).
  { destruct promo as [pr|].
    - apply set_cell_total; assumption.
    - destruct (_ && _); [apply set_cell_total; assumption | eauto]. }
  destruct H5 as [g5 ->]. cbn [bind].
  destruct (Ascii.eqb (Py.lower piece) "p" && (Z.abs (fr - tr) =? 2)).
  - destruct (chr_file fc) as [f ->]; [lia|]. cbn [bind]. eauto.
  - cbn [bind]. eauto.
Qed.

(** The cells of the position [_apply_raw] returns: the old ones, the empty
    cell, a rook beside a king that moved, the promotion piece. *)
Lemma apply_raw_all_cells (P : ascii -> Prop) (self b' : Board)
  (fr fc tr tc : Z) (promo : option ascii) :
  _apply_raw self (fr, fc, tr, tc, promo) = Ok b' ->
  all_cells P (board self) ->
  P "."%char ->
  P (if String.eqb (turn self) "w" then "R" else "r")%char ->
  match promo with
  | Some pr => P (if String.eqb (turn self) "w" then Py.upper pr else Py.lower pr)
  | None => P (if String.eqb (turn self) "w" then "Q" else "q")%char
  end ->
  all_cells P (board b').
Proof.
  unfold _apply_raw. intros H Hall Hdot Hrook Hpromo.
  bind_inv H. rename v into piece, E into Hpiece.
  bind_inv H. rename v into target.
  bind_inv H. rename v into g1, E0 into H1.
  bind_inv H. rename v into g2, E0 into H2.
  bind_inv H. rename v into g3, E0 into H3.
  bind_inv H. rename v into g4, E0 into H4.
  bind_inv H. rename v into g5, E0 into H5.
  bind_inv H. injection H as <-. cbn [board].
  assert (Hp : P piece) by (eapply cell_all_cells; eassumption).
  assert (A1 : all_cells P g1).
  { destruct (_ && _) in H1; [|injection H1 as <-; exact Hall].
    bind_inv H1. bind_inv H1. bind_inv H1.
    destruct (_ && _) in H1; [|injection H1 as <-; exact Hall].
    eapply set_cell_all_cells; eassumption. }
  assert (A2 : all_cells P g2).
  { destruct (Ascii.eqb (Py.lower piece) "k") in H2;
      [|injection H2 as <-; exact A1].
    destruct (_ && _) in H2.
    - bind_inv H2. eapply set_cell_all_cells; [exact H2 | | exact Hrook].
      eapply set_cell_all_cells; eassumption.
    - destruct (_ && _) in H2; [|injection H2 as <-; exact A1].
      bind_inv H2. eapply set_cell_all_cells; [exact H2 | | exact Hrook].
      eapply set_cell_all_cells; eassumption. }
  assert (A3 : all_cells P g3) by (eapply set_cell_all_cells; eassumption).
  assert (A4 : all_cells P g4) by (eapply set_cell_all_cells; eassumption).
  destruct promo as [pr|].
  - eapply set_cell_all_cells; eassumption.
  - destruct (_ && _) in H5; [|injection H5 as <-; exact A4].
    eapply set_cell_all_cells; eassumption.
Qed.

Lemma apply_raw_shape (self b' : Board) (m : move) :
  _apply_raw self m = Ok b' -> shape8 (board self) -> shape8 (board b').
Proof.
  destruct m as [[[[fr fc] tr] tc] promo].
  unfold _apply_raw. intros H S.
  bind_inv H. bind_inv H.
  bind_inv H. rename v1 into g1, E1 into H1.
  bind_inv H. rename v1 into g2, E1 into H2.
  bind_inv H. rename v1 into g3, E1 into H3.
  bind_inv H. rename v1 into g4, E1 into H4.
  bind_inv H. rename v1 into g5, E1 into H5.
  bind_inv H. injection H as <-. cbn [board].
  assert (S1 : shape8 g1).
  { destruct (_ && _) in H1; [|injection H1 as <-; exact S].
    bind_inv H1. bind_inv H1. bind_inv H1.
    destruct (_ && _) in H1; [|injection H1 as <-; exact S].
    eapply set_cell_shape; eassumption. }
  assert (S2 : shape8 g2).
  { destruct (Ascii.eqb (Py.lower v) "k") in H2;
      [|injection H2 as <-; exact S1].
    destruct (_ && _) in H2.
    - bind_inv H2. eapply set_cell_shape; [exact H2|].
      eapply set_cell_shape; eassumption.
    - destruct (_ && _) in H2; [|injection H2 as <-; exact S1].
      bind_inv H2. eapply set_cell_shape; [exact H2|].
      eapply set_cell_shape; eassumption. }
  assert (S3 : shape8 g3) by (eapply set_cell_shape; eassumption).
  assert (S4 : shape8 g4) by (eapply set_cell_shape; eassumption).
  destruct promo as [pr|].
  - eapply set_cell_shape; eassumption.
  - destruct (_ && _) in H5; [|injection H5 as <-; exact S4].
    eapply set_cell_shape; eassumption.
Qed.

(** ** Move generation never raises on a well-formed position *)

Section PseudoTotal.

Variable b : Board.
Hypothesis Hwf : well_formed b.

Let Hshape : shape8 (board b) := proj1 Hwf.

Lemma offset_moves_total (piece : ascii) (r c : Z) (ds : list (Z * Z)) :
  exists mvs, offset_moves b piece r c ds = Ok mvs.
Proof.
  induction ds as [|[dr dc] ds [rest IH]]; cbn [offset_moves]; [eauto|].
  rewrite IH.
  destruct (valid (r + dr) (c + dc)) eqn:V.
  - destruct (cell_total b _ _ Hshape V) as [x ->]. cbn [bind]. eauto.
  - cbn [bind]. eauto.
Qed.

Lemma slide_ray_total (turn : string) (r c dr dc : Z) :
  unit_step (dr, dc) ->
  forall (fuel : nat) (nr nc : Z),
    (0 < fuel)%nat ->
    (valid nr nc = true -> steps_left dr dc nr nc < Z.of_nat fuel) ->
    exists mvs, slide_ray fuel b turn r c dr dc nr nc = Ok mvs.
Proof.
  intros Hd. induction fuel as [|fuel IH]; intros nr nc Hpos Hm; [lia|].
  cbn [slide_ray]. destruct (valid nr nc) eqn:V; [|eauto].
  destruct (cell_total b _ _ Hshape V) as [x ->]. cbn [bind].
  destruct (Ascii.eqb x "."); [|destruct (enemy x turn); eauto].
  destruct (steps_left_step dr dc nr nc Hd V) as [H1 H2].
  specialize (Hm eq_refl).
  destruct (IH (nr + dr) (nc + dc)) as [rest ->]; [lia | | cbn [bind]; eauto].
  intros V'. rewrite (H2 V'). lia.
Qed.

Lemma slide_moves_total (turn : string) (r c : Z) (ds : list (Z * Z)) :
  Forall unit_step ds ->
  exists mvs, slide_moves b turn r c ds = Ok mvs.
Proof.
  induction 1 as [|[dr dc] ds Hd Hds [rest IH]]; cbn [slide_moves]; [eauto|].
  rewrite IH.
  destruct (slide_ray_total turn r c dr dc Hd 9 (r + dr) (c + dc)) as [here ->];
    [lia | | cbn [bind]; eauto].
  intros V. apply valid_range in V. unfold steps_left.
  destruct (dr =? 1); [lia|]. destruct (dr =? -1); [lia|].
  destruct (dc =? 1); lia.
Qed.

Lemma is_ep_square_total (nr nc : Z) : exists v, is_ep_square b nr nc = Ok v.
Proof.
  unfold is_ep_square.
  destruct (negb (String.eqb (ep b) "-")) eqn:C; [|eauto].
  destruct (proj2 Hwf) as [Hd | (e0 & e1 & n & E0 & E1 & En)].
  - rewrite Hd in C. discriminate.
  - rewrite E1. cbn [bind]. rewrite En. cbn [bind].
    destruct (nr =? 8 - n); [|eauto]. rewrite E0. cbn [bind]. eauto.
Qed.

Lemma pawn_captures_total (turn : string) (r c fwd promo_r : Z) (dcs : list Z) :
  exists mvs, pawn_captures b turn r c fwd promo_r dcs = Ok mvs.
Proof.
  induction dcs as [|dc dcs [rest IH]]; cbn [pawn_captures]; [eauto|].
  rewrite IH.
  destruct (valid (r + fwd) (c + dc)) eqn:V; [|cbn [bind]; eauto].
  destruct (cell_total b _ _ Hshape V) as [x ->]. cbn [bind].
  destruct (is_ep_square_total (r + fwd) (c + dc)) as [e ->]. cbn [bind].
  destruct (enemy x turn || e); [|cbn [bind]; eauto].
  destruct (r + fwd =? promo_r); cbn [bind]; eauto.
Qed.

Lemma pawn_moves_total (turn : string) (r c : Z) :
  exists mvs, pawn_moves b turn r c = Ok mvs.
Proof.
  unfold pawn_moves.
  set (fwd := if String.eqb turn "w" then -1 else 1).
  set (start_r := if String.eqb turn "w" then 6 else 1).
  set (promo_r := if String.eqb turn "w" then 0 else 7).
  destruct (pawn_captures_total turn r c fwd promo_r [-1; 1]) as [caps ->].
  destruct (valid (r + fwd) c) eqn:V; [|cbn [bind]; eauto].
  destruct (cell_total b _ _ Hshape V) as [x ->]. cbn [bind].
  destruct (Ascii.eqb x "."); [|cbn [bind]; eauto].
  destruct (r + fwd =? promo_r); [cbn [bind]; eauto|].
  destruct (r =? start_r) eqn:S; [|cbn [bind]; eauto].
  apply Z.eqb_eq in S. apply valid_range in V.
  destruct (cell_total b (r + 2 * fwd) c Hshape) as [y ->];
    [|cbn [bind]; eauto].
  apply valid_range. subst fwd start_r.
  destruct (String.eqb turn "w"); lia.
Qed.

Lemma castle_moves_total (turn : string) (r c : Z) :
  exists mvs, castle_moves b turn r c = Ok mvs.
Proof.
  unfold castle_moves.
  set (opp := if String.eqb turn "w" then "b" else "w").
  set (rp := if String.eqb turn "w" then "R"%char else "r"%char).
  set (ks := if String.eqb turn "w" then "K"%char else "k"%char).
  set (qs := if String.eqb turn "w" then "Q"%char else "q"%char).
  set (cas := if String.eqb (castling b) "" then "" else castling b).
  assert (Hkr : exists kr, (if String.eqb turn "w" then (7, 4) else (0, 4))
                           = (kr, 4) /\ 0 <= kr < 8).
  { destruct (String.eqb turn "w"); eexists; split; try reflexivity; lia. }
  destruct Hkr as [kr [-> Hkr]].
  destruct ((r =? kr) && (c =? 4)); [|eauto].
  destruct (is_attacked_total b Hshape kr 4 opp) as [att ->]. cbn [bind].
  destruct (negb att); [|eauto].
  assert (Hcell : forall col, 0 <= col < 8 -> exists x, cell b kr col = Ok x).
  { intros col Hcol. apply cell_total; [exact Hshape | apply valid_range; lia]. }
  assert (Hk : exists v,
             (if Py.char_in ks cas then
                x5 <- cell b kr 5 ;;
                (if Ascii.eqb x5 "." then
                   x6 <- cell b kr 6 ;;
                   (if Ascii.eqb x6 "." then
                      x7 <- cell b kr 7 ;;
                      (if Ascii.eqb x7 rp then
                         a5 <- is_attacked b kr 5 opp ;;
                         (if negb a5 then
                            a6 <- is_attacked b kr 6 opp ;; Ok (negb a6)
                          else Ok false)
                       else Ok false)
                    else Ok false)
                 else Ok false)
              else Ok false) = Ok v).
  { destruct (Py.char_in ks cas); [|eauto].
    destruct (Hcell 5) as [x5 ->]; [lia|]. cbn [bind].
    destruct (Ascii.eqb x5 "."); [|eauto].
    destruct (Hcell 6) as [x6 ->]; [lia|]. cbn [bind].
    destruct (Ascii.eqb x6 "."); [|eauto].
    destruct (Hcell 7) as [x7 ->]; [lia|]. cbn [bind].
    destruct (Ascii.eqb x7 rp); [|eauto].
    destruct (is_attacked_total b Hshape kr 5 opp) as [a5 ->]. cbn [bind].
    destruct (negb a5); [|eauto].
    destruct (is_attacked_total b Hshape kr 6 opp) as [a6 ->]. cbn [bind].
    eauto. }
  destruct Hk as [kside ->]. cbn [bind].
  assert (Hq : exists v,
             (if Py.char_in qs cas then
                x3 <- cell b kr 3 ;;
                (if Ascii.eqb x3 "." then
                   x2 <- cell b kr 2 ;;
                   (if Ascii.eqb x2 "." then
                      x1 <- cell b kr 1 ;;
                      (if Ascii.eqb x1 "." then
                         x0 <- cell b kr 0 ;;
                         (if Ascii.eqb x0 rp then
                            a3 <- is_attacked b kr 3 opp ;;
                            (if negb a3 then
                               a2 <- is_attacked b kr 2 opp ;; Ok (negb a2)
                             else Ok false)
                          else Ok false)
                       else Ok false)
                    else Ok false)
                 else Ok false)
              else Ok false) = Ok v).
  { destruct (Py.char_in qs cas); [|eauto].
    destruct (Hcell 3) as [x3 ->]; [lia|]. cbn [bind].
    destruct (Ascii.eqb x3 "."); [|eauto].
    destruct (Hcell 2) as [x2 ->]; [lia|]. cbn [bind].
    destruct (Ascii.eqb x2 "."); [|eauto].
    destruct (Hcell 1) as [x1 ->]; [lia|]. cbn [bind].
    destruct (Ascii.eqb x1 "."); [|eauto].
    destruct (Hcell 0) as [x0 ->]; [lia|]. cbn [bind].
    destruct (Ascii.eqb x0 rp); [|eauto].
    destruct (is_attacked_total b Hshape kr 3 opp) as [a3 ->]. cbn [bind].
    destruct (negb a3); [|eauto].
    destruct (is_attacked_total b Hshape kr 2 opp) as [a2 ->]. cbn [bind].
    eauto. }
  destruct Hq as [qside ->]. cbn [bind]. eauto.
Qed.

Lemma QUEEN_D_unit : Forall unit_step QUEEN_D.
Proof. repeat constructor; simpl; lia. Qed.

Lemma pseudo_total (r c : Z) :
  valid r c = true -> exists mvs, _pseudo b r c = Ok mvs.
Proof.
  intros V. unfold _pseudo.
  destruct (cell_total b r c Hshape V) as [piece ->]. cbn [bind].
  destruct (Ascii.eqb piece "."); [eauto|].
  destruct (Ascii.eqb (Py.lower piece) "p"); [apply pawn_moves_total|].
  destruct (Ascii.eqb (Py.lower piece) "n"); [apply offset_moves_total|].
  destruct (_ || _).
  - apply slide_moves_total.
    destruct (Ascii.eqb (Py.lower piece) "b"); [exact BISHOP_D_unit|].
    destruct (Ascii.eqb (Py.lower piece) "r");
      [exact ROOK_D_unit | exact QUEEN_D_unit].
  - destruct (Ascii.eqb (Py.lower piece) "k"); [|eauto].
    destruct (offset_moves_total piece r c KING_D) as [steps ->]. cbn [bind].
    destruct (castle_moves_total (if Py.isupper piece then "w" else "b") r c)
      as [cast ->].
    cbn [bind]. eauto.
Qed.

End PseudoTotal.

(** ** Legal-move enumeration never raises on a well-formed position *)

Lemma kingless_after (b b2 : Board) (t : string) (fr fc tr tc : Z)
  (promo : option ascii) :
  kingless b t ->
  _apply_raw b (fr, fc, tr, tc, promo) = Ok b2 ->
  match promo with
  | Some pp => In pp (Py.chars "qrbn")
  | None => True
  end ->
  kingless b2 t.
Proof.
  unfold kingless. intros Hk H Hpromo.
  eapply apply_raw_all_cells; [exact H | exact Hk | | |].
  - unfold king_of. destruct (String.eqb t "w"); discriminate.
  - unfold king_of.
    destruct (String.eqb t "w"), (String.eqb (turn b) "w"); discriminate.
  - unfold king_of. destruct promo as [pp|].
    + simpl in Hpromo.
      destruct Hpromo as [<- | [<- | [<- | [<- | []]]]];
        destruct (String.eqb t "w"), (String.eqb (turn b) "w"); discriminate.
    + destruct (String.eqb t "w"), (String.eqb (turn b) "w"); discriminate.
Qed.

Section LegalTotal.

Variable b : Board.
Hypothesis Hwf : well_formed b.
Variable t : string.

(** The moves of [mvs] start and end on the board and promote properly. *)
Let playable (m : move) : Prop :=
  let '(fr, fc, tr, tc, promo) := m in
  valid fr fc = true /\ valid tr tc = true /\
  match promo with
  | Some pp => In pp (Py.chars "qrbn")
  | None => True
  end.

Lemma keep_safe_total (mvs : list move) :
  Forall playable mvs -> exists kept, keep_safe b t mvs = Ok kept.
Proof.
  induction 1 as [|m mvs Hm Hmvs [rest IH]]; cbn [keep_safe]; [eauto|].
  destruct m as [[[[fr fc] tr] tc] promo]. destruct Hm as (Vf & Vt & _).
  destruct (apply_raw_total b fr fc tr tc promo Hwf Vf Vt) as [b2 E2].
  rewrite E2. cbn [bind].
  destruct (in_check_total b2 (apply_raw_shape _ _ _ E2 (proj1 Hwf)) (Some t))
    as [chk ->].
  cbn [bind]. rewrite IH. cbn [bind]. eauto.
Qed.

Lemma keep_safe_kingless (mvs : list move) :
  t <> "" -> kingless b t ->
  Forall playable mvs -> keep_safe b t mvs = Ok mvs.
Proof.
  intros Ht Hk. induction 1 as [|m mvs Hm Hmvs IH]; cbn [keep_safe]; [reflexivity|].
  destruct m as [[[[fr fc] tr] tc] promo]. destruct Hm as (Vf & Vt & Hp).
  destruct (apply_raw_total b fr fc tr tc promo Hwf Vf Vt) as [b2 E2].
  rewrite E2. cbn [bind].
  pose proof (kingless_after b b2 t fr fc tr tc promo Hk E2 Hp) as Hk2.
  destruct (kingless_not_in_check b2 (apply_raw_shape _ _ _ E2 (proj1 Hwf)) t Hk2)
    as [_ Hc].
  rewrite (Hc (Some t)).
  - cbn [bind]. rewrite IH. reflexivity.
  - unfold Py.or_str. destruct (String.eqb t "") eqn:E; [|reflexivity].
    apply String.eqb_eq in E. contradiction.
Qed.

Lemma pseudo_playable (r c : Z) (mvs : list move) :
  valid r c = true -> _pseudo b r c = Ok mvs -> Forall playable mvs.
Proof.
  intros V H. apply Forall_forall. intros m Hin.
  destruct (cell_total b r c (proj1 Hwf) V) as [piece Hp].
  pose proof (pseudo_shape_holds b r c piece mvs m H Hp Hin) as S.
  destruct m as [[[[fr fc] tr] tc] promo]. unfold pseudo_shape in S.
  destruct S as (-> & -> & Vt & Hpr & _).
  split; [exact V|]. split; [exact Vt|].
  destruct promo; tauto.
Qed.

Lemma legal_from_total (r c : Z) :
  valid r c = true -> exists l, legal_from b t r c = Ok l.
Proof.
  intros V. unfold legal_from.
  destruct (cell_total b r c (proj1 Hwf) V) as [piece ->]. cbn [bind].
  destruct (Ascii.eqb piece "."); [eauto|].
  destruct (negb _); [eauto|].
  destruct (pseudo_total b Hwf r c V) as [mvs E]. rewrite E. cbn [bind].
  apply keep_safe_total. eapply pseudo_playable; eassumption.
Qed.

Lemma legal_from_kingless (r c : Z) :
  t <> "" -> kingless b t -> valid r c = true ->
  exists l, legal_from b t r c = Ok l /\ pseudo_from b t r c = Ok l.
Proof.
  intros Ht Hk V. unfold legal_from, pseudo_from.
  destruct (cell_total b r c (proj1 Hwf) V) as [piece ->]. cbn [bind].
  destruct (Ascii.eqb piece "."); [eauto|].
  destruct (negb _); [eauto|].
  destruct (pseudo_total b Hwf r c V) as [mvs E]. rewrite E. cbn [bind].
  exists mvs. split; [|reflexivity].
  apply keep_safe_kingless; try assumption.
  eapply pseudo_playable; eassumption.
Qed.

Lemma legal_in_row_total (r : Z) (cs : list Z) :
  0 <= r < 8 -> Forall (fun c => 0 <= c < 8) cs ->
  exists l, legal_in_row b t r cs = Ok l.
Proof.
  intros Hr. induction 1 as [|c cs Hc Hcs [rest IH]]; cbn [legal_in_row]; [eauto|].
  destruct (legal_from_total r c) as [here ->]; [apply valid_range; lia|].
  cbn [bind]. rewrite IH. cbn [bind]. eauto.
Qed.

Lemma legal_in_row_kingless (r : Z) (cs : list Z) :
  t <> "" -> kingless b t ->
  0 <= r < 8 -> Forall (fun c => 0 <= c < 8) cs ->
  exists l, legal_in_row b t r cs = Ok l /\ pseudo_in_row b t r cs = Ok l.
Proof.
  intros Ht Hk Hr.
  induction 1 as [|c cs Hc Hcs [rest [IH1 IH2]]];
    cbn [legal_in_row pseudo_in_row]; [eauto|].
  destruct (legal_from_kingless r c Ht Hk) as [here [-> ->]];
    [apply valid_range; lia|].
  cbn [bind]. rewrite IH1, IH2. cbn [bind]. eauto.
Qed.

Lemma legal_in_rows_total (rs : list Z) :
  Forall (fun r => 0 <= r < 8) rs ->
  exists l, legal_in_rows b t rs = Ok l.
Proof.
  induction 1 as [|r rs Hr Hrs [rest IH]]; cbn [legal_in_rows]; [eauto|].
  destruct (legal_in_row_total r Py.range8 Hr range8_bounds) as [here ->].
  cbn [bind]. rewrite IH. cbn [bind]. eauto.
Qed.

Lemma legal_in_rows_kingless (rs : list Z) :
  t <> "" -> kingless b t ->
  Forall (fun r => 0 <= r < 8) rs ->
  exists l, legal_in_rows b t rs = Ok l /\ pseudo_in_rows b t rs = Ok l.
Proof.
  intros Ht Hk.
  induction 1 as [|r rs Hr Hrs [rest [IH1 IH2]]];
    cbn [legal_in_rows pseudo_in_rows]; [eauto|].
  destruct (legal_in_row_kingless r Py.range8 Ht Hk Hr range8_bounds)
    as [here [-> ->]].
  cbn [bind]. rewrite IH1, IH2. cbn [bind]. eauto.
Qed.

End LegalTotal.

Lemma legal_moves_total (b : Board) (turn_arg : option string) :
  well_formed b -> exists legal, legal_moves b turn_arg = Ok legal.
Proof.
  intros Hwf. unfold legal_moves.
  apply legal_in_rows_total; [exact Hwf | exact range8_bounds].
Qed.

Lemma collect_material_total (b : Board) (sqs : list (Z * Z)) :
  shape8 (board b) ->
  Forall (fun sq => valid (fst sq) (snd sq) = true) sqs ->
  exists m, collect_material b sqs = Ok m.
Proof.
  intros S. induction 1 as [|[r c] sqs V Hs [[ws bs] IH]];
    cbn [collect_material]; [eauto|].
  destruct (cell_total b r c S V) as [p ->]. cbn [bind].
  rewrite IH. cbn [bind]. eauto.
Qed.

Lemma all_squares_valid :
  Forall (fun sq => valid (fst sq) (snd sq) = true) all_squares.
Proof. vm_compute. repeat constructor. Qed.

Lemma game_result_total (b : Board) :
  well_formed b -> exists o, game_result b = Ok o.
Proof.
  intros Hwf. unfold game_result.
  destruct (legal_moves_total b None Hwf) as [legal ->]. cbn [bind].
  destruct legal as [|m legal].
  - destruct (in_check_total b (proj1 Hwf) None) as [chk ->]. cbn [bind].
    destruct chk; eauto.
  - destruct (100 <=? halfmove b); [eauto|].
    destruct (3 <=? _); [eauto|].
    unfold _insufficient.
    destruct (collect_material_total b all_squares (proj1 Hwf) all_squares_valid)
      as [[ws bs] ->].
    cbn [bind].
    repeat match goal with
           | |- context [if ?c then _ else _] => destruct c
           end; cbn [bind]; eauto.
Qed.

(** ** C10: a side without a king *)

(** C10. On a well-formed position in which a side has no king, [find_king]
    returns [None] and [in_check] returns [False] for that side, neither
    raising; [legal_moves] for that side returns every pseudo-legal move of
    the side, none being filtered out, and [game_result] returns an outcome,
    which is never a checkmate of the kingless side. *)
Theorem kingless_side (b : Board) (turn_arg : option string) :
  let t := Py.or_str turn_arg (turn b) in
  well_formed b -> t <> "" -> kingless b t ->
  find_king b t = Ok None /\
  in_check b turn_arg = Ok false /\
  (exists legal,
      legal_moves b turn_arg = Ok legal /\ pseudo_moves b t = Ok legal) /\
  (exists (over : bool) (res reason : string) (winner : option string),
      game_result b = Ok (over, res, reason, winner) /\
      (turn_arg = None -> reason <> "Checkmate")).
Proof.
  intros t Hwf Ht Hk.
  destruct (kingless_not_in_check b (proj1 Hwf) t Hk) as [Hf Hc].
  split; [exact Hf|]. split; [apply Hc; reflexivity|]. split.
  - unfold legal_moves, pseudo_moves. fold t.
    apply legal_in_rows_kingless; try assumption. exact range8_bounds.
  - destruct (game_result_total b Hwf) as [[[[over res] reason] winner] E].
    exists over, res, reason, winner. split; [exact E|].
    intros ->. unfold game_result in E.
    destruct (legal_moves b None) as [legal|e]; [|discriminate].
    cbn [bind] in E. destruct legal as [|m legal].
    + rewrite (Hc None eq_refl) in E. cbn [bind] in E.
      injection E as _ _ <- _. discriminate.
    + destruct (100 <=? halfmove b); [injection E as _ _ <- _; discriminate|].
      destruct (3 <=? _); [injection E as _ _ <- _; discriminate|].
      destruct (_insufficient b) as [ins|e]; [|discriminate].
      cbn [bind] in E. destruct ins; injection E as _ _ <- _; discriminate.
Qed.

Lemma kingless_side_witness :
  let b := position_of_fen "4k3/8/8/8/8/8/P7/8 w - - 0 1" in
  find_king b "w" = Ok None /\
  in_check b None = Ok false /\
  (exists legal,
      legal_moves b None = Ok legal /\ pseudo_moves b "w" = Ok legal) /\
  (exists (over : bool) (res reason : string) (winner : option string),
      game_result b = Ok (over, res, reason, winner) /\
      (@None string = None -> reason <> "Checkmate")).
Proof.
  apply (kingless_side (position_of_fen "4k3/8/8/8/8/8/P7/8 w - - 0 1") None).
  - split.
    + split; [reflexivity|]. vm_compute. repeat constructor.
    + left. reflexivity.
  - vm_compute. discriminate.
  - vm_compute. repeat (constructor; try discriminate).
Defined.

(** ** C6: castling rights *)

Lemma existsb_eqb_In (f : ascii) (l : list ascii) :
  existsb (Ascii.eqb f) l = true <-> In f l.
Proof.
  rewrite existsb_exists. split.
  - intros [x [Hx E]]. apply Ascii.eqb_eq in E. subst. exact Hx.
  - intros H. exists f. split; [exact H | apply Ascii.eqb_refl].
Qed.

Lemma char_in_In (f : ascii) (s : string) :
  Py.char_in f s = true <-> In f (Py.chars s).
Proof. unfold Py.char_in. apply existsb_eqb_In. Qed.

Lemma remove_first_incl (x y : ascii) (l : list ascii) :
  In x (remove_first y l) -> In x l.
Proof.
  induction l as [|h t IH]; simpl; [tauto|].
  destruct (Ascii.eqb h y); simpl; tauto.
Qed.

Lemma remove_first_NoDup (y : ascii) (l : list ascii) :
  NoDup l -> NoDup (remove_first y l).
Proof.
  induction 1 as [|h t Hh Ht IH]; simpl; [constructor|].
  destruct (Ascii.eqb h y); [exact Ht|].
  constructor; [|exact IH]. intros C. apply Hh. eapply remove_first_incl. exact C.
Qed.

Lemma remove_first_gone (y : ascii) (l : list ascii) :
  NoDup l -> ~ In y (remove_first y l).
Proof.
  induction 1 as [|h t Hh Ht IH]; simpl; [tauto|].
  destruct (Ascii.eqb h y) eqn:E.
  - apply Ascii.eqb_eq in E. subst. exact Hh.
  - apply Ascii.eqb_neq in E. simpl. intros [C | C]; [contradiction | auto].
Qed.

Lemma drop_corner_flags_incl (r c : Z) (pairs : list (Z * Z * ascii)) :
  forall cas x, In x (drop_corner_flags r c pairs cas) -> In x cas.
Proof.
  induction pairs as [|[[rr rc] flag] pairs IH]; intros cas x H; simpl in H;
    [exact H|].
  apply IH in H. destruct (_ && _) in H; [|exact H].
  eapply remove_first_incl. exact H.
Qed.

Lemma drop_corner_flags_NoDup (r c : Z) (pairs : list (Z * Z * ascii)) :
  forall cas, NoDup cas -> NoDup (drop_corner_flags r c pairs cas).
Proof.
  induction pairs as [|[[rr rc] flag] pairs IH]; intros cas H; simpl;
    [exact H|].
  apply IH. destruct (_ && _); [apply remove_first_NoDup|]; exact H.
Qed.

(** Leaving or entering a corner drops the flag of that corner. *)
Lemma drop_corner_flags_gone (r c : Z) (flag : ascii)
  (pairs : list (Z * Z * ascii)) :
  In (r, c, flag) pairs ->
  forall cas, NoDup cas -> ~ In flag (drop_corner_flags r c pairs cas).
Proof.
  induction pairs as [|[[rr rc] fl] pairs IH]; intros Hin cas Hnd; [contradiction|].
  simpl. destruct Hin as [E | Hin].
  - injection E as -> -> ->. rewrite !Z.eqb_refl. simpl.
    intros C. apply drop_corner_flags_incl in C.
    destruct (existsb (Ascii.eqb flag) cas) eqn:X.
    + exact (remove_first_gone flag cas Hnd C).
    + apply existsb_eqb_In in C. rewrite C in X. discriminate.
  - apply IH; [exact Hin|].
    destruct (_ && _); [apply remove_first_NoDup|]; exact Hnd.
Qed.

Lemma chars_of_chars (l : list ascii) : Py.chars (Py.of_chars l) = l.
Proof. apply list_ascii_of_string_of_list_ascii. Qed.

(** The flags after a move, as a list. *)
Lemma update_castling_chars (cas turn : string) (p : ascii) (fr fc tr tc : Z) :
  exists cas3,
    cas3 = drop_corner_flags tr tc corner_pairs
             (if Ascii.eqb p "r"
              then drop_corner_flags fr fc corner_pairs
                     (if Ascii.eqb p "k"
                      then filter (fun x => negb (Py.char_in x
                                      (if String.eqb turn "w" then "KQ" else "kq")))
                             (filter (fun x => negb (Ascii.eqb x "-")) (Py.chars cas))
                      else filter (fun x => negb (Ascii.eqb x "-")) (Py.chars cas))
              else (if Ascii.eqb p "k"
                    then filter (fun x => negb (Py.char_in x
                                    (if String.eqb turn "w" then "KQ" else "kq")))
                           (filter (fun x => negb (Ascii.eqb x "-")) (Py.chars cas))
                    else filter (fun x => negb (Ascii.eqb x "-")) (Py.chars cas))) /\
    forall f, f <> "-"%char ->
              (Py.char_in f (update_castling cas turn p fr fc tr tc) = true
               <-> In f cas3).
Proof.
  eexists. split; [reflexivity|].
  intros f Hf. unfold update_castling.
  assert (Hcas : (if String.eqb cas "" then "" else cas) = cas).
  { destruct (String.eqb cas "") eqn:E; [|reflexivity].
    apply String.eqb_eq in E. symmetry. exact E. }
  rewrite Hcas.
  match goal with
  | |- Py.char_in f (match ?l with [] => _ | _ => _ end) = true <-> _ =>
      destruct l as [|x l'] eqn:El
  end.
  - rewrite char_in_In. simpl. split; [intros [C | []]; congruence | tauto].
  - rewrite char_in_In, chars_of_chars. tauto.
Qed.

(** A move never adds a castling flag. *)
Lemma update_castling_sub (cas turn : string) (p f : ascii) (fr fc tr tc : Z) :
  f <> "-"%char ->
  Py.char_in f (update_castling cas turn p fr fc tr tc) = true ->
  Py.char_in f cas = true.
Proof.
  intros Hf H.
  destruct (update_castling_chars cas turn p fr fc tr tc) as [cas3 [-> Hiff]].
  apply (Hiff f Hf) in H. apply char_in_In.
  apply drop_corner_flags_incl in H.
  destruct (Ascii.eqb p "r"); [apply drop_corner_flags_incl in H|];
    destruct (Ascii.eqb p "k");
    repeat (apply filter_In in H; destruct H as [H _]); exact H.
Qed.

Lemma update_castling_NoDup (cas turn : string) (p : ascii) (fr fc tr tc : Z) :
  NoDup (Py.chars cas) ->
  NoDup (Py.chars (update_castling cas turn p fr fc tr tc)).
Proof.
  intros Hnd. unfold update_castling.
  assert (Hcas : (if String.eqb cas "" then "" else cas) = cas).
  { destruct (String.eqb cas "") eqn:E; [|reflexivity].
    apply String.eqb_eq in E. symmetry. exact E. }
  rewrite Hcas.
  match goal with
  | |- NoDup (Py.chars (match ?l with [] => _ | _ => _ end)) =>
      assert (Hl : NoDup l); [|destruct l as [|x l'] eqn:El]
  end.
  - apply drop_corner_flags_NoDup.
    destruct (Ascii.eqb p "r"); [apply drop_corner_flags_NoDup|];
      destruct (Ascii.eqb p "k"); repeat apply NoDup_filter; exact Hnd.
  - simpl. repeat constructor. simpl. tauto.
  - rewrite chars_of_chars. exact Hl.
Qed.

Lemma king_move_drops_flags (cas turn : string) (f : ascii) (fr fc tr tc : Z) :
  In f (Py.chars (if String.eqb turn "w" then "KQ" else "kq")) ->
  Py.char_in f (update_castling cas turn "k" fr fc tr tc) = true -> False.
Proof.
  intros Hf H.
  assert (Hd : f <> "-"%char).
  { destruct (String.eqb turn "w"); simpl in Hf;
      destruct Hf as [<- | [<- | []]]; discriminate. }
  destruct (update_castling_chars cas turn "k" fr fc tr tc) as [cas3 [-> Hiff]].
  apply (Hiff f Hd) in H.
  change (Ascii.eqb "k" "r") with false in H.
  change (Ascii.eqb "k" "k") with true in H. cbv iota in H.
  apply drop_corner_flags_incl in H. apply filter_In in H.
  destruct H as [_ H]. apply negb_true_iff in H.
  apply char_in_In in Hf. rewrite Hf in H. discriminate.
Qed.

Lemma rook_move_drops_flag (cas turn : string) (f : ascii) (fr fc tr tc : Z) :
  NoDup (Py.chars cas) ->
  In (fr, fc, f) corner_pairs ->
  Py.char_in f (update_castling cas turn "r" fr fc tr tc) = true -> False.
Proof.
  intros Hnd Hf H.
  assert (Hd : f <> "-"%char).
  { simpl in Hf. destruct Hf as [E | [E | [E | [E | []]]]];
      injection E as _ _ <-; discriminate. }
  destruct (update_castling_chars cas turn "r" fr fc tr tc) as [cas3 [-> Hiff]].
  apply (Hiff f Hd) in H.
  change (Ascii.eqb "r" "r") with true in H.
  change (Ascii.eqb "r" "k") with false in H. cbv iota in H.
  apply drop_corner_flags_incl in H.
  revert H. apply drop_corner_flags_gone; [exact Hf|].
  apply NoDup_filter. exact Hnd.
Qed.

Lemma reachable_flags_NoDup (b : Board) :
  reachable b -> NoDup (Py.chars (castling b)).
Proof.
  induction 1 as [b Hinit | b uci [san cap] b' Hr IH Happ].
  - rewrite Board_init_start in Hinit. injection Hinit as <-.
    vm_compute. repeat constructor; simpl; intuition discriminate.
  - apply apply_uci_Ok in Happ.
    destruct Happ as (fr & fc & tr & tc & promo0 & promo & legal & new &
                      _ & _ & _ & _ & Hn & Hsame & _).
    apply apply_raw_Ok in Hn.
    destruct Hn as (piece & target & _ & _ & _ & Hcas & _).
    destruct Hsame as (_ & _ & -> & _). rewrite Hcas.
    apply update_castling_NoDup. exact IH.
Qed.

(** Castling rights are never regained. *)
Lemma flags_only_shrink (f : ascii) (b1 b2 : Board) :
  f <> "-"%char -> later b1 b2 -> has_flag f b2 -> has_flag f b1.
Proof.
  intros Hf. induction 1 as [b | b b1 b2 uci [san cap] Hl IH Happ]; [auto|].
  intros H2. apply IH. unfold has_flag in *.
  apply apply_uci_Ok in Happ.
  destruct Happ as (fr & fc & tr & tc & promo0 & promo & legal & new &
                    _ & _ & _ & _ & Hn & Hsame & _).
  apply apply_raw_Ok in Hn.
  destruct Hn as (piece & target & _ & _ & _ & Hcas & _).
  destruct Hsame as (_ & _ & Hc & _). rewrite Hc, Hcas in H2.
  eapply update_castling_sub; eassumption.
Qed.

Lemma side_of_king (s : string) :
  s = "w" \/ s = "b" ->
  Py.isupper (king_of s) = String.eqb s "w" /\
  Py.lower (king_of s) = "k"%char /\
  Py.isupper (rook_of s) = String.eqb s "w" /\
  Py.lower (rook_of s) = "r"%char.
Proof. intros [-> | ->]; repeat split; reflexivity. Qed.

(** A castling move among the legal moves needs the flag. *)
Lemma castling_offered_flag (b : Board) (s : string) (kingside : bool) :
  s = "w" \/ s = "b" ->
  castling_offered b s kingside -> has_flag (castling_flag s kingside) b.
Proof.
  intros Hs (legal & Hl & Hk & Hin).
  apply (legal_moves_In b (Some s) legal _ Hl) in Hin.
  assert (Ht : Py.or_str (Some s) (turn b) = s)
    by (destruct Hs as [-> | ->]; reflexivity).
  rewrite Ht in Hin. apply legal_move_shape in Hin.
  destruct Hin as (piece & _ & Hp & _ & _ & S).
  rewrite Hk in Hp. injection Hp as <-.
  unfold pseudo_shape in S.
  destruct S as (_ & _ & _ & _ & _ & S6 & S2).
  destruct (side_of_king s Hs) as (Hu & Hlow & _).
  unfold has_flag, castling_flag.
  rewrite Hu in S6, S2.
  destruct kingside; [apply S6 | apply S2]; try reflexivity; exact Hlow.
Qed.

Lemma later_play (ucis : list string) :
  forall b sans b', play ucis b = (Ok sans, b') -> later b b'.
Proof.
  assert (G : forall b0 b sans b',
             later b0 b -> play ucis b = (Ok sans, b') -> later b0 b').
  { induction ucis as [|u rest IH]; intros b0 b sans b' L H; simpl in H.
    - injection H as _ <-. exact L.
    - destruct (apply_uci u b) as [[[san cap]|e] b1] eqn:E; [|discriminate].
      destruct (play rest b1) as [[ss|e] b2] eqn:E2; [|discriminate].
      injection H as _ <-.
      eapply IH; [|exact E2]. eapply later_step; eassumption. }
  intros b sans b'. apply G. apply later_refl.
Qed.

(** C6. In a game, once the king of a side has moved, or its rook has moved
    off the home corner of a wing, no later position of the game carries the
    castling flag of that side and wing, and the castling move on that wing
    is not among the legal moves of that side. *)
Theorem castling_rights_are_lost (b b1 b2 : Board) (uci : string)
  (r : string * option ascii) (s : string) (kingside : bool) :
  reachable b ->
  s = "w" \/ s = "b" ->
  apply_uci uci b = (Ok r, b1) ->
  moves_king_or_rook b uci s kingside ->
  later b1 b2 ->
  ~ has_flag (castling_flag s kingside) b2 /\
  ~ castling_offered b2 s kingside.
Proof.
  intros Hreach Hs Happ Hmv Hlater.
  assert (Hflag : ~ has_flag (castling_flag s kingside) b1).
  { destruct r as [san cap]. apply apply_uci_Ok in Happ.
    destruct Happ as (fr & fc & tr & tc & promo0 & promo & legal & new &
                      Hp & Hl & Hin & _ & Hn & Hsame & _).
    destruct Hmv as (fr' & fc' & tr' & tc' & promo' & Hp' & Hpiece).
    rewrite Hp in Hp'. injection Hp' as <- <- <- <- <-.
    apply (legal_moves_In b None legal _ Hl) in Hin.
    change (Py.or_str None (turn b)) with (turn b) in Hin.
    apply legal_move_shape in Hin.
    destruct Hin as (piece & _ & Hc & _ & Hturn & _).
    apply apply_raw_Ok in Hn.
    destruct Hn as (piece' & target & Hc' & _ & _ & Hcas & _).
    rewrite Hc in Hc'. injection Hc' as <-.
    destruct Hsame as (_ & _ & Hsc & _).
    unfold has_flag. rewrite Hsc, Hcas.
    destruct (side_of_king s Hs) as (Hku & Hkl & Hru & Hrl).
    destruct Hpiece as [Hk | (Hrk & Hfr & Hfc)].
    - rewrite Hc in Hk. injection Hk as ->. rewrite Hkl.
      intros C. eapply king_move_drops_flags; [|exact C].
      rewrite Hturn, Hku. unfold castling_flag.
      destruct (String.eqb s "w"), kingside; simpl; tauto.
    - rewrite Hc in Hrk. injection Hrk as ->. rewrite Hrl.
      intros C. eapply rook_move_drops_flag; [| |exact C].
      + apply reachable_flags_NoDup. exact Hreach.
      + subst fr fc. unfold home_row, rook_file, castling_flag.
        destruct (String.eqb s "w"), kingside; simpl; tauto. }
  assert (Hd : castling_flag s kingside <> "-"%char).
  { unfold castling_flag. destruct (String.eqb s "w"), kingside; discriminate. }
  assert (H2 : ~ has_flag (castling_flag s kingside) b2).
  { intros C. apply Hflag. eapply flags_only_shrink; eassumption. }
  split; [exact H2|].
  intros C. apply H2. apply castling_offered_flag; assumption.
Qed.

(** After 1.e4 e5 2.Nf3 Nc6 3.Bc4 Bc5 4.Ke2 Ke7 5.Ke1 Ke8 the white king is
    back on e1 with f1 and g1 empty and the rook on h1, and White may not
    castle. *)
Lemma castling_rights_are_lost_witness :
  ~ has_flag "K"
      (position_after ["e2e4"; "e7e5"; "g1f3"; "b8c6"; "f1c4"; "f8c5";
                       "e1e2"; "e8e7"; "e2e1"; "e7e8"]) /\
  ~ castling_offered
      (position_after ["e2e4"; "e7e5"; "g1f3"; "b8c6"; "f1c4"; "f8c5";
                       "e1e2"; "e8e7"; "e2e1"; "e7e8"]) "w" true.
Proof.
  apply (castling_rights_are_lost
           (position_after ["e2e4"; "e7e5"; "g1f3"; "b8c6"; "f1c4"; "f8c5"])
           (position_after ["e2e4"; "e7e5"; "g1f3"; "b8c6"; "f1c4"; "f8c5";
                            "e1e2"])
           _ "e1e2" ("Ke2", None) "w" true).
  - apply (position_after_reachable _ ["e4"; "e5"; "Nf3"; "Nc6"; "Bc4"; "Bc5"]).
    vm_compute. reflexivity.
  - left. reflexivity.
  - vm_compute. reflexivity.
  - exists 7, 4, 6, 4, None. split; [reflexivity|]. left. vm_compute. reflexivity.
  - apply (later_play ["e8e7"; "e2e1"; "e7e8"] _ ["Ke7"; "Ke1"; "Ke8"]).
    vm_compute. reflexivity.
Defined.

(** ** Strings: split, join, strip, int and str *)

Lemma chars_app (s t : string) : Py.chars (s +++ t) = Py.chars s ++ Py.chars t.
Proof.
  induction s as [|c s IH]; simpl; [reflexivity|]. f_equal. exact IH.
Qed.

Lemma append_assoc (s t u : string) : (s +++ t) +++ u = s +++ t +++ u.
Proof.
  induction s as [|c s IH]; simpl; [reflexivity|]. f_equal. exact IH.
Qed.

Lemma token_nonspace_head (c : ascii) (s : string) :
  token (String c s) -> Py.isspace c = false /\ (s = "" \/ token s).
Proof.
  intros [_ H]. simpl in H. inversion H as [|x l Hc Hs]; subst.
  split; [exact Hc|]. destruct s as [|c' s']; [left; reflexivity|].
  right. split; [discriminate | exact Hs].
Qed.

(** [split()] cuts a token off the front of a text. *)
Lemma split_ws_token (w rest : string) :
  token w -> Py.split_ws (w +++ " " +++ rest) = w :: Py.split_ws rest.
Proof.
  induction w as [|c w IH]; intros Hw; [destruct Hw as [C _]; contradiction|].
  destruct (token_nonspace_head c w Hw) as [Hc [-> | Hw']].
  - simpl. rewrite Hc. reflexivity.
  - specialize (IH Hw'). destruct w as [|c' w']; [destruct Hw' as [C _]; contradiction|].
    destruct (token_nonspace_head c' w' Hw') as [Hc' _].
    change (Py.split_ws (String c (String c' w' +++ " " +++ rest))
            = String c (String c' w') :: Py.split_ws rest).
    cbn [Py.split_ws String.append]. rewrite Hc, Hc'.
    cbn [Py.split_ws String.append] in IH. rewrite Hc' in IH.
    rewrite IH. reflexivity.
Qed.

Lemma split_ws_last (w : string) : token w -> Py.split_ws w = [w].
Proof.
  induction w as [|c w IH]; intros Hw; [destruct Hw as [C _]; contradiction|].
  destruct (token_nonspace_head c w Hw) as [Hc [-> | Hw']].
  - simpl. rewrite Hc. reflexivity.
  - specialize (IH Hw'). destruct w as [|c' w']; [destruct Hw' as [C _]; contradiction|].
    destruct (token_nonspace_head c' w' Hw') as [Hc' _].
    cbn [Py.split_ws]. rewrite Hc, Hc'.
    cbn [Py.split_ws] in IH. rewrite Hc' in IH. rewrite IH. reflexivity.
Qed.

(** [split('/')] undoes [join]. *)
Lemma split_on_piece (sep : ascii) (w rest : string) :
  Forall (fun c => c <> sep) (Py.chars w) ->
  Py.split_on sep (w +++ String sep rest) = w :: Py.split_on sep rest.
Proof.
  induction w as [|c w IH]; intros H; simpl.
  - rewrite Ascii.eqb_refl. reflexivity.
  - simpl in H. inversion H as [|x l Hc Hw]; subst.
    apply Ascii.eqb_neq in Hc. rewrite Hc. rewrite (IH Hw). reflexivity.
Qed.

Lemma split_on_whole (sep : ascii) (w : string) :
  Forall (fun c => c <> sep) (Py.chars w) -> Py.split_on sep w = [w].
Proof.
  induction w as [|c w IH]; intros H; simpl; [reflexivity|].
  simpl in H. inversion H as [|x l Hc Hw]; subst.
  apply Ascii.eqb_neq in Hc. rewrite Hc. rewrite (IH Hw). reflexivity.
Qed.

Lemma split_on_join (sep : ascii) (l : list string) :
  l <> [] ->
  Forall (fun w => Forall (fun c => c <> sep) (Py.chars w)) l ->
  Py.split_on sep (Py.join (Py.str1 sep) l) = l.
Proof.
  intros Hne H. induction H as [|w l Hw Hl IH]; [contradiction|].
  destruct l as [|w' l'].
  - simpl. apply split_on_whole. exact Hw.
  - cbn [Py.join]. unfold Py.str1 at 1. cbn [String.append].
    rewrite (split_on_piece sep w _ Hw). f_equal. apply IH. discriminate.
Qed.

Lemma lstrip_nonspace (s : string) :
  Forall (fun c => Py.isspace c = false) (Py.chars s) -> Py.lstrip s = s.
Proof.
  destruct s as [|c s]; intros H; simpl; [reflexivity|].
  simpl in H. inversion H as [|x l Hc Hs]; subst. rewrite Hc. reflexivity.
Qed.

Lemma rstrip_nonspace (s : string) :
  Forall (fun c => Py.isspace c = false) (Py.chars s) -> Py.rstrip s = s.
Proof.
  induction s as [|c s IH]; intros H; simpl; [reflexivity|].
  simpl in H. inversion H as [|x l Hc Hs]; subst.
  rewrite (IH Hs). destruct s; [rewrite Hc|]; reflexivity.
Qed.

Lemma strip_nonspace (s : string) :
  Forall (fun c => Py.isspace c = false) (Py.chars s) -> Py.strip s = s.
Proof.
  intros H. unfold Py.strip. rewrite (lstrip_nonspace s H).
  apply rstrip_nonspace. exact H.
Qed.

Lemma digit_facts (c : ascii) :
  Py.isdigit c = true ->
  Py.isspace c = false /\ Ascii.eqb c "_" = false /\ c <> "-"%char /\
  c <> "+"%char /\ c <> "/"%char /\ c <> "."%char.
Proof.
  destruct c as [[] [] [] [] [] [] [] []]; intros H; try discriminate H;
    repeat split; try reflexivity; discriminate.
Qed.

Lemma uint_digits (d : Decimal.uint) :
  Forall (fun c => Py.isdigit c = true)
    (Py.chars (DecimalString.NilEmpty.string_of_uint d)).
Proof. induction d; simpl; constructor; auto. Qed.

Lemma strip_underscores_digits (s : string) :
  Forall (fun c => Py.isdigit c = true) (Py.chars s) ->
  Py.strip_underscores true s = Some s /\
  (s <> "" -> Py.strip_underscores false s = Some s).
Proof.
  induction s as [|c s IH]; intros H.
  - split; [reflexivity | intros C; contradiction].
  - simpl in H. inversion H as [|x l Hc Hs]; subst.
    destruct (IH Hs) as [IH1 _].
    destruct (digit_facts c Hc) as (_ & Hu & _).
    simpl. rewrite Hu, Hc, IH1. simpl. auto.
Qed.

(** [int(str(n)) == n] for [n >= 0]. *)
Lemma int_str (n : Z) : 0 <= n -> Py.int (Py.str n) = Ok n.
Proof.
  intros Hn. unfold Py.str.
  assert (Hd : exists d, Z.to_int n = Decimal.Pos d /\ d <> Decimal.Nil).
  { destruct n as [|p|p]; [eexists; split; [reflexivity | discriminate]| |lia].
    exists (Pos.to_uint p). split; [reflexivity|].
    intros C. pose proof (DecimalPos.Unsigned.of_to p) as O.
    rewrite C in O. discriminate O. }
  destruct Hd as [d [Ed Hnil]].
  pose proof (DecimalZ.of_to n) as Hz. rewrite Ed in *. simpl in Hz.
  unfold DecimalString.NilZero.string_of_int.
  assert (Hs : DecimalString.NilZero.string_of_uint d
               = DecimalString.NilEmpty.string_of_uint d)
    by (destruct d; [contradiction|..]; reflexivity).
  pose proof (DecimalString.NilZero.usu d Hnil) as Hu. rewrite Hs in *.
  pose proof (uint_digits d) as Hdig.
  set (s := DecimalString.NilEmpty.string_of_uint d) in *.
  assert (Hne : s <> "") by (subst s; destruct d; [contradiction|..]; discriminate).
  assert (Hsp : Forall (fun c => Py.isspace c = false) (Py.chars s)).
  { eapply Forall_impl; [|exact Hdig]. intros c Hc. apply (digit_facts c Hc). }
  unfold Py.int. rewrite (strip_nonspace s Hsp).
  destruct (strip_underscores_digits s Hdig) as [_ Hsu]. specialize (Hsu Hne).
  destruct s as [|c s'] eqn:Es; [contradiction|].
  assert (Hc : Py.isdigit c = true) by (simpl in Hdig; inversion Hdig; assumption).
  assert (Hv : Py.digits_value (String c s') = Some n).
  { unfold Py.digits_value. rewrite Hc, Hsu, Hu. simpl. f_equal. exact Hz. }
  destruct (digit_facts c Hc) as (_ & _ & Hm & Hp & _).
  destruct c as [[] [] [] [] [] [] [] []]; try discriminate Hc;
    rewrite Hv; reflexivity.
Qed.

Lemma str_token (n : Z) : 0 <= n -> token (Py.str n).
Proof.
  intros Hn. split; [apply str_nonempty|].
  unfold Py.str. destruct n as [|p|p]; [simpl; repeat constructor | | lia].
  simpl. unfold DecimalString.NilZero.string_of_uint.
  pose proof (uint_digits (Pos.to_uint p)) as Hd.
  assert (Hs : Forall (fun c => Py.isspace c = false)
                 (Py.chars (DecimalString.NilEmpty.string_of_uint (Pos.to_uint p)))).
  { eapply Forall_impl; [|exact Hd]. intros c Hc. apply (digit_facts c Hc). }
  destruct (Pos.to_uint p); [simpl; repeat constructor | exact Hs ..].
Qed.

(** ** Rows of the piece-placement field *)

Lemma load_row_app (l1 l2 a c : list ascii) :
  load_row l1 = Ok a -> load_row l2 = Ok c -> load_row (l1 ++ l2) = Ok (a ++ c).
Proof.
  revert a. induction l1 as [|ch l1 IH]; intros a H1 H2; simpl in *.
  - injection H1 as <-. exact H2.
  - bind_inv H1. bind_inv H1. injection H1 as <-.
    rewrite E. cbn [bind]. rewrite (IH v0 E0 H2). cbn [bind].
    rewrite app_assoc. reflexivity.
Qed.

Lemma load_row_run (e : Z) :
  1 <= e <= 9 ->
  load_row (Py.chars (Py.str e)) = Ok (repeat "."%char (Z.to_nat e)).
Proof.
  intros H.
  assert (C : e = 1 \/ e = 2 \/ e = 3 \/ e = 4 \/ e = 5 \/ e = 6 \/ e = 7 \/
              e = 8 \/ e = 9) by lia.
  repeat (destruct C as [-> | C]; [reflexivity|]). subst. reflexivity.
Qed.

Lemma piece_or_empty_cases (x : ascii) :
  piece_or_empty x ->
  Py.isdigit x = false /\ Py.isspace x = false /\ x <> "/"%char.
Proof.
  unfold piece_or_empty. intros H. apply char_in_In in H. simpl in H.
  repeat (destruct H as [<- | H]; [repeat split; (reflexivity || discriminate)|]).
  contradiction.
Qed.

Lemma load_row_cell (x : ascii) :
  piece_or_empty x -> load_row [x] = Ok [x].
Proof.
  intros H. destruct (piece_or_empty_cases x H) as (Hd & _).
  simpl. rewrite Hd. reflexivity.
Qed.

Lemma repeat_snoc {A} (x : A) (n : nat) : repeat x (S n) = repeat x n ++ [x].
Proof. induction n as [|n IH]; simpl in *; [reflexivity | f_equal; exact IH]. Qed.

(** Reading back what [to_fen] wrote for a row. *)
Lemma load_fen_row (cells : list ascii) :
  forall (e : Z) (s : string) (pre : list ascii),
    load_row (Py.chars s) = Ok pre ->
    0 <= e -> e + Z.of_nat (List.length cells) <= 9 ->
    Forall piece_or_empty cells ->
    load_row (Py.chars (fen_row cells e s))
    = Ok (pre ++ repeat "."%char (Z.to_nat e) ++ cells).
Proof.
  induction cells as [|x cells IH]; intros e s pre Hs He Hlen Hc.
  - simpl in *. rewrite app_nil_r.
    destruct (e =? 0) eqn:E0.
    + apply Z.eqb_eq in E0. subst e. simpl. rewrite app_nil_r. exact Hs.
    + apply Z.eqb_neq in E0. rewrite chars_app.
      apply load_row_app; [exact Hs | apply load_row_run; lia].
  - inversion Hc as [|y l Hx Hrest]; subst.
    cbn [fen_row]. cbn [List.length] in Hlen.
    destruct (Ascii.eqb x ".") eqn:Ex.
    + apply Ascii.eqb_eq in Ex. subst x.
      rewrite (IH (e + 1) s pre Hs); [|lia|lia|exact Hrest].
      replace (Z.to_nat (e + 1)) with (S (Z.to_nat e)) by lia.
      rewrite repeat_snoc, <- app_assoc. reflexivity.
    + set (s1 := if e =? 0 then s else s +++ Py.str e).
      assert (H1 : load_row (Py.chars s1)
                   = Ok (pre ++ repeat "."%char (Z.to_nat e))).
      { subst s1. destruct (e =? 0) eqn:E0.
        - apply Z.eqb_eq in E0. subst e. simpl. rewrite app_nil_r. exact Hs.
        - apply Z.eqb_neq in E0. rewrite chars_app.
          apply load_row_app; [exact Hs | apply load_row_run; lia]. }
      rewrite (IH 0 (s1 +++ Py.str1 x) ((pre ++ repeat "."%char (Z.to_nat e)) ++ [x]));
        [| | lia | lia | exact Hrest].
      * simpl. rewrite <- !app_assoc. reflexivity.
      * rewrite chars_app. apply load_row_app; [exact H1|].
        apply load_row_cell. exact Hx.
Qed.

Lemma str_digits (n : Z) :
  0 <= n -> Forall (fun c => Py.isdigit c = true) (Py.chars (Py.str n)).
Proof.
  intros Hn. unfold Py.str.
  destruct n as [|p|p]; [simpl; repeat constructor | | lia].
  simpl. unfold DecimalString.NilZero.string_of_uint.
  pose proof (uint_digits (Pos.to_uint p)) as Hd.
  destruct (Pos.to_uint p); [simpl; repeat constructor | exact Hd ..].
Qed.

(** A character of the piece-placement field. *)
Lemma fen_row_chars (cells : list ascii) :
  forall (e : Z) (s : string),
    0 <= e ->
    Forall piece_or_empty cells ->
    Forall (fun c => Py.isspace c = false /\ c <> "/"%char) (Py.chars s) ->
    Forall (fun c => Py.isspace c = false /\ c <> "/"%char)
      (Py.chars (fen_row cells e s)).
Proof.
  assert (Hstr : forall e s,
             0 <= e ->
             Forall (fun c => Py.isspace c = false /\ c <> "/"%char) (Py.chars s) ->
             Forall (fun c => Py.isspace c = false /\ c <> "/"%char)
               (Py.chars (if e =? 0 then s else s +++ Py.str e))).
  { intros e s He Hs. destruct (e =? 0); [exact Hs|].
    rewrite chars_app. apply Forall_app. split; [exact Hs|].
    eapply Forall_impl; [|apply str_digits; exact He].
    intros c Hc. destruct (digit_facts c Hc) as (H1 & _ & _ & _ & H2 & _). auto. }
  induction cells as [|x cells IH]; intros e s He Hc Hs; cbn [fen_row].
  - apply Hstr; assumption.
  - inversion Hc as [|y l Hx Hrest]; subst.
    destruct (Ascii.eqb x "."); [apply IH; try assumption; lia|].
    apply IH; [lia | exact Hrest|].
    rewrite chars_app. apply Forall_app. split; [apply Hstr; assumption|].
    simpl. constructor; [|constructor].
    destruct (piece_or_empty_cases x Hx) as (_ & H1 & H2). auto.
Qed.

Lemma load_fen_rows (rows : list (list ascii)) :
  Forall (fun row => List.length row = 8%nat) rows ->
  all_cells piece_or_empty rows ->
  load_rows (map (fun row => fen_row row 0 "") rows) = Ok rows.
Proof.
  unfold all_cells. intros Hl Hc.
  induction rows as [|row rows IH]; [reflexivity|].
  inversion Hl as [|r l Hrow Hrows]; subst.
  inversion Hc as [|r l Hcrow Hcrows]; subst.
  cbn [map load_rows].
  rewrite (load_fen_row row 0 "" [] eq_refl); [|lia|rewrite Hrow; lia|exact Hcrow].
  cbn [bind]. rewrite (IH Hrows Hcrows). reflexivity.
Qed.

Lemma append_nonempty_r (s t : string) : t <> "" -> s +++ t <> "".
Proof.
  intros Ht C. destruct s; simpl in C; [contradiction | discriminate].
Qed.

Lemma join_chars (P : ascii -> Prop) (sep : string) (l : list string) :
  Forall P (Py.chars sep) ->
  Forall (fun w => Forall P (Py.chars w)) l ->
  Forall P (Py.chars (Py.join sep l)).
Proof.
  intros Hsep H. induction H as [|w l Hw Hl IH]; [constructor|].
  destruct l as [|w' l']; [exact Hw|].
  cbn [Py.join]. rewrite !chars_app.
  apply Forall_app. split; [exact Hw|].
  apply Forall_app. split; [exact Hsep | exact IH].
Qed.

(** ** Loading what [to_fen] wrote *)

Lemma placement_token (g : list (list ascii)) :
  shape8 g -> all_cells piece_or_empty g ->
  token (Py.join "/" (map (fun row => fen_row row 0 "") g)) /\
  Py.split_on "/" (Py.join "/" (map (fun row => fen_row row 0 "") g))
  = map (fun row => fen_row row 0 "") g.
Proof.
  intros [Hlen Hrows] Hcells.
  assert (Hchars : Forall (fun w => Forall (fun c => Py.isspace c = false
                                                     /\ c <> "/"%char)
                                      (Py.chars w))
                     (map (fun row => fen_row row 0 "") g)).
  { apply Forall_map. unfold all_cells in Hcells.
    eapply Forall_impl; [|exact Hcells].
    intros row Hrow. apply fen_row_chars; [lia | exact Hrow | constructor]. }
  split; [split|].
  - destruct g as [|r1 [|r2 g']]; [discriminate Hlen | discriminate Hlen|].
    cbn [map Py.join]. apply append_nonempty_r. discriminate.
  - apply join_chars; [repeat constructor|].
    eapply Forall_impl; [|exact Hchars].
    intros w Hw. eapply Forall_impl; [|exact Hw]. intros c [Hc _]. exact Hc.
  - apply (split_on_join "/"%char).
    + destruct g; [discriminate Hlen | discriminate].
    + eapply Forall_impl; [|exact Hchars].
      intros w Hw. eapply Forall_impl; [|exact Hw]. intros c [_ Hc]. exact Hc.
Qed.

(** Loading the serialization of [p] into any board [q] gives [q] the six
    position fields of [p]. *)
Lemma load_to_fen (p q : Board) :
  fen_wf p -> _load_fen q (to_fen p) = Ok (with_position_of q p).
Proof.
  intros (Hshape & Hcells & Hturn & Hcas & Hep & Hh & Hf & _).
  destruct (placement_token (board p) Hshape Hcells) as [HR Hsplit].
  assert (HT : token (turn p)).
  { destruct Hturn as [-> | ->]; split; try discriminate; repeat constructor. }
  unfold to_fen.
  assert (HC : (if String.eqb (castling p) "" then "-" else castling p)
               = castling p).
  { destruct (String.eqb (castling p) "") eqn:E; [|reflexivity].
    apply String.eqb_eq in E. destruct Hcas as [C _]. contradiction. }
  rewrite HC.
  set (R := Py.join "/" (map (fun row => fen_row row 0 "") (board p))) in *.
  pose proof (str_token (halfmove p) Hh) as HH.
  pose proof (str_token (fullmove p) Hf) as HF.
  pose proof (int_str (halfmove p) Hh) as IH.
  pose proof (int_str (fullmove p) Hf) as IF.
  set (H := Py.str (halfmove p)) in *.
  set (F := Py.str (fullmove p)) in *.
  unfold _load_fen.
  rewrite (split_ws_token R _ HR), (split_ws_token (turn p) _ HT),
    (split_ws_token (castling p) _ Hcas), (split_ws_token (ep p) _ Hep),
    (split_ws_token H _ HH), (split_ws_last F HF).
  change (Py.index [R; turn p; castling p; ep p; H; F] 0) with (Ok (A := string) R).
  cbn [bind]. rewrite Hsplit.
  rewrite (load_fen_rows (board p) (proj2 Hshape) Hcells). cbn [bind].
  change (Z.of_nat (List.length [R; turn p; castling p; ep p; H; F])) with 6.
  change (Py.index [R; turn p; castling p; ep p; H; F] 1)
    with (Ok (A := string) (turn p)).
  change (Py.index [R; turn p; castling p; ep p; H; F] 2)
    with (Ok (A := string) (castling p)).
  change (Py.index [R; turn p; castling p; ep p; H; F] 3)
    with (Ok (A := string) (ep p)).
  change (Py.index [R; turn p; castling p; ep p; H; F] 4)
    with (Ok (A := string) H).
  change (Py.index [R; turn p; castling p; ep p; H; F] 5)
    with (Ok (A := string) F).
  cbn [Z.ltb Z.compare Pos.compare Pos.compare_cont bind].
  rewrite IH, IF. reflexivity.
Qed.

(** ** The positions of a game satisfy the invariant of the codec *)

Lemma start_fen_wf : fen_wf start_position.
Proof.
  repeat split; try (vm_compute; repeat constructor; fail);
    try discriminate; try (left; reflexivity); vm_compute; discriminate.
Qed.

Lemma update_castling_token (cas turn : string) (p : ascii) (fr fc tr tc : Z) :
  token cas -> token (update_castling cas turn p fr fc tr tc).
Proof.
  intros [_ Hsp].
  assert (Hin : forall f cas3,
             cas3 = drop_corner_flags tr tc corner_pairs
                      (if Ascii.eqb p "r"
                       then drop_corner_flags fr fc corner_pairs
                              (if Ascii.eqb p "k"
                               then filter (fun x => negb (Py.char_in x
                                               (if String.eqb turn "w" then "KQ" else "kq")))
                                      (filter (fun x => negb (Ascii.eqb x "-")) (Py.chars cas))
                               else filter (fun x => negb (Ascii.eqb x "-")) (Py.chars cas))
                       else (if Ascii.eqb p "k"
                             then filter (fun x => negb (Py.char_in x
                                             (if String.eqb turn "w" then "KQ" else "kq")))
                                    (filter (fun x => negb (Ascii.eqb x "-")) (Py.chars cas))
                             else filter (fun x => negb (Ascii.eqb x "-")) (Py.chars cas))) ->
             In f cas3 -> In f (Py.chars cas)).
  { intros f cas3 -> H. apply drop_corner_flags_incl in H.
    destruct (Ascii.eqb p "r"); [apply drop_corner_flags_incl in H|];
      destruct (Ascii.eqb p "k");
      repeat (apply filter_In in H; destruct H as [H _]); exact H. }
  unfold update_castling.
  assert (Hcas : (if String.eqb cas "" then "" else cas) = cas).
  { destruct (String.eqb cas "") eqn:E; [|reflexivity].
    apply String.eqb_eq in E. symmetry. exact E. }
  rewrite Hcas.
  match goal with
  | |- token (match ?l with [] => _ | _ => _ end) =>
      pose proof (fun f => Hin f l eq_refl) as Hl; destruct l as [|x l']
  end.
  - split; [discriminate | repeat constructor].
  - split; [discriminate|]. rewrite chars_of_chars.
    apply Forall_forall. intros f Hf.
    rewrite Forall_forall in Hsp. apply Hsp. apply Hl. exact Hf.
Qed.

Lemma file_letter_token (c : Z) (f : ascii) :
  0 <= c < 8 -> Py.chr (Py.ord "a" + c) = Ok f -> Py.isspace f = false.
Proof.
  intros H E.
  assert (C : c = 0 \/ c = 1 \/ c = 2 \/ c = 3 \/ c = 4 \/ c = 5 \/ c = 6 \/ c = 7)
    by lia.
  repeat (destruct C as [-> | C]; [injection E as <-; reflexivity|]).
  subst. injection E as <-. reflexivity.
Qed.

(** A successful [apply_uci] keeps the invariant. *)
Lemma apply_uci_fen_wf (b b' : Board) (uci : string) (r : string * option ascii) :
  fen_wf b -> apply_uci uci b = (Ok r, b') -> fen_wf b'.
Proof.
  intros (Hshape & Hcells & Hturn & Hcas & Hep & Hh & Hf & _) Happ.
  destruct r as [san cap]. apply apply_uci_Ok in Happ.
  destruct Happ as (fr & fc & tr & tc & promo0 & promo & legal & new &
                    _ & Hl & Hin & _ & Hn & Hsame & Hcache & _).
  apply (legal_moves_In b None legal _ Hl) in Hin.
  change (Py.or_str None (turn b)) with (turn b) in Hin.
  apply legal_move_shape in Hin.
  destruct Hin as (piece & Vf & Hc & _ & Hside & S).
  unfold pseudo_shape in S. destruct S as (_ & _ & Vt & Hpromo & Hdbl & _).
  pose proof (apply_raw_shape _ _ _ Hn Hshape) as Hshape'.
  assert (Hcells' : all_cells piece_or_empty (board new)).
  { eapply apply_raw_all_cells; [exact Hn | exact Hcells | reflexivity | |].
    - destruct (String.eqb (turn b) "w"); reflexivity.
    - destruct promo as [pp|].
      + destruct Hpromo as [_ Hpp]. simpl in Hpp.
        destruct Hpp as [<- | [<- | [<- | [<- | []]]]];
          destruct (String.eqb (turn b) "w"); reflexivity.
      + destruct (String.eqb (turn b) "w"); reflexivity. }
  apply apply_raw_Ok in Hn.
  destruct Hn as (piece' & target & Hc' & _ & Hep' & Hcas' & Hturn' & Hh' & Hf' & _).
  rewrite Hc in Hc'. injection Hc' as <-.
  destruct Hsame as (E1 & E2 & E3 & E4 & E5 & E6).
  unfold fen_wf. rewrite E1, E2, E3, E4, E5, E6.
  split; [exact Hshape'|]. split; [exact Hcells'|].
  split; [rewrite Hturn'; destruct (String.eqb (turn b) "w"); auto|].
  split; [rewrite Hcas'; apply update_castling_token; exact Hcas|].
  split.
  - destruct (two_square_pawn_advance piece fr tr) eqn:T.
    + unfold two_square_pawn_advance in T. apply andb_prop in T.
      destruct T as [Tp Ta]. apply Ascii.eqb_eq in Tp. apply Z.eqb_eq in Ta.
      destruct (Hdbl Tp Ta) as [Hfr Htr].
      unfold square_name in Hep'. bind_inv Hep'. injection Hep' as <-.
      apply valid_range in Vf.
      pose proof (file_letter_token fc v (proj2 Vf) E) as Hv.
      assert (Hs : Forall (fun c => Py.isspace c = false)
                     (Py.chars (Py.str (8 - (fr + tr) / 2)))).
      { rewrite Hfr, Htr.
        destruct (Py.isupper piece); vm_compute; repeat constructor. }
      unfold token. split; [intros C; discriminate C|].
      change (Forall (fun c => Py.isspace c = false)
                (v :: Py.chars (Py.str (8 - (fr + tr) / 2)))).
      constructor; assumption.
    + rewrite Hep'. split; [discriminate | repeat constructor].
  - split; [rewrite Hh'; destruct (_ || _); lia|].
    split; [rewrite Hf'; destruct (String.eqb (turn b) "b"); lia | exact Hcache].
Qed.

Lemma reachable_fen_wf (b : Board) : reachable b -> fen_wf b.
Proof.
  induction 1 as [b Hinit | b uci r b' Hr IH Happ].
  - rewrite Board_init_start in Hinit. injection Hinit as <-. exact start_fen_wf.
  - eapply apply_uci_fen_wf; eassumption.
Qed.

(** ** C4: the FEN round trip *)




(** ** C5: the en-passant target *)

(** A target that is set names a square of the third rank after a move of
    White and of the sixth rank after a move of Black. *)
Lemma target_rank (self self' : Board) (uci : string) (r : string * option ascii) :
  apply_uci uci self = (Ok r, self') ->
  turn self' = (if String.eqb (turn self) "w" then "b" else "w") /\
  (ep self' <> "-" ->
   exists f, ep self' = Py.str1 f +++ (if String.eqb (turn self) "w" then "3" else "6")).
Proof.
  intros H. destruct r as [san cap]. apply apply_uci_Ok in H.
  destruct H as (fr & fc & tr & tc & promo0 & promo & legal & new &
                 _ & Hl & Hin & _ & Hn & Hsame & _).
  apply (legal_moves_In self None legal _ Hl) in Hin.
  change (Py.or_str None (turn self)) with (turn self) in Hin.
  apply legal_move_shape in Hin.
  destruct Hin as (piece & _ & Hc & _ & Hside & S).
  unfold pseudo_shape in S. destruct S as (_ & _ & _ & _ & Hdbl & _).
  apply apply_raw_Ok in Hn.
  destruct Hn as (piece' & target & Hc' & _ & Hep & _ & Hturn & _).
  rewrite Hc in Hc'. injection Hc' as <-.
  destruct Hsame as (_ & E2 & _ & E4 & _). rewrite E2, E4.
  split; [exact Hturn|].
  intros Hset.
  destruct (two_square_pawn_advance piece fr tr) eqn:T; [|contradiction].
  unfold two_square_pawn_advance in T. apply andb_prop in T.
  destruct T as [Tp Ta]. apply Ascii.eqb_eq in Tp. apply Z.eqb_eq in Ta.
  destruct (Hdbl Tp Ta) as [Hfr Htr].
  unfold square_name in Hep. bind_inv Hep. injection Hep as <-.
  exists v. rewrite Hside, Hfr, Htr.
  destruct (Py.isupper piece); reflexivity.
Qed.

(** C5. After an applied move the en-passant target is the name of the
    square passed over when the move was a two-square pawn advance and ['-']
    otherwise; it is taken from that move alone, and a target that is set is
    gone after the following move, whatever that move is (a two-square pawn
    advance sets its own, different target).  After 1.e4 it is [e3]; after
    1.e4 e5 2.Nf3 Nc6 it is ['-']. *)
Theorem en_passant_target :
  (forall (self self' : Board) (uci san : string) (cap : option ascii),
      apply_uci uci self = (Ok (san, cap), self') ->
      exists fr fc tr tc promo piece,
        parse_uci uci = Ok (fr, fc, tr, tc, promo) /\
        cell self fr fc = Ok piece /\
        (if two_square_pawn_advance piece fr tr
         then square_name ((fr + tr) / 2) fc = Ok (ep self')
         else ep self' = "-") /\
        (ep self' <> "-" <-> two_square_pawn_advance piece fr tr = true)) /\
  (forall (self self1 self2 : Board) (uci1 uci2 : string)
          (r1 r2 : string * option ascii),
      apply_uci uci1 self = (Ok r1, self1) ->
      apply_uci uci2 self1 = (Ok r2, self2) ->
      ep self1 <> "-" -> ep self2 <> ep self1) /\
  ep (position_after ["e2e4"]) = "e3" /\
  ep (position_after ["e2e4"; "e7e5"]) = "e6" /\
  ep (position_after ["e2e4"; "e7e5"; "g1f3"; "b8c6"]) = "-".
Proof.
  split; [|split; [|repeat split; vm_compute; reflexivity]].
  - intros self self' uci san cap H.
    apply apply_uci_Ok in H.
    destruct H as (fr & fc & tr & tc & promo0 & promo & legal & new &
                   Hp & Hl & Hin & Hor & Hn & Hsame & _).
    apply apply_raw_Ok in Hn.
    destruct Hn as (piece & target & Hpiece & _ & Hep & _).
    destruct Hsame as (_ & _ & _ & Heq & _). rewrite <- Heq in Hep.
    exists fr, fc, tr, tc, promo0, piece.
    repeat (split; [assumption|]).
    destruct (two_square_pawn_advance piece fr tr).
    + split; [reflexivity|]. intros _. exact (square_name_not_dash _ _ _ Hep).
    + split; [intros C; contradiction | discriminate].
  - intros self self1 self2 uci1 uci2 r1 r2 H1 H2 Hset.
    destruct (target_rank _ _ _ _ H1) as [Ht1 He1].
    destruct (target_rank _ _ _ _ H2) as [_ He2].
    destruct (He1 Hset) as [f1 E1].
    destruct (String.eqb (ep self2) "-") eqn:D.
    + apply String.eqb_eq in D. rewrite D. intros C. apply Hset. symmetry. exact C.
    + apply String.eqb_neq in D. destruct (He2 D) as [f2 E2].
      rewrite E1, E2, Ht1.
      destruct (String.eqb (turn self) "w"); simpl; intros C;
        injection C as _ C; discriminate C.
Qed.

Lemma en_passant_target_witness :
  (exists fr fc tr tc promo piece,
      parse_uci "e2e4" = Ok (fr, fc, tr, tc, promo) /\
      cell start_position fr fc = Ok piece /\
      (if two_square_pawn_advance piece fr tr
       then square_name ((fr + tr) / 2) fc = Ok (ep (position_after ["e2e4"]))
       else ep (position_after ["e2e4"]) = "-") /\
      (ep (position_after ["e2e4"]) <> "-"
       <-> two_square_pawn_advance piece fr tr = true)) /\
  ep (position_after ["e2e4"; "g8f6"]) <> ep (position_after ["e2e4"]).
Proof.
  split.
  - apply (proj1 en_passant_target start_position (position_after ["e2e4"])
             "e2e4" "e4" None).
    vm_compute. reflexivity.
  - apply (proj1 (proj2 en_passant_target) start_position
             (position_after ["e2e4"]) (position_after ["e2e4"; "g8f6"])
             "e2e4" "g8f6" ("e4", None) ("Nf6", None));
      [vm_compute; reflexivity | vm_compute; reflexivity | vm_compute; discriminate].
Defined.

(** ** Rating tiers *)

(** X1. [get_tier] always returns the label and colour of a row of
    [RANK_TIERS]; for a rating of 0 or more it is the row with the highest
    threshold that the rating reaches, and a negative rating, which reaches
    no row, gets the fallback pair, the same as the lowest row. *)
Theorem get_tier_highest (rating : Z) :
  exists threshold,
    In (threshold, fst (get_tier rating), snd (get_tier rating)) RANK_TIERS /\
    (0 <= rating ->
     threshold <= rating /\
     forall th label color,
       In (th, label, color) RANK_TIERS -> th <= rating -> th <= threshold) /\
    (rating < 0 -> get_tier rating = get_tier 0).
Proof.
  unfold get_tier, RANK_TIERS. cbn [first_tier].
  repeat match goal with
         | |- context [?t <=? rating] =>
             let E := fresh "E" in
             destruct (Z.leb_spec t rating) as [E|E]
         end;
    cbn [fst snd];
    (eexists; split;
     [ simpl; auto 12
     | split;
       [ intros Hr; split; [lia|];
         intros th label color Hin Hle; simpl in Hin;
         repeat (destruct Hin as [Hin|Hin];
                 [injection Hin as <- _ _; lia|]);
         contradiction
       | intros Hr; try lia; reflexivity ] ]).
Qed.

Lemma get_tier_highest_witness :
  exists threshold,
    In (threshold, fst (get_tier 2450), snd (get_tier 2450)) RANK_TIERS /\
    threshold <= 2450 /\
    forall th label color,
      In (th, label, color) RANK_TIERS -> th <= 2450 -> th <= threshold.
Proof.
  destruct (get_tier_highest 2450) as [threshold [Hin [H _]]].
  exists threshold. split; [exact Hin|]. apply H. lia.
Defined.

(** ** Move quality *)

(** X2. [classify_move_quality] gives no label exactly when an evaluation
    is missing.  Otherwise the label depends only on what the mover lost:
    swapping the two evaluations together with the mover gives the same
    label, every label is a key of [QUALITY_COLORS], and for a move of White
    a lower evaluation after the move never gives a label that ranks better
    (an earlier key). *)
Theorem classify_move_quality_by_loss :
  (forall cp_before cp_after w,
      classify_move_quality cp_before cp_after w = None <->
      cp_before = None \/ cp_after = None) /\
  (forall x y,
      classify_move_quality (Some x) (Some y) true
      = classify_move_quality (Some y) (Some x) false) /\
  (forall x y w, exists i,
      quality_index (classify_move_quality (Some x) (Some y) w) = Some i) /\
  (forall x y y' i i',
      y' <= y ->
      quality_index (classify_move_quality (Some x) (Some y) true) = Some i ->
      quality_index (classify_move_quality (Some x) (Some y') true) = Some i' ->
      (i <= i')%nat).
Proof.
  split; [|split; [|split]].
  - intros [x|] [y|] w; simpl; split; intros H;
      try discriminate; auto; destruct H; discriminate.
  - intros x y. reflexivity.
  - intros x y w. unfold classify_move_quality, quality_index.
    repeat match goal with
           | |- context [?a <=? ?b] => destruct (a <=? b)
           end; simpl; eauto.
  - intros x y y' i i' Hle. unfold classify_move_quality, quality_index.
    repeat match goal with
           | |- context [?a <=? ?b] => destruct (Z.leb_spec a b)
           end; simpl; intros Hq Hq'; injection Hq as <-; injection Hq' as <-;
      lia.
Qed.

Lemma classify_move_quality_by_loss_witness :
  classify_move_quality (Some 30) (Some 35) true = Some "Best" /\
  classify_move_quality (Some 30) (Some (-80)) true = Some "Blunder" /\
  (1 <= 6)%nat.
Proof.
  split; [reflexivity|]. split; [reflexivity|].
  apply (proj2 (proj2 (proj2 classify_move_quality_by_loss)) 30 35 (-80) 1%nat 6%nat);
    [lia | reflexivity | reflexivity].
Defined.

(** ** Engine names *)

Lemma string_length_app (p s : string) :
  String.length (p +++ s) = (String.length p + String.length s)%nat.
Proof. induction p as [|c p IH]; simpl; [reflexivity | rewrite IH; reflexivity]. Qed.

Lemma substring_whole (s : string) : String.substring 0 (String.length s) s = s.
Proof. induction s as [|c s IH]; simpl; [reflexivity | rewrite IH; reflexivity]. Qed.

Lemma substring_app_l (p s : string) :
  String.substring 0 (String.length p) (p +++ s) = p.
Proof.
  induction p as [|c p IH]; simpl; [destruct s; reflexivity | rewrite IH; reflexivity].
Qed.

Lemma substring_app_r (p s : string) :
  String.substring (String.length p) (String.length s) (p +++ s) = s.
Proof.
  induction p as [|c p IH]; simpl; [apply substring_whole | exact IH].
Qed.

Lemma substring_split (s : string) (m : nat) :
  (m <= String.length s)%nat ->
  s = String.substring 0 m s +++ String.substring m (String.length s - m) s.
Proof.
  revert m. induction s as [|c s IH]; intros m Hm.
  - destruct m; reflexivity.
  - destruct m as [|m].
    + simpl. rewrite substring_whole. reflexivity.
    + simpl in Hm. cbn [String.substring String.length Nat.sub String.append].
      f_equal. apply IH. lia.
Qed.

Lemma endswith_app (p s : string) : Py.endswith (p +++ s) s = true.
Proof.
  unfold Py.endswith. rewrite string_length_app.
  replace (String.length p + String.length s - String.length s)%nat
    with (String.length p) by lia.
  rewrite substring_app_r, String.eqb_refl.
  rewrite andb_true_r. apply Nat.leb_le. lia.
Qed.

Lemma endswith_inv (s suf : string) :
  Py.endswith s suf = true -> exists p, s = p +++ suf.
Proof.
  unfold Py.endswith. intros H. apply andb_prop in H. destruct H as [Hl He].
  apply Nat.leb_le in Hl. apply String.eqb_eq in He.
  exists (String.substring 0 (String.length s - String.length suf) s).
  pose proof (substring_split s (String.length s - String.length suf)) as E.
  replace (String.length s - (String.length s - String.length suf))%nat
    with (String.length suf) in E by lia.
  rewrite He in E. apply E. lia.
Qed.

Lemma slice_to_app (p s : string) :
  s <> EmptyString -> Py.slice_to (p +++ s) (- Z.of_nat (String.length s)) = p.
Proof.
  intros Hs. unfold Py.slice_to. rewrite string_length_app.
  assert (0 < String.length s)%nat by (destruct s; [contradiction | simpl; lia]).
  replace (- Z.of_nat (String.length s) <? 0) with true
    by (symmetry; apply Z.ltb_lt; lia).
  replace (Z.to_nat (Z.max 0 (- Z.of_nat (String.length s)
             + Z.of_nat (String.length p + String.length s))))
    with (String.length p) by lia.
  apply substring_app_l.
Qed.

(** What [rstrip] returns does not end with a space. *)
Lemma rstrip_last (s p : string) (c : ascii) :
  Py.rstrip s = p +++ Py.str1 c -> Py.isspace c = false.
Proof.
  revert p. induction s as [|x s IH]; intros p H; simpl in H.
  - destruct p; discriminate.
  - destruct (Py.rstrip s) as [|y r] eqn:R.
    + destruct (Py.isspace x) eqn:Hx; [destruct p; discriminate|].
      destruct p as [|z p]; simpl in H.
      * injection H as <-. exact Hx.
      * injection H as _ H. destruct p; discriminate.
    + destruct p as [|z p]; simpl in H; [discriminate|].
      injection H as _ H. exact (IH p H).
Qed.

Lemma rstrip_idem (s : string) : Py.rstrip (Py.rstrip s) = Py.rstrip s.
Proof.
  induction s as [|x s IH]; simpl; [reflexivity|].
  destruct (Py.rstrip s) as [|y r] eqn:R.
  - destruct (Py.isspace x) eqn:Hx; simpl; [reflexivity | rewrite Hx; reflexivity].
  - cbn [Py.rstrip]. cbn [Py.rstrip] in IH. rewrite IH. reflexivity.
Qed.

(** [rstrip] keeps a first character that is not a space. *)
Lemma rstrip_head (x : ascii) (s : string) :
  Py.isspace x = false -> exists r, Py.rstrip (String x s) = String x r.
Proof.
  intros Hx. cbn [Py.rstrip]. destruct (Py.rstrip s).
  - rewrite Hx. exists EmptyString. reflexivity.
  - eexists. reflexivity.
Qed.

Lemma lstrip_head (s : string) :
  Py.lstrip s = EmptyString \/
  exists x r, Py.lstrip s = String x r /\ Py.isspace x = false.
Proof.
  induction s as [|x s IH]; simpl; [left; reflexivity|].
  destruct (Py.isspace x) eqn:Hx; [exact IH | right; eauto].
Qed.

Lemma strip_idem (s : string) : Py.strip (Py.strip s) = Py.strip s.
Proof.
  unfold Py.strip.
  destruct (lstrip_head s) as [-> | (x & r & -> & Hx)]; [reflexivity|].
  destruct (rstrip_head x r Hx) as [r' E]. rewrite E.
  cbn [Py.lstrip]. rewrite Hx. rewrite <- E. apply rstrip_idem.
Qed.

(** A text that [strip] leaves alone does not end with a space. *)
Lemma stripped_last (p : string) (c : ascii) :
  Py.strip (p +++ Py.str1 c) = p +++ Py.str1 c -> Py.isspace c = false.
Proof. unfold Py.strip. intros H. exact (rstrip_last _ _ _ H). Qed.

Lemma fold_strip_suffix_id (name : string) (l : list string) :
  Forall (fun s => Py.endswith name s = false) l ->
  fold_left strip_suffix l name = name.
Proof.
  induction 1 as [|s l Hs Hl IH]; simpl; [reflexivity|].
  unfold strip_suffix at 2. rewrite Hs. exact IH.
Qed.

(** Comparing two texts from their ends. *)
Lemma app_same_tail (p q s t : string) :
  p +++ s = q +++ t ->
  rev (Py.chars s) ++ rev (Py.chars p) = rev (Py.chars t) ++ rev (Py.chars q).
Proof.
  intros H. apply (f_equal Py.chars) in H. rewrite !chars_app in H.
  apply (f_equal (@rev ascii)) in H. rewrite !rev_app_distr in H. exact H.
Qed.

Lemma ends_with_space (name q : string) :
  name = q +++ " " -> Py.strip name = name -> False.
Proof.
  intros -> H. apply (stripped_last q " "%char) in H. discriminate H.
Qed.

Lemma rev_chars_snoc (name : string) (c : ascii) (l : list ascii) :
  rev (Py.chars name) = c :: l -> exists q, name = q +++ Py.str1 c.
Proof.
  intros H. apply (f_equal (@rev ascii)) in H. rewrite rev_involutive in H.
  simpl in H. exists (Py.of_chars (rev l)).
  apply (f_equal Py.of_chars) in H. unfold Py.of_chars, Py.chars in *.
  rewrite string_of_list_ascii_of_string in H. rewrite H.
  clear. induction (rev l) as [|x m IH]; simpl; [reflexivity | rewrite IH; reflexivity].
Qed.

(** X3. [normalize_engine_name] returns a text without surrounding
    whitespace; a name that has no surrounding whitespace and none of the
    eight colour suffixes is returned as it is, and so is that name when one
    of the suffixes is appended to it: the White and the Black entry of one
    engine get the same record.  One call need not reach a name that the
    function leaves alone: each suffix is tried once, in a fixed order. *)
Theorem normalize_engine_name_suffix :
  (forall name, Py.strip (normalize_engine_name name) = normalize_engine_name name) /\
  (forall name suffix,
      Py.strip name = name ->
      Forall (fun s => Py.endswith name s = false) color_suffixes ->
      In suffix color_suffixes ->
      normalize_engine_name name = name /\
      normalize_engine_name (name +++ suffix) = name) /\
  normalize_engine_name "Crafty (White) (White) (White)" = "Crafty (White)" /\
  normalize_engine_name "Crafty (White)" = "Crafty".
Proof.
  split; [|split; [|split; reflexivity]].
  - intros name. unfold normalize_engine_name. apply strip_idem.
  - intros name suffix Hs Hno Hin.
    assert (Hid : normalize_engine_name name = name).
    { unfold normalize_engine_name. rewrite (fold_strip_suffix_id name _ Hno).
      exact Hs. }
    split; [exact Hid|].
    assert (Hstep : forall suf, suf <> EmptyString ->
               strip_suffix (name +++ suf) suf = name).
    { intros suf Hne. unfold strip_suffix.
      rewrite endswith_app, (slice_to_app name suf Hne). exact Hs. }
    assert (Hskip : forall suf other,
               (forall q, name +++ suf = q +++ other -> False) ->
               strip_suffix (name +++ suf) other = name +++ suf).
    { intros suf other Hdiff. unfold strip_suffix.
      destruct (Py.endswith (name +++ suf) other) eqn:E; [|reflexivity].
      apply endswith_inv in E. destruct E as [q E]. destruct (Hdiff q E). }
    assert (Hrest : forall other, In other color_suffixes ->
               strip_suffix name other = name).
    { intros other Ho. unfold strip_suffix.
      rewrite Forall_forall in Hno. rewrite (Hno other Ho). reflexivity. }
    unfold normalize_engine_name.
    unfold color_suffixes in Hin. simpl in Hin.
    unfold color_suffixes at 1.
    repeat (destruct Hin as [<- | Hin]); try contradiction;
      cbn [fold_left];
      repeat (rewrite Hskip;
              [|intros q E; apply app_same_tail in E; simpl in E;
                inversion E;
                match goal with
                | H : rev (Py.chars name) = _ :: _ |- _ =>
                    apply rev_chars_snoc in H; destruct H as [q' H];
                    exact (ends_with_space name q' H Hs)
                end]);
      (rewrite Hstep; [|discriminate]);
      repeat (rewrite Hrest; [|simpl; tauto]);
      exact Hs.
Qed.

Lemma normalize_engine_name_suffix_witness :
  normalize_engine_name "Stockfish" = "Stockfish" /\
  normalize_engine_name ("Stockfish" +++ " (Black)") = "Stockfish".
Proof.
  apply (proj1 (proj2 normalize_engine_name_suffix) "Stockfish" " (Black)").
  - reflexivity.
  - repeat constructor.
  - simpl. auto.
Defined.

(** ** The opening book: lookup *)

Module BookFacts.
Import OpeningBook.

Lemma list_eqb_eq (l1 l2 : list string) : list_eqb l1 l2 = true <-> l1 = l2.
Proof.
  revert l2. induction l1 as [|x l1 IH]; intros [|y l2]; simpl;
    split; intros H; try discriminate; try reflexivity.
  - apply andb_prop in H. destruct H as [Hx Hl].
    apply String.eqb_eq in Hx. apply IH in Hl. subst. reflexivity.
  - injection H as -> ->. rewrite String.eqb_refl. apply IH. reflexivity.
Qed.

(** The test of [lookup] is the prefix test. *)
Lemma prefix_test (seq played : list string) :
  (List.length seq <=? List.length played)%nat
  && list_eqb (firstn (List.length seq) played) seq = true
  <-> starts_with played seq.
Proof.
  split.
  - intros H. apply andb_prop in H. destruct H as [_ H].
    apply list_eqb_eq in H. exists (skipn (List.length seq) played).
    rewrite <- H at 1. symmetry. apply firstn_skipn.
  - intros [rest ->]. apply andb_true_intro. split.
    + apply Nat.leb_le. rewrite length_app. lia.
    + apply list_eqb_eq. rewrite firstn_app, Nat.sub_diag, firstn_all.
      simpl. apply app_nil_r.
Qed.

(** [lookup] returns the first entry whose line the moves begin with. *)
Lemma lookup_first (entries : list entry) (played : list string) :
  match lookup entries played with
  | (Some eco, Some name) =>
      exists pre seq post,
        entries = pre ++ (seq, eco, name) :: post /\
        starts_with played seq /\
        Forall (fun e => ~ starts_with played (line_of e)) pre
  | (None, None) => Forall (fun e => ~ starts_with played (line_of e)) entries
  | _ => False
  end.
Proof.
  induction entries as [|[[seq eco] name] rest IH]; cbn [lookup]; [constructor|].
  destruct ((List.length seq <=? List.length played)%nat
            && list_eqb (firstn (List.length seq) played) seq) eqn:T.
  - apply prefix_test in T. exists [], seq, rest. auto.
  - assert (N : ~ starts_with played seq).
    { intros C. apply prefix_test in C. rewrite C in T. discriminate. }
    destruct (lookup rest played) as [[eco'|] [name'|]]; try exact IH.
    + destruct IH as (pre & seq' & post & -> & Hs & Hpre).
      exists ((seq, eco, name) :: pre), seq', post.
      split; [reflexivity|]. split; [exact Hs|]. constructor; assumption.
    + constructor; assumption.
Qed.

Lemma insert_entry_In (e x : entry) (l : list entry) :
  In x (insert_entry e l) <-> x = e \/ In x l.
Proof.
  induction l as [|y l IH]; simpl; [intuition auto|].
  destruct (List.length (fst (fst y)) <=? List.length (fst (fst e)))%nat; simpl.
  - intuition auto.
  - rewrite IH. intuition auto.
Qed.

Lemma insert_entry_sorted (e : entry) (l : list entry) :
  longest_first l -> longest_first (insert_entry e l).
Proof.
  induction l as [|y l IH]; intros H; simpl; [split; constructor|].
  destruct H as [Hy Hl].
  destruct (Nat.leb_spec (List.length (fst (fst y))) (List.length (fst (fst e)))) as [L|L].
  - split; [|split; assumption].
    constructor; [exact L|].
    eapply Forall_impl; [|exact Hy]. unfold line_of. simpl. intros a Ha. lia.
  - split; [|apply IH; exact Hl].
    apply Forall_forall. intros x Hx. apply insert_entry_In in Hx.
    destruct Hx as [-> | Hx]; [unfold line_of; lia|].
    rewrite Forall_forall in Hy. apply Hy. exact Hx.
Qed.

Lemma sort_entries_sorted (l : list entry) : longest_first (sort_entries l).
Proof.
  induction l as [|e l IH]; simpl; [exact I|].
  apply insert_entry_sorted. exact IH.
Qed.

Lemma sort_entries_In (x : entry) (l : list entry) :
  In x (sort_entries l) <-> In x l.
Proof.
  induction l as [|e l IH]; simpl; [tauto|].
  rewrite insert_entry_In, IH. intuition auto.
Qed.

Lemma insert_entry_stable (n : nat) (e : entry) (l : list entry) :
  filter (of_length n) (insert_entry e l) = filter (of_length n) (e :: l).
Proof.
  induction l as [|y l IH]; [reflexivity|].
  cbn [insert_entry].
  destruct (Nat.leb_spec (List.length (fst (fst y))) (List.length (fst (fst e)))) as [L|L];
    [reflexivity|].
  cbn [filter] in *. rewrite IH.
  unfold of_length, line_of.
  destruct (Nat.eqb_spec (List.length (fst (fst e))) n) as [E|E];
    destruct (Nat.eqb_spec (List.length (fst (fst y))) n) as [F|F];
    try reflexivity.
  lia.
Qed.

Lemma sort_entries_stable (n : nat) (l : list entry) :
  filter (of_length n) (sort_entries l) = filter (of_length n) l.
Proof.
  induction l as [|e l IH]; [reflexivity|].
  cbn [sort_entries fold_right]. rewrite insert_entry_stable.
  cbn [filter]. fold (sort_entries l). rewrite IH. reflexivity.
Qed.

(** An element of a filtered list sits in the list, after the elements
    filtered before it. *)
Lemma filter_split {A} (f : A -> bool) (l : list A) (a : list A) (x : A) (b : list A) :
  filter f l = a ++ x :: b ->
  exists pre post, l = pre ++ x :: post /\ filter f pre = a.
Proof.
  revert a. induction l as [|y l IH]; intros a H; simpl in H.
  - destruct a; discriminate.
  - destruct (f y) eqn:Fy.
    + destruct a as [|z a]; simpl in H.
      * injection H as -> H. exists [], l. split; reflexivity.
      * injection H as -> H. destruct (IH a H) as (pre & post & -> & Hp).
        exists (z :: pre), post. simpl. rewrite Fy, Hp. split; reflexivity.
    + destruct (IH a H) as (pre & post & -> & Hp).
      exists (y :: pre), post. simpl. rewrite Fy. split; [reflexivity | exact Hp].
Qed.

End BookFacts.

(** X4. After a load that ends without an exception, [lookup] returns the
    code and name of a longest line of the file that the moves played begin
    with, and among the lines of that length the one that comes first in the
    file; it returns [(None, None)] exactly when the moves begin with no line
    of the file. *)
Theorem lookup_longest (rows : list OpeningBook.row) (es : list OpeningBook.entry)
  (played : list string) :
  OpeningBook.read_rows rows [] = (es, None) ->
  match OpeningBook.lookup (OpeningBook._load [] (OpeningBook.Reads rows None)) played with
  | (Some eco, Some name) =>
      exists pre seq post,
        es = pre ++ (seq, eco, name) :: post /\
        starts_with played seq /\
        (forall e, In e es -> starts_with played (line_of e) ->
                   (List.length (line_of e) <= List.length seq)%nat) /\
        (forall e, In e pre -> starts_with played (line_of e) ->
                   (List.length (line_of e) < List.length seq)%nat)
  | (None, None) => forall e, In e es -> ~ starts_with played (line_of e)
  | _ => False
  end.
Proof.
  intros Hread. unfold OpeningBook._load. rewrite Hread.
  pose proof (BookFacts.lookup_first (OpeningBook.sort_entries es) played) as H.
  pose proof (BookFacts.sort_entries_sorted es) as Hsorted.
  destruct (OpeningBook.lookup (OpeningBook.sort_entries es) played)
    as [[eco|] [name|]]; try exact H.
  - destruct H as (pre' & seq & post' & Hsplit & Hs & Hpre').
    assert (Hmax : forall e, In e es -> starts_with played (line_of e) ->
                     (List.length (line_of e) <= List.length seq)%nat).
    { intros e He Hm. apply BookFacts.sort_entries_In in He.
      rewrite Hsplit in He, Hsorted. apply in_app_or in He.
      destruct He as [He | [<- | He]].
      - rewrite Forall_forall in Hpre'. destruct (Hpre' e He Hm).
      - unfold line_of. simpl. lia.
      - clear - Hsorted He. induction pre' as [|p pre' IH]; simpl in Hsorted.
        + destruct Hsorted as [Hf _]. rewrite Forall_forall in Hf.
          exact (Hf e He).
        + apply IH. apply Hsorted. }
    pose proof (BookFacts.sort_entries_stable (List.length seq) es) as Hst.
    rewrite Hsplit in Hst. rewrite filter_app in Hst. cbn [filter] in Hst.
    replace (of_length (List.length seq) (seq, eco, name)) with true in Hst
      by (symmetry; apply Nat.eqb_refl).
    symmetry in Hst.
    apply BookFacts.filter_split in Hst.
    destruct Hst as (pre & post & Hes & Hfpre).
    exists pre, seq, post. split; [exact Hes|]. split; [exact Hs|].
    split; [exact Hmax|].
    intros e He Hm.
    assert (Hle : (List.length (line_of e) <= List.length seq)%nat).
    { apply Hmax; [|exact Hm]. rewrite Hes. apply in_or_app. left. exact He. }
    destruct (Nat.eq_dec (List.length (line_of e)) (List.length seq)) as [E|E]; [|lia].
    exfalso.
    assert (Hin : In e (filter (of_length (List.length seq)) pre)).
    { apply filter_In. split; [exact He|].
      unfold of_length. apply Nat.eqb_eq. exact E. }
    rewrite Hfpre in Hin. apply filter_In in Hin. destruct Hin as [Hin _].
    rewrite Forall_forall in Hpre'. exact (Hpre' e Hin Hm).
  - intros e He. rewrite Forall_forall in H. apply H.
    apply BookFacts.sort_entries_In. exact He.
Qed.

(** ** [apply_uci] on a well-formed position *)

Lemma ep_fields_total (b : Board) :
  ep_parses b -> ep b <> "-" ->
  exists f r, ep_file b = Ok f /\ ep_rank b = Ok r.
Proof.
  intros [E | (e0 & e1 & n & H0 & H1 & Hn)] Hne; [contradiction|].
  unfold ep_file, ep_rank. rewrite H0, H1. cbn [bind]. rewrite Hn. cbn [bind].
  eauto.
Qed.

Lemma legal_on_board (b : Board) (turn_arg : option string) (legal : list move) :
  legal_moves b turn_arg = Ok legal -> Forall on_board legal.
Proof.
  intros Hl. apply Forall_forall. intros m Hin.
  pose proof (legal_moves_In b turn_arg legal m Hl Hin) as G.
  apply legal_move_shape in G.
  destruct m as [[[[fr fc] tr] tc] promo].
  destruct G as (piece & V & _ & _ & _ & S).
  unfold pseudo_shape in S. destruct S as (_ & _ & Vt & Hp & _).
  split; [exact V|]. split; [exact Vt|].
  destruct promo; [apply Hp | exact I].
Qed.

Lemma ambiguous_total (self : Board) (p : ascii) (fr fc tr tc : Z)
  (promo : option ascii) (legal : list move) :
  shape8 (board self) -> Forall on_board legal ->
  exists l, ambiguous self p fr fc tr tc promo legal = Ok l.
Proof.
  intros S. induction 1 as [|m legal Hm Hl [l IH]]; cbn [ambiguous]; [eauto|].
  destruct m as [[[[m0 m1] m2] m3] m4]. destruct Hm as (V & _).
  destruct ((m2 =? tr) && (m3 =? tc) && promo_eqb m4 promo).
  - destruct (cell_total self m0 m1 S V) as [x ->]. cbn [bind].
    rewrite IH. cbn [bind]. eauto.
  - cbn [bind]. rewrite IH. cbn [bind]. eauto.
Qed.

Lemma build_san_total (self : Board) (fr fc tr tc : Z) (promo : option ascii)
  (legal : list move) :
  well_formed self -> valid fr fc = true -> valid tr tc = true ->
  Forall on_board legal ->
  exists san, _build_san self fr fc tr tc promo legal = Ok san.
Proof.
  intros [S Hep] Vf Vt Hl. unfold _build_san.
  destruct (cell_total self fr fc S Vf) as [piece ->]. cbn [bind].
  destruct (cell_total self tr tc S Vt) as [target ->]. cbn [bind].
  assert (Hcap : exists v,
             (if negb (Ascii.eqb target ".") then Ok true
              else if Ascii.eqb (Py.lower piece) "p" && negb (String.eqb (ep self) "-")
                   then f <- ep_file self ;;
                        (if tc =? f then r <- ep_rank self ;; Ok (tr =? r)
                         else Ok false)
                   else Ok false) = Ok v).
  { destruct (negb (Ascii.eqb target ".")); [eauto|].
    destruct (Ascii.eqb (Py.lower piece) "p"); cbn [andb]; [|eauto].
    destruct (String.eqb (ep self) "-") eqn:E; cbn [negb]; [eauto|].
    apply String.eqb_neq in E.
    destruct (ep_fields_total self Hep E) as (f & r & -> & ->). cbn [bind].
    destruct (tc =? f); eauto. }
  destruct Hcap as [is_cap ->]. cbn [bind].
  apply valid_range in Vf, Vt.
  destruct (chr_file tc (proj2 Vt)) as [ft Hft].
  destruct (chr_file fc (proj2 Vf)) as [ff Hff].
  destruct (Ascii.eqb (Py.lower piece) "k" && (fc =? 4) && (tc =? 6)); [eauto|].
  destruct (Ascii.eqb (Py.lower piece) "k" && (fc =? 4) && (tc =? 2)); [eauto|].
  unfold square_name. rewrite Hft. cbn [bind].
  destruct (Ascii.eqb (Py.lower piece) "p").
  - destruct is_cap; [rewrite Hff|]; cbn [bind]; eauto.
  - destruct (ambiguous_total self (Py.lower piece) fr fc tr tc promo legal S Hl)
      as [amb ->]. cbn [bind].
    destruct amb as [|a amb]; cbn [bind]; [eauto|].
    destruct (negb _); [rewrite Hff; cbn [bind]; eauto|].
    destruct (negb _); [cbn [bind]; eauto|].
    rewrite Hff. cbn [bind]. eauto.
Qed.

(** The en-passant field [_apply_raw] writes for a generated move can be
    read back. *)
Lemma apply_raw_ep_parses (b b' : Board) (t : string) (m : move) :
  generated_for b t m -> _apply_raw b m = Ok b' -> ep_parses b'.
Proof.
  intros G H. apply legal_move_shape in G.
  destruct m as [[[[fr fc] tr] tc] promo].
  destruct G as (piece & V & Hc & _ & _ & S).
  unfold pseudo_shape in S. destruct S as (_ & _ & _ & _ & Hdbl & _).
  apply apply_raw_Ok in H.
  destruct H as (piece' & target & Hc' & _ & Hep & _).
  rewrite Hc in Hc'. injection Hc' as <-.
  destruct (two_square_pawn_advance piece fr tr) eqn:T; [|left; exact Hep].
  unfold two_square_pawn_advance in T. apply andb_prop in T.
  destruct T as [Tp Ta]. apply Ascii.eqb_eq in Tp. apply Z.eqb_eq in Ta.
  destruct (Hdbl Tp Ta) as [Hfr Htr].
  unfold square_name in Hep. bind_inv Hep. injection Hep as Hep.
  right. rewrite <- Hep, Hfr, Htr.
  destruct (Py.isupper piece); [exists v, "3"%char, 3 | exists v, "6"%char, 6];
    repeat split; reflexivity.
Qed.

Lemma apply_raw_well_formed (b b' : Board) (t : string) (m : move) :
  shape8 (board b) -> generated_for b t m -> _apply_raw b m = Ok b' ->
  well_formed b'.
Proof.
  intros S G H. split.
  - eapply apply_raw_shape; eassumption.
  - eapply apply_raw_ep_parses; eassumption.
Qed.

Lemma same_position_well_formed (s new : Board) :
  same_position s new -> well_formed new -> well_formed s.
Proof.
  intros (E1 & _ & _ & E4 & _) [S Hep]. split; [rewrite E1; exact S|].
  unfold ep_parses in *. rewrite E4. exact Hep.
Qed.

Lemma apply_uci_well_formed (b b' : Board) (uci : string) (r : string * option ascii) :
  shape8 (board b) -> apply_uci uci b = (Ok r, b') -> well_formed b'.
Proof.
  intros S H. destruct r as [san cap]. apply apply_uci_Ok in H.
  destruct H as (fr & fc & tr & tc & promo0 & promo & legal & new &
                 _ & Hl & Hin & _ & Hn & Hsame & _).
  apply (legal_moves_In b None legal _ Hl) in Hin.
  eapply same_position_well_formed; [exact Hsame|].
  eapply apply_raw_well_formed; eassumption.
Qed.

Lemma start_well_formed : well_formed start_position.
Proof.
  split; [|left; reflexivity]. split; [reflexivity | repeat constructor].
Qed.

Lemma reachable_well_formed (b : Board) : reachable b -> well_formed b.
Proof.
  induction 1 as [b Hinit | b uci r b' Hr IH Happ].
  - rewrite Board_init_start in Hinit. injection Hinit as <-.
    exact start_well_formed.
  - eapply apply_uci_well_formed; [apply IH | exact Happ].
Qed.

Lemma move_eqb_refl (m : move) : move_eqb m m = true.
Proof.
  destruct m as [[[[a b] c] d] p]. unfold move_eqb.
  rewrite !Z.eqb_refl. destruct p; [apply Ascii.eqb_refl | reflexivity].
Qed.

Lemma In_move_in (m : move) (l : list move) : In m l -> move_in m l = true.
Proof.
  intros H. unfold move_in. apply existsb_exists. exists m.
  split; [exact H | apply move_eqb_refl].
Qed.

(** Every step of [apply_uci] after the legality test returns on a
    well-formed position. *)
Lemma apply_uci_accepted (self : Board) (uci : string)
  (fr fc tr tc : Z) (promo0 : option ascii) (legal : list move) :
  well_formed self ->
  parse_uci uci = Ok (fr, fc, tr, tc, promo0) ->
  legal_moves self None = Ok legal ->
  move_in (fr, fc, tr, tc, promo0) legal
  || match promo0 with
     | None => move_in (fr, fc, tr, tc, Some "q"%char) legal
     | Some _ => false
     end = true ->
  exists r self', apply_uci uci self = (Ok r, self').
Proof.
  intros Hwf Hp Hl Hacc.
  assert (Hpromo : exists promo,
             In (fr, fc, tr, tc, promo) legal /\
             (if negb (move_in (fr, fc, tr, tc, promo0) legal) then
                match promo0 with
                | None =>
                    if move_in (fr, fc, tr, tc, Some "q"%char) legal
                    then ret (Some "q"%char)
                    else raise (ValueError_illegal_move uci)
                | Some _ => raise (ValueError_illegal_move uci)
                end
              else ret promo0) self = (Ok promo, self)).
  { destruct (move_in (fr, fc, tr, tc, promo0) legal) eqn:M; cbn [negb].
    - exists promo0. split; [apply move_in_In; exact M | reflexivity].
    - cbn [orb] in Hacc. destruct promo0; [discriminate|].
      rewrite Hacc. exists (Some "q"%char).
      split; [apply move_in_In; exact Hacc | reflexivity]. }
  destruct Hpromo as (promo & Hin & Hstep).
  pose proof (legal_on_board self None legal Hl) as Hon.
  pose proof (legal_moves_In self None legal _ Hl Hin) as G.
  assert (Hm : on_board (fr, fc, tr, tc, promo)).
  { rewrite Forall_forall in Hon. exact (Hon _ Hin). }
  destruct Hm as (Vf & Vt & _).
  destruct (build_san_total self fr fc tr tc promo legal Hwf Vf Vt Hon) as [san0 Hsan].
  destruct Hwf as [S Hep].
  destruct (cell_total self fr fc S Vf) as [piece Hpiece].
  destruct (cell_total self tr tc S Vt) as [target Htarget].
  assert (Hrem : exists epr,
             (if Ascii.eqb (Py.lower piece) "p" && negb (String.eqb (ep self) "-")
              then ep_c <- ep_file self ;;
                   ep_r <- ep_rank self ;;
                   (if (tr =? ep_r) && (tc =? ep_c)
                    then x <- cell self fr ep_c ;; Ok (Some x)
                    else Ok None)
              else Ok None) = Ok epr).
  { destruct (Ascii.eqb (Py.lower piece) "p"); cbn [andb]; [|eauto].
    destruct (String.eqb (ep self) "-") eqn:E; cbn [negb]; [eauto|].
    apply String.eqb_neq in E.
    destruct (ep_fields_total self Hep E) as (f & r & -> & ->). cbn [bind].
    destruct ((tr =? r) && (tc =? f)) eqn:C; [|eauto].
    apply andb_prop in C. destruct C as [_ C]. apply Z.eqb_eq in C. subst f.
    apply valid_range in Vf, Vt.
    assert (V : valid fr tc = true) by (apply valid_range; lia).
    destruct (cell_total self fr tc S V) as [x ->]. cbn [bind]. eauto. }
  destruct Hrem as [epr Hrem].
  destruct (apply_raw_total self fr fc tr tc promo (conj S Hep) Vf Vt) as [new Hnew].
  pose proof (apply_raw_well_formed self new _ _ S G Hnew) as Hwfn.
  set (s1 := {| board := board new; turn := turn new; castling := castling new;
                ep := ep new; halfmove := halfmove new;
                fullmove := fullmove new;
                move_history := move_history self;
                pos_history := pos_history self;
                cap_white := cap_white self; cap_black := cap_black self;
                _material_cache := None |}).
  assert (Hwf1 : well_formed s1).
  { apply (same_position_well_formed s1 new); [|exact Hwfn].
    unfold same_position. repeat split; reflexivity. }
  destruct (in_check_total s1 (proj1 Hwf1) None) as [in_chk Hchk].
  destruct (legal_moves_total s1 None Hwf1) as [legal_after Hla].
  unfold apply_uci.
  unfold bindM at 1. unfold query at 1. rewrite Hp.
  unfold bindM at 1. unfold query at 1. rewrite Hl.
  unfold bindM at 1. rewrite Hstep.
  unfold bindM at 1. unfold query at 1. rewrite Hsan.
  unfold bindM at 1. unfold query at 1. rewrite Hpiece.
  unfold bindM at 1. unfold query at 1. rewrite Htarget.
  unfold bindM at 1. unfold query at 1. rewrite Hrem.
  unfold bindM at 1. unfold query at 1. rewrite Hnew.
  unfold bindM at 1. unfold assign at 1. fold s1.
  unfold bindM at 1. unfold query at 1. rewrite Hchk.
  unfold bindM at 1. unfold query at 1. rewrite Hla.
  unfold bindM, assign, ret.
  destruct (match epr with
            | Some x => Some x
            | None => if negb (Ascii.eqb target ".") then Some target else None
            end) as [x|]; [destruct (negb (Ascii.eqb x "."))|]; eauto.
Qed.

Lemma apply_uci_refused (self : Board) (uci : string)
  (fr fc tr tc : Z) (promo0 : option ascii) (legal : list move) :
  parse_uci uci = Ok (fr, fc, tr, tc, promo0) ->
  legal_moves self None = Ok legal ->
  move_in (fr, fc, tr, tc, promo0) legal
  || match promo0 with
     | None => move_in (fr, fc, tr, tc, Some "q"%char) legal
     | Some _ => false
     end = false ->
  apply_uci uci self = (Raise (ValueError_illegal_move uci), self).
Proof.
  intros Hp Hl Hacc. apply orb_false_iff in Hacc. destruct Hacc as [M Q].
  unfold apply_uci, bindM, query. rewrite Hp, Hl, M. cbn [negb].
  destruct promo0; [reflexivity|]. rewrite Q. reflexivity.
Qed.

Lemma string_get_total (s : string) (n : nat) :
  (n < String.length s)%nat -> exists x, String.get n s = Some x.
Proof.
  revert n. induction s as [|c s IH]; intros n H; simpl in H; [lia|].
  destruct n as [|n]; simpl; [eauto|]. apply IH. lia.
Qed.

Lemma sindex_total (s : string) (i : Z) :
  0 <= i < Z.of_nat (String.length s) -> exists x, Py.sindex s i = Ok x.
Proof.
  intros H. unfold Py.sindex. rewrite (norm_index_in_range _ _ H).
  destruct (string_get_total s (Z.to_nat i)) as [x ->]; [lia|]. eauto.
Qed.

Lemma int_raises (s : string) (e : exn) : Py.int s = Raise e -> e = ValueError_int.
Proof.
  unfold Py.int. intros H.
  destruct (Py.strip s) as [|c t]; cbn in H.
  - injection H as <-. reflexivity.
  - destruct c as [[] [] [] [] [] [] [] []];
      repeat match type of H with
             | context [match ?x with _ => _ end] => destruct x
             end; try discriminate; injection H as <-; reflexivity.
Qed.

(** The text of a move is malformed only in two ways: it is too short, or a
    rank character is not a number. *)
Lemma parse_uci_raises (uci : string) (e : exn) :
  parse_uci uci = Raise e -> e = ValueError_bad_uci uci \/ e = ValueError_int.
Proof.
  unfold parse_uci.
  destruct (Z.ltb_spec (Z.of_nat (String.length uci)) 4) as [L|L]; intros H.
  - injection H as <-. left. reflexivity.
  - right.
    destruct (sindex_total uci 0) as [u0 E0]; [lia|].
    destruct (sindex_total uci 1) as [u1 E1]; [lia|].
    destruct (sindex_total uci 2) as [u2 E2]; [lia|].
    destruct (sindex_total uci 3) as [u3 E3]; [lia|].
    rewrite E0, E1, E2, E3 in H. cbn [bind] in H.
    destruct (Py.int (Py.str1 u1)) as [n1|e1] eqn:I1; cbn [bind] in H;
      [|injection H as <-; exact (int_raises _ _ I1)].
    destruct (Py.int (Py.str1 u3)) as [n3|e3] eqn:I3; cbn [bind] in H;
      [|injection H as <-; exact (int_raises _ _ I3)].
    destruct (Z.ltb_spec 4 (Z.of_nat (String.length uci))) as [L4|L4].
    + destruct (sindex_total uci 4) as [u4 E4]; [lia|].
      rewrite E4 in H. cbn [bind] in H. discriminate.
    + cbn [bind] in H. discriminate.
Qed.

(** A failing [apply_uci] leaves the position as it was and raises one of
    three errors. *)
Lemma apply_uci_raises (self self' : Board) (uci : string) (e : exn) :
  well_formed self ->
  apply_uci uci self = (Raise e, self') ->
  self' = self /\
  (e = ValueError_bad_uci uci \/ e = ValueError_int \/
   e = ValueError_illegal_move uci).
Proof.
  intros Hwf H.
  destruct (parse_uci uci) as [[[[[fr fc] tr] tc] promo0]|e0] eqn:Hp.
  - destruct (legal_moves_total self None Hwf) as [legal Hl].
    destruct (move_in (fr, fc, tr, tc, promo0) legal
              || match promo0 with
                 | None => move_in (fr, fc, tr, tc, Some "q"%char) legal
                 | Some _ => false
                 end) eqn:A.
    + destruct (apply_uci_accepted self uci fr fc tr tc promo0 legal Hwf Hp Hl A)
        as (r & s & E).
      rewrite E in H. discriminate.
    + rewrite (apply_uci_refused self uci fr fc tr tc promo0 legal Hp Hl A) in H.
      injection H as <- <-. auto.
  - rewrite (apply_uci_malformed self uci e0 Hp) in H. injection H as <- <-.
    split; [reflexivity|].
    destruct (parse_uci_raises uci e0 Hp) as [-> | ->]; auto.
Qed.

(** X5. On a well-formed position (every position of a game is one)
    [apply_uci] either returns or raises leaving every field of the position
    as it was, and what it raises is a [ValueError]: the text is shorter than
    four characters, a rank character is not a number, or the move is
    illegal.  It never raises an index error and never leaves a half-applied
    move. *)
Theorem apply_uci_all_or_nothing (self : Board) (uci : string) :
  well_formed self ->
  (exists r self', apply_uci uci self = (Ok r, self')) \/
  (exists e,
      apply_uci uci self = (Raise e, self) /\
      (e = ValueError_bad_uci uci \/ e = ValueError_int \/
       e = ValueError_illegal_move uci)).
Proof.
  intros Hwf.
  destruct (apply_uci uci self) as [[r|e] self'] eqn:E.
  - left. eauto.
  - right. destruct (apply_uci_raises self self' uci e Hwf E) as [-> He].
    eauto.
Qed.

Lemma apply_uci_all_or_nothing_witness :
  (exists r self', apply_uci "e2ex" start_position = (Ok r, self')) \/
  (exists e,
      apply_uci "e2ex" start_position = (Raise e, start_position) /\
      (e = ValueError_bad_uci "e2ex" \/ e = ValueError_int \/
       e = ValueError_illegal_move "e2ex")).
Proof.
  apply (apply_uci_all_or_nothing start_position "e2ex").
  exact start_well_formed.
Defined.

(** ** Move texts *)

Lemma file_char (c : Z) :
  0 <= c < 8 ->
  exists f, Py.chr (Py.ord "a" + c) = Ok f /\ Py.ord f - Py.ord "a" = c /\
            Py.char_in f "abcdefgh" = true.
Proof.
  intros H.
  assert (C : c = 0 \/ c = 1 \/ c = 2 \/ c = 3 \/ c = 4 \/ c = 5 \/ c = 6 \/ c = 7)
    by lia.
  repeat (destruct C as [-> | C]); try subst c;
    eexists; repeat split; reflexivity.
Qed.

Lemma rank_char (r : Z) :
  0 <= r < 8 ->
  exists d, Py.str (8 - r) = Py.str1 d /\ Py.int (Py.str1 d) = Ok (8 - r) /\
            Py.isdigit d = true.
Proof.
  intros H.
  assert (C : r = 0 \/ r = 1 \/ r = 2 \/ r = 3 \/ r = 4 \/ r = 5 \/ r = 6 \/ r = 7)
    by lia.
  repeat (destruct C as [-> | C]); try subst r;
    eexists; repeat split; reflexivity.
Qed.

Lemma string_get_length (s : string) (n : nat) (x : ascii) :
  String.get n s = Some x -> (n < String.length s)%nat.
Proof.
  revert n. induction s as [|c s IH]; intros n H; simpl in H; [discriminate|].
  destruct n as [|n]; simpl; [lia|]. apply IH in H. lia.
Qed.

Lemma sindex_at (s : string) (n : nat) (x : ascii) :
  String.get n s = Some x -> Py.sindex s (Z.of_nat n) = Ok x.
Proof.
  intros H. pose proof (string_get_length s n x H) as L.
  unfold Py.sindex. rewrite norm_index_in_range by lia.
  rewrite Nat2Z.id, H. reflexivity.
Qed.

(** The text [uci_text] writes for a move on the board decodes to the
    move. *)
Lemma uci_text_parse (m : move) :
  on_board m ->
  exists uci, OpeningBook.uci_text m = Ok uci /\ parse_uci uci = Ok m.
Proof.
  destruct m as [[[[fr fc] tr] tc] promo]. intros (Vf & Vt & Hp).
  apply valid_range in Vf, Vt.
  destruct (file_char fc (proj2 Vf)) as (f & Hf & Of & _).
  destruct (file_char tc (proj2 Vt)) as (t & Ht & Ot & _).
  destruct (rank_char fr (proj1 Vf)) as (d1 & S1 & I1 & _).
  destruct (rank_char tr (proj1 Vt)) as (d2 & S2 & I2 & _).
  unfold OpeningBook.uci_text. rewrite Hf, Ht. cbn [bind]. rewrite S1, S2.
  eexists. split; [reflexivity|].
  destruct promo as [p|].
  - simpl in Hp.
    assert (Hl : Py.lower p = p)
      by (destruct Hp as [<- | [<- | [<- | [<- | []]]]]; reflexivity).
    pose (uci := String f (String d1 (String t (String d2 (String p EmptyString))))).
    change (parse_uci uci = Ok (fr, fc, tr, tc, Some p)).
    assert (E0 : Py.sindex uci 0 = Ok f) by (apply (sindex_at uci 0); reflexivity).
    assert (E1 : Py.sindex uci 1 = Ok d1) by (apply (sindex_at uci 1); reflexivity).
    assert (E2 : Py.sindex uci 2 = Ok t) by (apply (sindex_at uci 2); reflexivity).
    assert (E3 : Py.sindex uci 3 = Ok d2) by (apply (sindex_at uci 3); reflexivity).
    assert (E4 : Py.sindex uci 4 = Ok p) by (apply (sindex_at uci 4); reflexivity).
    unfold parse_uci.
    replace (Z.of_nat (String.length uci) <? 4) with false by reflexivity.
    replace (4 <? Z.of_nat (String.length uci)) with true by reflexivity.
    rewrite E0, E1, E2, E3, E4. cbn [bind]. rewrite I1, I2. cbn [bind].
    rewrite Of, Ot, Hl. repeat f_equal; lia.
  - pose (uci := String f (String d1 (String t (String d2 EmptyString)))).
    change (parse_uci uci = Ok (fr, fc, tr, tc, None)).
    assert (E0 : Py.sindex uci 0 = Ok f) by (apply (sindex_at uci 0); reflexivity).
    assert (E1 : Py.sindex uci 1 = Ok d1) by (apply (sindex_at uci 1); reflexivity).
    assert (E2 : Py.sindex uci 2 = Ok t) by (apply (sindex_at uci 2); reflexivity).
    assert (E3 : Py.sindex uci 3 = Ok d2) by (apply (sindex_at uci 3); reflexivity).
    unfold parse_uci.
    replace (Z.of_nat (String.length uci) <? 4) with false by reflexivity.
    replace (4 <? Z.of_nat (String.length uci)) with false by reflexivity.
    rewrite E0, E1, E2, E3. cbn [bind]. rewrite I1, I2. cbn [bind].
    rewrite Of, Ot. repeat f_equal; lia.
Qed.

(** X6. Every move that [legal_moves] lists for the side to move of a
    well-formed position has a long-form text ([uci_text], the text
    [_san_to_uci] writes), the text decodes to that move, and [apply_uci]
    accepts it. *)
Theorem apply_uci_accepts_legal (self : Board) (legal : list move) (m : move) :
  well_formed self ->
  legal_moves self None = Ok legal ->
  In m legal ->
  exists uci r self',
    OpeningBook.uci_text m = Ok uci /\
    parse_uci uci = Ok m /\
    apply_uci uci self = (Ok r, self').
Proof.
  intros Hwf Hl Hin.
  pose proof (legal_on_board self None legal Hl) as Hon.
  rewrite Forall_forall in Hon.
  destruct (uci_text_parse m (Hon m Hin)) as (uci & Ht & Hp).
  destruct m as [[[[fr fc] tr] tc] promo].
  destruct (apply_uci_accepted self uci fr fc tr tc promo legal Hwf Hp Hl)
    as (r & self' & E).
  { rewrite (In_move_in _ _ Hin). reflexivity. }
  exists uci, r, self'. auto.
Qed.

Lemma apply_uci_accepts_legal_witness :
  exists uci r self',
    OpeningBook.uci_text (6, 4, 4, 4, None) = Ok uci /\
    parse_uci uci = Ok (6, 4, 4, 4, None) /\
    apply_uci uci start_position = (Ok r, self').
Proof.
  destruct (legal_moves start_position None) as [legal|e] eqn:E;
    [|vm_compute in E; discriminate].
  apply (apply_uci_accepts_legal start_position legal (6, 4, 4, 4, None)).
  - exact start_well_formed.
  - exact E.
  - vm_compute in E. injection E as <-. simpl. auto 20.
Defined.

(** ** The opening book: reading the file *)

Lemma play_snoc (acc : list string) (u san : string) (cap : option ascii) :
  forall b0 sans0 b b',
    play acc b0 = (Ok sans0, b) ->
    apply_uci u b = (Ok (san, cap), b') ->
    play (acc ++ [u]) b0 = (Ok (sans0 ++ [san]), b').
Proof.
  induction acc as [|a acc IH]; intros b0 sans0 b b' Hp Ha; simpl in Hp |- *.
  - injection Hp as <- <-. rewrite Ha. reflexivity.
  - destruct (apply_uci a b0) as [[[s c]|e] b1]; [|discriminate].
    destruct (play acc b1) as [[ss|e] b2] eqn:P; [|discriminate].
    injection Hp as <- <-.
    rewrite (IH b1 ss b2 b' P Ha). reflexivity.
Qed.

Lemma san_search_sound (board : Board) (san : string) (legal moves : list move)
  (uci : string) :
  Forall on_board moves ->
  OpeningBook.san_search board san legal moves = Ok (Some uci) ->
  exists fr fc tr tc promo test_san,
    In (fr, fc, tr, tc, promo) moves /\
    parse_uci uci = Ok (fr, fc, tr, tc, promo) /\
    _build_san board fr fc tr tc promo legal = Ok test_san /\
    (OpeningBook.clean_san test_san = OpeningBook.clean_san san \/ test_san = san).
Proof.
  induction 1 as [|m moves Hm Hms IH]; cbn [OpeningBook.san_search]; intros H;
    [discriminate|].
  destruct m as [[[[fr fc] tr] tc] promo].
  bind_inv H. rename v into test_san, E into Hsan.
  destruct (String.eqb (OpeningBook.clean_san test_san) (OpeningBook.clean_san san)
            || String.eqb test_san san) eqn:T.
  - bind_inv H. injection H as <-.
    destruct (uci_text_parse _ Hm) as (uci' & Hu & Hp).
    rewrite E in Hu. injection Hu as <-.
    exists fr, fc, tr, tc, promo, test_san.
    split; [left; reflexivity|]. split; [exact Hp|]. split; [exact Hsan|].
    apply orb_prop in T. destruct T as [T|T]; apply String.eqb_eq in T; auto.
  - destruct (IH H) as (fr' & fc' & tr' & tc' & promo' & ts & Hin & Hrest).
    exists fr', fc', tr', tc', promo', ts. split; [right; exact Hin | exact Hrest].
Qed.

Lemma san_search_finds (board : Board) (san : string) (legal moves : list move)
  (fr fc tr tc : Z) (promo : option ascii) :
  well_formed board -> Forall on_board legal -> Forall on_board moves ->
  In (fr, fc, tr, tc, promo) moves ->
  _build_san board fr fc tr tc promo legal = Ok san ->
  exists uci, OpeningBook.san_search board san legal moves = Ok (Some uci).
Proof.
  intros Hwf Hl. induction 1 as [|m moves Hm Hms IH]; intros Hin Hsan;
    [destruct Hin|].
  cbn [OpeningBook.san_search].
  destruct m as [[[[fr' fc'] tr'] tc'] promo'].
  destruct Hm as (Vf & Vt & Hp).
  destruct (build_san_total board fr' fc' tr' tc' promo' legal Hwf Vf Vt Hl)
    as [ts Hts].
  rewrite Hts. cbn [bind].
  destruct (String.eqb (OpeningBook.clean_san ts) (OpeningBook.clean_san san)
            || String.eqb ts san) eqn:T.
  - destruct (uci_text_parse (fr', fc', tr', tc', promo')) as (uci & Hu & _);
      [repeat split; assumption|].
    rewrite Hu. cbn [bind]. eauto.
  - destruct Hin as [E | Hin]; [|exact (IH Hin Hsan)].
    injection E as -> -> -> -> ->. rewrite Hsan in Hts. injection Hts as <-.
    rewrite !String.eqb_refl in T. discriminate.
Qed.

(** X7. On a well-formed position, a text [_san_to_uci] returns decodes to
    a legal move whose SAN is the text asked for (as written, or once the
    capture and check marks are dropped from both), and [apply_uci] accepts
    it; and the SAN [_build_san] writes for a legal move is always found
    again. *)
Theorem san_to_uci_sound (board : Board) :
  well_formed board ->
  (forall san uci,
      OpeningBook._san_to_uci board san = Ok (Some uci) ->
      exists legal fr fc tr tc promo test_san r board',
        legal_moves board None = Ok legal /\
        In (fr, fc, tr, tc, promo) legal /\
        parse_uci uci = Ok (fr, fc, tr, tc, promo) /\
        _build_san board fr fc tr tc promo legal = Ok test_san /\
        (OpeningBook.clean_san test_san = OpeningBook.clean_san san \/
         test_san = san) /\
        apply_uci uci board = (Ok r, board')) /\
  (forall legal fr fc tr tc promo san,
      legal_moves board None = Ok legal ->
      In (fr, fc, tr, tc, promo) legal ->
      _build_san board fr fc tr tc promo legal = Ok san ->
      exists uci, OpeningBook._san_to_uci board san = Ok (Some uci)).
Proof.
  intros Hwf. split.
  - intros san uci H. unfold OpeningBook._san_to_uci in H.
    bind_inv H. rename v into legal, E into Hl.
    pose proof (legal_on_board board None legal Hl) as Hon.
    destruct (san_search_sound board san legal legal uci Hon H)
      as (fr & fc & tr & tc & promo & ts & Hin & Hp & Hs & Hc).
    destruct (apply_uci_accepted board uci fr fc tr tc promo legal Hwf Hp Hl)
      as (r & board' & E).
    { rewrite (In_move_in _ _ Hin). reflexivity. }
    exists legal, fr, fc, tr, tc, promo, ts, r, board'. auto 10.
  - intros legal fr fc tr tc promo san Hl Hin Hs.
    unfold OpeningBook._san_to_uci. rewrite Hl. cbn [bind].
    pose proof (legal_on_board board None legal Hl) as Hon.
    exact (san_search_finds board san legal legal fr fc tr tc promo
             Hwf Hon Hon Hin Hs).
Qed.

Lemma san_to_uci_sound_witness :
  exists uci, OpeningBook._san_to_uci start_position "Nf3" = Ok (Some uci).
Proof.
  destruct (legal_moves start_position None) as [legal|e] eqn:E;
    [|vm_compute in E; discriminate].
  apply (proj2 (san_to_uci_sound start_position start_well_formed)
           legal 7 6 5 5 None "Nf3").
  - exact E.
  - vm_compute in E. injection E as <-. simpl. auto 30.
  - vm_compute in E. injection E as <-. vm_compute. reflexivity.
Defined.

Lemma tokens_loop_playable (tokens : list string) :
  forall board acc sans0 l,
    reachable board ->
    play acc start_position = (Ok sans0, board) ->
    OpeningBook.tokens_loop tokens board acc = Ok (Some l) ->
    exists sans b, play l start_position = (Ok sans, b).
Proof.
  induction tokens as [|tok0 rest IH]; intros board acc sans0 l Hr Hp H;
    cbn [OpeningBook.tokens_loop] in H.
  - injection H as <-. eauto.
  - destruct (String.eqb (Py.strip tok0) "") eqn:Empty; [eapply IH; eassumption|].
    bind_inv H. rename v into looks.
    assert (Hsan : forall board1,
               board1 = board ->
               (o <- OpeningBook._san_to_uci board1 (Py.strip tok0) ;;
                match o with
                | None => Ok None
                | Some uci =>
                    match apply_uci uci board1 with
                    | (Ok _, board2) =>
                        OpeningBook.tokens_loop rest board2 (acc ++ [uci])
                    | (Raise e, _) => Raise e
                    end
                end) = Ok (Some l) ->
               exists sans b, play l start_position = (Ok sans, b)).
    { intros board1 -> H1. bind_inv H1. destruct v as [uci|]; [|discriminate].
      destruct (apply_uci uci board) as [[[san cap]|e] board2] eqn:A; [|discriminate].
      eapply IH; [|eapply play_snoc; eassumption | exact H1].
      eapply reach_apply; eassumption. }
    destruct looks.
    + destruct (apply_uci (Py.strip tok0) board) as [[[san cap]|e] board'] eqn:A.
      * eapply IH; [|eapply play_snoc; eassumption | exact H].
        eapply reach_apply; eassumption.
      * apply (Hsan board'); [|exact H].
        exact (proj1 (apply_uci_raises board board' _ e
                        (reachable_well_formed board Hr) A)).
    + apply (Hsan board); [reflexivity | exact H].
Qed.

Lemma read_rows_playable (rows : list OpeningBook.row) :
  forall entries es err,
    Forall (fun e => exists sans b, play (line_of e) start_position = (Ok sans, b))
           entries ->
    OpeningBook.read_rows rows entries = (es, err) ->
    Forall (fun e => exists sans b, play (line_of e) start_position = (Ok sans, b)) es.
Proof.
  induction rows as [|r rows IH]; intros entries es err He H;
    cbn [OpeningBook.read_rows] in H.
  - injection H as <- _. exact He.
  - destruct (String.eqb _ ""); [eapply IH; eassumption|].
    destruct (OpeningBook._tokens_to_uci _) as [[seq|]|e] eqn:T.
    + eapply IH; [|exact H]. apply Forall_app. split; [exact He|].
      constructor; [|constructor].
      unfold OpeningBook._tokens_to_uci in T. rewrite Board_init_start in T.
      cbn [bind] in T.
      eapply (tokens_loop_playable _ start_position [] []); [| reflexivity | exact T].
      apply reach_init. exact Board_init_start.
    + eapply IH; eassumption.
    + injection H as <- _. exact He.
Qed.

(** X8. Whatever the file holds and however reading it ends, every line
    [_load] stores in the book is a game that can be played from the
    starting position: [apply_uci] accepts its moves one after the other.
    (A token that looks like a long-form move but is refused is retried as
    SAN on the untouched board.) *)
Theorem book_lines_playable (f : OpeningBook.csv_file) :
  Forall (fun e => exists sans b, play (line_of e) start_position = (Ok sans, b))
         (OpeningBook._load [] f).
Proof.
  destruct f as [e|rows error]; cbn [OpeningBook._load]; [constructor|].
  destruct (OpeningBook.read_rows rows []) as [es err] eqn:R.
  pose proof (read_rows_playable rows [] es err (Forall_nil _) R) as H.
  destruct err; [exact H|]. destruct error; [exact H|].
  apply Forall_forall. intros x Hx.
  apply (proj1 (BookFacts.sort_entries_In x es)) in Hx.
  rewrite Forall_forall in H. exact (H x Hx).
Qed.

Lemma lookup_longest_witness :
  let rows : list OpeningBook.row :=
    [ [("ECO", Some "B00"); ("name", Some "King's Pawn"); ("moves", Some "e4")];
      [("ECO", Some "C20"); ("name", Some "Open Game"); ("moves", Some "e4 e5")] ] in
  let es : list OpeningBook.entry :=
    [ (["e2e4"], "B00", "King's Pawn"); (["e2e4"; "e7e5"], "C20", "Open Game") ] in
  let played := ["e2e4"; "e7e5"; "g1f3"] in
  match OpeningBook.lookup (OpeningBook._load [] (OpeningBook.Reads rows None)) played with
  | (Some eco, Some name) =>
      exists pre seq post,
        es = pre ++ (seq, eco, name) :: post /\
        starts_with played seq /\
        (forall e, In e es -> starts_with played (line_of e) ->
                   (List.length (line_of e) <= List.length seq)%nat) /\
        (forall e, In e pre -> starts_with played (line_of e) ->
                   (List.length (line_of e) < List.length seq)%nat)
  | (None, None) => forall e, In e es -> ~ starts_with played (line_of e)
  | _ => False
  end.
Proof.
  intros rows es played.
  apply (lookup_longest rows es played).
  vm_compute. reflexivity.
Defined.

(** ** Tokens that look like long-form moves *)

Lemma file_letter_in (c : ascii) :
  (0 <=? Py.ord c - Py.ord "a") && (Py.ord c - Py.ord "a" <? 8) = true ->
  Py.char_in c "abcdefgh" = true.
Proof.
  destruct c as [[] [] [] [] [] [] [] []]; intros H; vm_compute in H |- *;
    solve [reflexivity | discriminate H].
Qed.

Lemma int_char_digit (c : ascii) (n : Z) :
  Py.int (Py.str1 c) = Ok n -> Py.isdigit c = true.
Proof.
  destruct c as [[] [] [] [] [] [] [] []]; intros H; vm_compute in H |- *;
    solve [reflexivity | discriminate H].
Qed.

Lemma digit_int (c : ascii) :
  Py.isdigit c = true -> exists n, Py.int (Py.str1 c) = Ok n.
Proof.
  destruct c as [[] [] [] [] [] [] [] []]; intros H; vm_compute in H;
    try discriminate H; eexists; vm_compute; reflexivity.
Qed.

Lemma looks_like_uci_total (tok : string) :
  exists v, OpeningBook._looks_like_uci tok = Ok v.
Proof.
  unfold OpeningBook._looks_like_uci.
  destruct ((Z.of_nat (String.length tok) =? 4) || (Z.of_nat (String.length tok) =? 5))
    eqn:L; cbn [negb]; [|eauto].
  assert (4 <= Z.of_nat (String.length tok)).
  { apply orb_prop in L. destruct L as [L|L]; apply Z.eqb_eq in L; lia. }
  destruct (sindex_total tok 0) as [t0 ->]; [lia|].
  destruct (sindex_total tok 1) as [t1 ->]; [lia|].
  destruct (sindex_total tok 2) as [t2 ->]; [lia|].
  destruct (sindex_total tok 3) as [t3 ->]; [lia|].
  cbn [bind].
  destruct (Py.char_in t0 "abcdefgh"); [|eauto].
  destruct (Py.isdigit t1); [|eauto].
  destruct (Py.char_in t2 "abcdefgh"); eauto.
Qed.

(** X9. [_looks_like_uci] never raises.  A token it accepts always decodes
    as a move text, so the only error [_tokens_to_uci] can swallow for such
    a token is the illegal-move error; and on a well-formed position every
    text of four or five characters that [apply_uci] accepts passes the
    test, so no accepted move of that length is sent down the SAN path. *)
Theorem looks_like_uci_agrees :
  (forall tok, exists v, OpeningBook._looks_like_uci tok = Ok v) /\
  (forall tok,
      OpeningBook._looks_like_uci tok = Ok true ->
      exists m, parse_uci tok = Ok m) /\
  (forall self self' uci r,
      well_formed self ->
      apply_uci uci self = (Ok r, self') ->
      (String.length uci <= 5)%nat ->
      OpeningBook._looks_like_uci uci = Ok true).
Proof.
  split; [exact looks_like_uci_total|]. split.
  - intros tok H. unfold OpeningBook._looks_like_uci in H.
    destruct ((Z.of_nat (String.length tok) =? 4)
              || (Z.of_nat (String.length tok) =? 5)) eqn:L;
      cbn [negb] in H; [|discriminate].
    assert (L4 : 4 <= Z.of_nat (String.length tok)).
    { apply orb_prop in L. destruct L as [L|L]; apply Z.eqb_eq in L; lia. }
    destruct (sindex_total tok 0) as [t0 E0]; [lia|].
    destruct (sindex_total tok 1) as [t1 E1]; [lia|].
    destruct (sindex_total tok 2) as [t2 E2]; [lia|].
    destruct (sindex_total tok 3) as [t3 E3]; [lia|].
    rewrite E0, E1, E2, E3 in H. cbn [bind] in H.
    destruct (Py.char_in t0 "abcdefgh"); [|discriminate].
    destruct (Py.isdigit t1) eqn:D1; [|discriminate].
    destruct (Py.char_in t2 "abcdefgh"); [|discriminate].
    injection H as D3.
    destruct (digit_int t1 D1) as [n1 I1]. destruct (digit_int t3 D3) as [n3 I3].
    unfold parse_uci.
    replace (Z.of_nat (String.length tok) <? 4) with false
      by (symmetry; apply Z.ltb_ge; lia).
    rewrite E0, E1, E2, E3. cbn [bind]. rewrite I1, I3. cbn [bind].
    destruct (Z.ltb_spec 4 (Z.of_nat (String.length tok))) as [G|G].
    + destruct (sindex_total tok 4) as [t4 ->]; [lia|]. cbn [bind]. eauto.
    + cbn [bind]. eauto.
  - intros self self' uci [san cap] Hwf H Hlen.
    apply apply_uci_Ok in H.
    destruct H as (fr & fc & tr & tc & promo0 & promo & legal & new &
                   Hp & Hl & Hin & _).
    pose proof (legal_on_board self None legal Hl) as Hon.
    rewrite Forall_forall in Hon. destruct (Hon _ Hin) as (Vf & Vt & _).
    apply valid_range in Vf, Vt.
    unfold parse_uci in Hp.
    destruct (Z.ltb_spec (Z.of_nat (String.length uci)) 4) as [L|L]; [discriminate|].
    bind_inv Hp. rename v into u0, E into E0.
    bind_inv Hp. rename v into u1, E into E1.
    bind_inv Hp. rename v into n1, E into I1.
    bind_inv Hp. rename v into u2, E into E2.
    bind_inv Hp. rename v into u3, E into E3.
    bind_inv Hp. rename v into n3, E into I3.
    bind_inv Hp. injection Hp as <- <- <- <- _.
    unfold OpeningBook._looks_like_uci.
    replace ((Z.of_nat (String.length uci) =? 4) || (Z.of_nat (String.length uci) =? 5))
      with true.
    2:{ symmetry. apply orb_true_iff.
        destruct (Z.eq_dec (Z.of_nat (String.length uci)) 4) as [C|C];
          [left | right]; apply Z.eqb_eq; lia. }
    cbn [negb]. rewrite E0, E1, E2, E3. cbn [bind].
    rewrite (file_letter_in u0), (int_char_digit u1 _ I1), (file_letter_in u2),
      (int_char_digit u3 _ I3); [reflexivity | |];
      apply andb_true_intro; split; (apply Z.leb_le || apply Z.ltb_lt); lia.
Qed.

Lemma looks_like_uci_agrees_witness :
  OpeningBook._looks_like_uci "e2e4" = Ok true.
Proof.
  apply (proj2 (proj2 looks_like_uci_agrees) start_position
           (snd (apply_uci "e2e4" start_position)) "e2e4" ("e4", None)).
  - exact start_well_formed.
  - vm_compute. reflexivity.
  - simpl. lia.
Defined.

(** ** Methods that read only the position fields

    The histories, the capture lists and the material cache do not enter
    move generation, check detection, SAN or the FEN text. *)

Section SamePosition.

Variables a b : Board.
Hypothesis Hsame : same_position a b.

Let Hb : board a = board b := proj1 Hsame.
Let Ht : turn a = turn b := proj1 (proj2 Hsame).
Let Hc : castling a = castling b := proj1 (proj2 (proj2 Hsame)).
Let He : ep a = ep b := proj1 (proj2 (proj2 (proj2 Hsame))).
Let Hh : halfmove a = halfmove b := proj1 (proj2 (proj2 (proj2 (proj2 Hsame)))).
Let Hf : fullmove a = fullmove b := proj2 (proj2 (proj2 (proj2 (proj2 Hsame)))).

Lemma cell_same (r c : Z) : cell a r c = cell b r c.
Proof. unfold cell. rewrite Hb. reflexivity. Qed.

Lemma find_in_row_same (k : ascii) (r : Z) (cs : list Z) :
  find_in_row a k r cs = find_in_row b k r cs.
Proof.
  induction cs as [|c cs IH]; cbn [find_in_row]; [reflexivity|].
  rewrite cell_same, IH. reflexivity.
Qed.

Lemma find_in_rows_same (k : ascii) (rs : list Z) :
  find_in_rows a k rs = find_in_rows b k rs.
Proof.
  induction rs as [|r rs IH]; cbn [find_in_rows]; [reflexivity|].
  rewrite find_in_row_same, IH. reflexivity.
Qed.

Lemma find_king_same (t : string) : find_king a t = find_king b t.
Proof. unfold find_king. apply find_in_rows_same. Qed.

Lemma attacked_by_offsets_same (r c : Z) (by_ : string) (kind : ascii)
  (ds : list (Z * Z)) :
  attacked_by_offsets a r c by_ kind ds = attacked_by_offsets b r c by_ kind ds.
Proof.
  induction ds as [|[dr dc] ds IH]; cbn [attacked_by_offsets]; [reflexivity|].
  rewrite cell_same, IH. reflexivity.
Qed.

Lemma attack_ray_same (fuel : nat) (by_ chars : string) (dr dc : Z) :
  forall nr nc,
    attack_ray fuel a by_ chars dr dc nr nc
    = attack_ray fuel b by_ chars dr dc nr nc.
Proof.
  induction fuel as [|fuel IH]; intros nr nc; cbn [attack_ray]; [reflexivity|].
  rewrite cell_same, IH. reflexivity.
Qed.

Lemma attacked_by_rays_same (r c : Z) (by_ chars : string) (ds : list (Z * Z)) :
  attacked_by_rays a r c by_ chars ds = attacked_by_rays b r c by_ chars ds.
Proof.
  induction ds as [|[dr dc] ds IH]; cbn [attacked_by_rays]; [reflexivity|].
  rewrite attack_ray_same, IH. reflexivity.
Qed.

Lemma is_attacked_same (r c : Z) (by_ : string) :
  is_attacked a r c by_ = is_attacked b r c by_.
Proof.
  unfold is_attacked.
  rewrite !attacked_by_offsets_same, !attacked_by_rays_same. reflexivity.
Qed.

Lemma in_check_same (turn_arg : option string) :
  in_check a turn_arg = in_check b turn_arg.
Proof.
  unfold in_check. rewrite Ht, find_king_same.
  destruct (find_king b _) as [[[kr kc]|]|e]; cbn [bind]; try reflexivity.
  apply is_attacked_same.
Qed.

Lemma is_ep_square_same (nr nc : Z) : is_ep_square a nr nc = is_ep_square b nr nc.
Proof. unfold is_ep_square. rewrite He. reflexivity. Qed.

Lemma pawn_captures_same (t : string) (r c fwd promo_r : Z) (dcs : list Z) :
  pawn_captures a t r c fwd promo_r dcs = pawn_captures b t r c fwd promo_r dcs.
Proof.
  induction dcs as [|dc dcs IH]; cbn [pawn_captures]; [reflexivity|].
  rewrite cell_same, IH.
  destruct (valid (r + fwd) (c + dc)); [|reflexivity].
  destruct (cell b (r + fwd) (c + dc)); cbn [bind]; [|reflexivity].
  rewrite is_ep_square_same. reflexivity.
Qed.

Lemma pawn_moves_same (t : string) (r c : Z) : pawn_moves a t r c = pawn_moves b t r c.
Proof.
  unfold pawn_moves. rewrite pawn_captures_same, !cell_same. reflexivity.
Qed.

Lemma offset_moves_same (piece : ascii) (r c : Z) (ds : list (Z * Z)) :
  offset_moves a piece r c ds = offset_moves b piece r c ds.
Proof.
  induction ds as [|[dr dc] ds IH]; cbn [offset_moves]; [reflexivity|].
  rewrite cell_same, IH. reflexivity.
Qed.

Lemma slide_ray_same (fuel : nat) (t : string) (r c dr dc : Z) :
  forall nr nc,
    slide_ray fuel a t r c dr dc nr nc = slide_ray fuel b t r c dr dc nr nc.
Proof.
  induction fuel as [|fuel IH]; intros nr nc; cbn [slide_ray]; [reflexivity|].
  rewrite cell_same, IH. reflexivity.
Qed.

Lemma slide_moves_same (t : string) (r c : Z) (ds : list (Z * Z)) :
  slide_moves a t r c ds = slide_moves b t r c ds.
Proof.
  induction ds as [|[dr dc] ds IH]; cbn [slide_moves]; [reflexivity|].
  rewrite slide_ray_same, IH. reflexivity.
Qed.

Lemma castle_moves_same (t : string) (r c : Z) :
  castle_moves a t r c = castle_moves b t r c.
Proof.
  unfold castle_moves. rewrite Hc.
  destruct (if String.eqb t "w" then (7, 4) else (0, 4)) as [kr kc].
  destruct ((r =? kr) && (c =? kc)); [|reflexivity].
  rewrite !is_attacked_same, !cell_same. reflexivity.
Qed.

Lemma pseudo_same (r c : Z) : _pseudo a r c = _pseudo b r c.
Proof.
  unfold _pseudo. rewrite cell_same.
  destruct (cell b r c) as [piece|e]; cbn [bind]; [|reflexivity].
  rewrite pawn_moves_same, !offset_moves_same, slide_moves_same, castle_moves_same.
  reflexivity.
Qed.

Lemma apply_raw_same (m : move) : _apply_raw a m = _apply_raw b m.
Proof.
  destruct m as [[[[fr fc] tr] tc] promo]. unfold _apply_raw.
  rewrite !cell_same, Hb, Ht, Hc, He, Hh, Hf. reflexivity.
Qed.

Lemma keep_safe_same (t : string) (mvs : list move) :
  keep_safe a t mvs = keep_safe b t mvs.
Proof.
  induction mvs as [|m mvs IH]; cbn [keep_safe]; [reflexivity|].
  rewrite apply_raw_same, IH. reflexivity.
Qed.

Lemma legal_from_same (t : string) (r c : Z) : legal_from a t r c = legal_from b t r c.
Proof.
  unfold legal_from. rewrite cell_same, pseudo_same.
  destruct (cell b r c) as [p|e]; cbn [bind]; [|reflexivity].
  destruct (Ascii.eqb p "."); [reflexivity|].
  destruct (negb _); [reflexivity|].
  destruct (_pseudo b r c) as [mvs|e]; cbn [bind]; [|reflexivity].
  apply keep_safe_same.
Qed.

Lemma legal_in_row_same (t : string) (r : Z) (cs : list Z) :
  legal_in_row a t r cs = legal_in_row b t r cs.
Proof.
  induction cs as [|c cs IH]; cbn [legal_in_row]; [reflexivity|].
  rewrite legal_from_same, IH. reflexivity.
Qed.

Lemma legal_in_rows_same (t : string) (rs : list Z) :
  legal_in_rows a t rs = legal_in_rows b t rs.
Proof.
  induction rs as [|r rs IH]; cbn [legal_in_rows]; [reflexivity|].
  rewrite legal_in_row_same, IH. reflexivity.
Qed.

Lemma legal_moves_same (turn_arg : option string) :
  legal_moves a turn_arg = legal_moves b turn_arg.
Proof. unfold legal_moves. rewrite Ht. apply legal_in_rows_same. Qed.

Lemma to_fen_same : to_fen a = to_fen b.
Proof. unfold to_fen. rewrite Hb, Ht, Hc, He, Hh, Hf. reflexivity. Qed.

Lemma pos_key_same : _pos_key a = _pos_key b.
Proof. unfold _pos_key. rewrite to_fen_same. reflexivity. Qed.

Lemma ambiguous_same (p : ascii) (fr fc tr tc : Z) (promo : option ascii)
  (legal : list move) :
  ambiguous a p fr fc tr tc promo legal = ambiguous b p fr fc tr tc promo legal.
Proof.
  induction legal as [|m legal IH]; cbn [ambiguous]; [reflexivity|].
  destruct m as [[[[m0 m1] m2] m3] m4]. rewrite cell_same, IH. reflexivity.
Qed.

Lemma build_san_same (fr fc tr tc : Z) (promo : option ascii) (legal : list move) :
  _build_san a fr fc tr tc promo legal = _build_san b fr fc tr tc promo legal.
Proof.
  unfold _build_san, ep_file, ep_rank.
  rewrite !cell_same, He.
  destruct (cell b fr fc) as [piece|e]; cbn [bind]; [|reflexivity].
  rewrite ambiguous_same. reflexivity.
Qed.

Lemma collect_material_same (sqs : list (Z * Z)) :
  collect_material a sqs = collect_material b sqs.
Proof.
  induction sqs as [|[r c] sqs IH]; cbn [collect_material]; [reflexivity|].
  rewrite cell_same, IH. reflexivity.
Qed.

Lemma insufficient_same : _insufficient a = _insufficient b.
Proof. unfold _insufficient. rewrite collect_material_same. reflexivity. Qed.

End SamePosition.

Lemma same_position_sym (a b : Board) : same_position a b -> same_position b a.
Proof. unfold same_position. intuition congruence. Qed.

Lemma same_position_trans (a b c : Board) :
  same_position a b -> same_position b c -> same_position a c.
Proof. unfold same_position. intuition congruence. Qed.

(** ** The bookkeeping of a game *)

Lemma apply_uci_clocks (uci : string) (self self' : Board)
  (r : string * option ascii) :
  apply_uci uci self = (Ok r, self') ->
  turn self' = (if String.eqb (turn self) "w" then "b" else "w") /\
  fullmove self' = (if String.eqb (turn self) "b" then fullmove self + 1
                    else fullmove self) /\
  (halfmove self' = 0 \/ halfmove self' = halfmove self + 1) /\
  move_history self' = move_history self ++ [(uci, fst r, to_fen self')] /\
  pos_history self'
  = dict_set (pos_history self) (_pos_key self')
      (dict_get (pos_history self) (_pos_key self') 0 + 1).
Proof.
  intros H. destruct r as [san cap]. apply apply_uci_Ok in H.
  destruct H as (fr & fc & tr & tc & promo0 & promo & legal & new &
                 _ & _ & _ & _ & Hn & Hsame & _ & Hmh & Hph & _).
  apply apply_raw_Ok in Hn.
  destruct Hn as (piece & target & _ & _ & _ & _ & Hturn & Hhalf & Hfull & _).
  destruct Hsame as (_ & E2 & _ & _ & E5 & E6).
  rewrite E2, E5, E6, Hturn, Hhalf, Hfull.
  repeat split; try assumption.
  destruct (_ || _); auto.
Qed.

Lemma play_history (ucis : list string) :
  forall b sans b',
    play ucis b = (Ok sans, b') ->
    map uci_of (move_history b') = map uci_of (move_history b) ++ ucis /\
    map san_of (move_history b') = map san_of (move_history b) ++ sans.
Proof.
  induction ucis as [|u rest IH]; intros b sans b' H; simpl in H.
  - injection H as <- <-. rewrite !app_nil_r. split; reflexivity.
  - destruct (apply_uci u b) as [[[san cap]|e] b1] eqn:E; [|discriminate].
    destruct (play rest b1) as [[ss|e] b2] eqn:E2; [|discriminate].
    injection H as <- <-.
    destruct (IH b1 ss b2 E2) as [Hu Hs].
    apply apply_uci_clocks in E. destruct E as (_ & _ & _ & Hmh & _).
    rewrite Hu, Hs, Hmh, !map_app. simpl. rewrite <- !app_assoc. split; reflexivity.
Qed.

Lemma even_succ_flip (n : nat) :
  side_after (S n) = (if String.eqb (side_after n) "w" then "b" else "w").
Proof.
  unfold side_after. rewrite Nat.even_succ, <- Nat.negb_even.
  destruct (Nat.even n); reflexivity.
Qed.

(** X10. In a game from [Board()], the side to move, the move number and
    the half-move clock follow from the number of moves made: White is to
    move after an even number of half-moves, [fullmove] is one more than the
    number of completed move pairs, and [halfmove] is between 0 and the
    number of half-moves; [uci_moves_list] is the list of the texts that were
    applied, as they were given (a promotion entered without its letter stays
    four characters), and the SANs returned are those of the history. *)
Theorem game_bookkeeping (b : Board) :
  reachable b ->
  let n := List.length (move_history b) in
  turn b = side_after n /\
  fullmove b = 1 + Z.of_nat n / 2 /\
  0 <= halfmove b <= Z.of_nat n /\
  forall ucis sans,
    play ucis start_position = (Ok sans, b) ->
    uci_moves_list b = ucis /\ map san_of (move_history b) = sans /\
    List.length ucis = n.
Proof.
  intros Hr.
  assert (Inv : turn b = side_after (List.length (move_history b)) /\
                fullmove b = 1 + Z.of_nat (List.length (move_history b)) / 2 /\
                0 <= halfmove b <= Z.of_nat (List.length (move_history b))).
  { induction Hr as [b Hinit | b uci r b' Hr IH Happ].
    - rewrite Board_init_start in Hinit. injection Hinit as <-.
      vm_compute. repeat split; congruence.
    - destruct IH as (It & If & Ih).
      apply apply_uci_clocks in Happ.
      destruct Happ as (Ht & Hf & Hh & Hmh & _).
      rewrite Hmh, length_app. cbn [List.length].
      rewrite Nat.add_1_r, even_succ_flip, <- It.
      split; [exact Ht|].
      split.
      + rewrite Hf, If, It. unfold side_after.
        rewrite Nat2Z.inj_succ.
        destruct (Nat.even (List.length (move_history b))) eqn:P.
        * replace (String.eqb "w" "b") with false by reflexivity.
          apply Nat.even_spec in P. destruct P as [k P]. rewrite P.
          rewrite Nat2Z.inj_mul. change (Z.of_nat 2) with 2.
          Z.to_euclidean_division_equations; lia.
        * replace (String.eqb "b" "b") with true by reflexivity.
          assert (O : Nat.odd (List.length (move_history b)) = true)
            by (rewrite <- Nat.negb_even, P; reflexivity).
          apply Nat.odd_spec in O. destruct O as [k O]. rewrite O.
          rewrite Nat2Z.inj_add, Nat2Z.inj_mul. change (Z.of_nat 2) with 2.
          change (Z.of_nat 1) with 1.
          Z.to_euclidean_division_equations; lia.
      + destruct Hh as [-> | ->]; lia. }
  destruct Inv as (It & If & Ih).
  cbv zeta. repeat (split; [assumption|]).
  intros ucis sans Hp.
  destruct (play_history ucis start_position sans b Hp) as [Hu Hs].
  change (move_history start_position) with (@nil (string * string * string)) in *.
  simpl in Hu, Hs. unfold uci_moves_list.
  split; [exact Hu|]. split; [exact Hs|].
  rewrite <- Hu. apply length_map.
Qed.

Lemma game_bookkeeping_witness :
  let b := position_after ["e2e4"; "e7e5"; "g1f3"] in
  turn b = "b" /\ fullmove b = 2 /\ uci_moves_list b = ["e2e4"; "e7e5"; "g1f3"].
Proof.
  intros b.
  assert (R : reachable b).
  { apply (position_after_reachable _ ["e4"; "e5"; "Nf3"]). vm_compute. reflexivity. }
  destruct (game_bookkeeping b R) as (Ht & Hf & _ & Hp).
  destruct (Hp ["e2e4"; "e7e5"; "g1f3"] ["e4"; "e5"; "Nf3"]) as (Hu & _ & Hn).
  { vm_compute. reflexivity. }
  rewrite Ht, Hf, <- Hn.
  split; [reflexivity|]. split; [reflexivity | exact Hu].
Defined.

(** ** The positions recorded in the history *)

Lemma play_app (l1 l2 : list string) :
  forall b0 s1 b1 s2 b2,
    play l1 b0 = (Ok s1, b1) -> play l2 b1 = (Ok s2, b2) ->
    play (l1 ++ l2) b0 = (Ok (s1 ++ s2), b2).
Proof.
  induction l1 as [|u l1 IH]; intros b0 s1 b1 s2 b2 H1 H2; simpl in H1 |- *.
  - injection H1 as <- <-. exact H2.
  - destruct (apply_uci u b0) as [[[san cap]|e] b] eqn:E; [|discriminate].
    destruct (play l1 b) as [[ss|e] b'] eqn:P; [|discriminate].
    injection H1 as <- <-. rewrite (IH b ss b' s2 b2 P H2). reflexivity.
Qed.

Lemma play_prefix (ucis : list string) :
  forall b0 sans b k,
    play ucis b0 = (Ok sans, b) ->
    exists sk bk rest_s,
      play (firstn k ucis) b0 = (Ok sk, bk) /\
      play (skipn k ucis) bk = (Ok rest_s, b) /\
      sans = sk ++ rest_s.
Proof.
  induction ucis as [|u ucis IH]; intros b0 sans b k H.
  - simpl in H. injection H as <- <-. exists [], b0, [].
    destruct k; simpl; auto.
  - destruct k as [|k].
    + exists [], b0, sans. simpl firstn. simpl skipn. auto.
    + simpl in H.
      destruct (apply_uci u b0) as [[[san cap]|e] b1] eqn:E; [|discriminate].
      destruct (play ucis b1) as [[ss|e] b2] eqn:P; [|discriminate].
      injection H as <- <-.
      destruct (IH b1 ss b2 k P) as (sk & bk & rs & H1 & H2 & ->).
      exists (san :: sk), bk, rs. simpl. rewrite E, H1. auto.
Qed.

Lemma play_last_entry (ucis : list string) :
  forall b0 sans b,
    play ucis b0 = (Ok sans, b) -> ucis <> [] ->
    exists h u s,
      move_history b = h ++ [(u, s, to_fen b)] /\
      List.length h = (List.length (move_history b0) + List.length ucis - 1)%nat /\
      u = last ucis "" /\ s = last sans "".
Proof.
  induction ucis as [|u ucis IH]; intros b0 sans b H Hne; [contradiction|].
  simpl in H.
  destruct (apply_uci u b0) as [[[san cap]|e] b1] eqn:E; [|discriminate].
  destruct (play ucis b1) as [[ss|e] b2] eqn:P; [|discriminate].
  injection H as <- <-.
  pose proof (apply_uci_clocks _ _ _ _ E) as (_ & _ & _ & Hmh & _).
  destruct ucis as [|u' ucis'].
  - simpl in P. injection P as <- <-.
    exists (move_history b0), u, san. rewrite Hmh. simpl.
    repeat split; try reflexivity. lia.
  - destruct (IH b1 ss b2 P) as (h & u2 & s2 & Hh & Hl & Hu & Hs); [discriminate|].
    exists h, u2, s2. split; [exact Hh|].
    rewrite Hmh, length_app in Hl. simpl in Hl |- *.
    split; [lia|]. split; [exact Hu|].
    destruct ss as [|s' ss']; [|exact Hs].
    simpl in P. destruct (apply_uci u' b1) as [[[a c]|e] bb]; [|discriminate].
    destruct (play ucis' bb) as [[x|e] y]; discriminate.
Qed.

Lemma nth_last_firstn {A} (l : list A) (d : A) :
  forall k, (k < List.length l)%nat ->
            nth_error l k = Some (last (firstn (S k) l) d).
Proof.
  induction l as [|x l IH]; intros k Hk; [simpl in Hk; lia|].
  destruct k as [|k]; [reflexivity|].
  simpl in Hk. destruct l as [|y l']; [simpl in Hk; lia|].
  change (nth_error (x :: y :: l') (S k)) with (nth_error (y :: l') k).
  rewrite (IH k) by lia.
  change (firstn (S (S k)) (x :: y :: l')) with (x :: y :: firstn k l').
  change (firstn (S k) (y :: l')) with (y :: firstn k l').
  reflexivity.
Qed.

(** X11. The FEN text stored with the k-th move of a game is the
    serialization of the position after the first k moves; that position is
    a position of the game, so loading the stored text never fails and gives
    back its board, side to move, castling rights, en-passant target and
    clocks. *)
Theorem history_records_positions (ucis sans : list string) (b : Board) (k : nat) :
  play ucis start_position = (Ok sans, b) ->
  (k < List.length ucis)%nat ->
  let p := position_after (firstn (S k) ucis) in
  exists u s,
    nth_error (move_history b) k = Some (u, s, to_fen p) /\
    nth_error ucis k = Some u /\
    reachable p /\
    forall q, _load_fen q (to_fen p) = Ok (with_position_of q p).
Proof.
  intros Hp Hk p.
  destruct (play_prefix ucis start_position sans b (S k) Hp)
    as (sk & bk & rs & H1 & H2 & ->).
  assert (Ep : p = bk).
  { unfold p, position_after. rewrite H1. reflexivity. }
  assert (Hne : firstn (S k) ucis <> []).
  { destruct ucis; [simpl in Hk; lia | discriminate]. }
  destruct (play_last_entry _ _ _ _ H1 Hne) as (h & u & s & Hh & Hl & Hu & _).
  assert (Hlen : List.length h = k).
  { rewrite Hl, length_firstn.
    change (move_history start_position) with (@nil (string * string * string)).
    cbn [List.length]. lia. }
  destruct (play_history _ _ _ _ H2) as [Hu2 _].
  assert (Hhist : exists t, move_history b = move_history bk ++ t).
  { clear - H2. revert bk rs H2.
    induction (skipn (S k) ucis) as [|x l IH]; intros bk rs H2; simpl in H2.
    - injection H2 as _ <-. exists []. rewrite app_nil_r. reflexivity.
    - destruct (apply_uci x bk) as [[[san cap]|e] b1] eqn:E; [|discriminate].
      destruct (play l b1) as [[ss|e] b2] eqn:P; [|discriminate].
      injection H2 as _ <-.
      destruct (IH b1 ss P) as [t Ht].
      pose proof (apply_uci_clocks _ _ _ _ E) as (_ & _ & _ & Hmh & _).
      rewrite Ht, Hmh, <- app_assoc. eauto. }
  destruct Hhist as [t Ht].
  assert (R : reachable bk).
  { eapply play_reachable; [|exact H1]. apply reach_init. exact Board_init_start. }
  exists u, s. rewrite Ep.
  split.
  - rewrite Ht, Hh, <- app_assoc. rewrite nth_error_app2 by lia.
    rewrite Hlen, Nat.sub_diag. reflexivity.
  - split.
    + rewrite Hu. apply nth_last_firstn. exact Hk.
    + split; [exact R|]. intros q. apply load_to_fen.
      apply reachable_fen_wf. exact R.
Qed.

Lemma history_records_positions_witness :
  let ucis := ["e2e4"; "e7e5"; "g1f3"] in
  let b := position_after ucis in
  let p := position_after (firstn 2 ucis) in
  exists u s,
    nth_error (move_history b) 1 = Some (u, s, to_fen p) /\
    nth_error ucis 1 = Some u /\
    reachable p /\
    forall q, _load_fen q (to_fen p) = Ok (with_position_of q p).
Proof.
  intros ucis b p.
  apply (history_records_positions ucis ["e4"; "e5"; "Nf3"] b 1).
  - vm_compute. reflexivity.
  - simpl. lia.
Defined.

(** ** The repetition table *)

Lemma dict_get_set (d : list (string * Z)) (k k' : string) (v x : Z) :
  dict_get (dict_set d k v) k' x
  = if String.eqb k k' then v else dict_get d k' x.
Proof.
  induction d as [|[k0 v0] d IH]; simpl.
  - reflexivity.
  - destruct (String.eqb k0 k) eqn:E; simpl.
    + apply String.eqb_eq in E. subst k0.
      destruct (String.eqb k k'); reflexivity.
    + rewrite IH. destruct (String.eqb k0 k') eqn:E'; [|reflexivity].
      apply String.eqb_eq in E'. subst k0.
      destruct (String.eqb k k') eqn:E2; [|reflexivity].
      apply String.eqb_eq in E2. subst k'. rewrite String.eqb_refl in E.
      discriminate.
Qed.

(** X12. In a game from [Board()], [pos_history] holds for every
    repetition key the number of moves of the game that led to a position with
    that key, the key being the first four fields of the FEN stored with the
    move.  The starting position itself is not counted, so the threefold test
    of [game_result] counts only returns to a position. *)
Theorem pos_history_counts (b : Board) :
  reachable b ->
  forall k, dict_get (pos_history b) k 0 = times_reached (move_history b) k.
Proof.
  induction 1 as [b Hinit | b uci r b' Hr IH Happ]; intros k.
  - rewrite Board_init_start in Hinit. injection Hinit as <-. reflexivity.
  - apply apply_uci_clocks in Happ. destruct Happ as (_ & _ & _ & Hmh & Hph).
    rewrite Hph, Hmh, dict_get_set. unfold times_reached.
    rewrite map_app, count_occ_app, Nat2Z.inj_add.
    fold (times_reached (move_history b) k). rewrite <- IH.
    cbn [map count_occ fen_of snd].
    change (key_of_fen (to_fen b')) with (_pos_key b').
    destruct (String.string_dec (_pos_key b') k) as [E|E].
    + subst k. rewrite String.eqb_refl. simpl. lia.
    + apply String.eqb_neq in E. rewrite E. simpl. lia.
Qed.

Lemma pos_history_counts_witness :
  let b := position_after ["g1f3"; "g8f6"; "f3g1"; "f6g8"; "g1f3"; "g8f6"] in
  dict_get (pos_history b) (_pos_key b) 0 = times_reached (move_history b) (_pos_key b).
Proof.
  intros b.
  apply (pos_history_counts b).
  apply (position_after_reachable _ ["Nf3"; "Nf6"; "Ng1"; "Ng8"; "Nf3"; "Nf6"]).
  vm_compute. reflexivity.
Defined.

(** ** The king of the side that moved *)

(** X13. After a move that [apply_uci] accepts, the side that made it is
    not in check. *)
Theorem mover_not_in_check (self self' : Board) (uci : string)
  (r : string * option ascii) :
  apply_uci uci self = (Ok r, self') ->
  in_check self' (Some (turn self)) = Ok false.
Proof.
  intros H. destruct r as [san cap]. apply apply_uci_Ok in H.
  destruct H as (fr & fc & tr & tc & promo0 & promo & legal & new &
                 _ & Hl & Hin & _ & Hn & Hsame & _).
  pose proof (legal_moves_In self None legal _ Hl Hin) as G.
  destruct G as (r0 & c0 & piece & mvs & b2 & _ & _ & _ & _ & _ & _ & Hraw & Hchk).
  rewrite Hn in Hraw. injection Hraw as <-.
  rewrite (in_check_same self' new Hsame). exact Hchk.
Qed.

Lemma mover_not_in_check_witness :
  in_check (position_after ["e2e4"]) (Some "w") = Ok false.
Proof.
  apply (mover_not_in_check start_position (position_after ["e2e4"]) "e2e4"
           ("e4", None)).
  vm_compute. reflexivity.
Defined.

(** ** Moves after the end of the game *)

(** X14. Once [game_result] reports checkmate or stalemate, [apply_uci]
    refuses every text and leaves the position as it is.  A game that
    [game_result] reports as drawn by the fifty-move rule, by repetition or
    by insufficient material still has legal moves, and on a well-formed
    position [apply_uci] still accepts them: ending the game there is left to
    the caller. *)
Theorem moves_after_the_end (b : Board) (over : bool) (res reason : string)
  (winner : option string) :
  game_result b = Ok (over, res, reason, winner) ->
  (reason = "Checkmate" \/ reason = "Stalemate" ->
   forall uci, exists e, apply_uci uci b = (Raise e, b)) /\
  (well_formed b -> over = true ->
   reason <> "Checkmate" -> reason <> "Stalemate" ->
   exists uci r b', apply_uci uci b = (Ok r, b')).
Proof.
  intros H. unfold game_result in H.
  bind_inv H. rename v into legal, E into Hl.
  destruct legal as [|m legal].
  - split.
    + intros _ uci.
      destruct (parse_uci uci) as [[[[[fr fc] tr] tc] promo0]|e] eqn:Hp.
      * exists (ValueError_illegal_move uci).
        apply (apply_uci_refused b uci fr fc tr tc promo0 [] Hp Hl).
        destruct promo0; reflexivity.
      * exists e. apply apply_uci_malformed. exact Hp.
    + intros _ _ N1 N2. bind_inv H.
      destruct v; injection H as _ _ <- _; contradiction.
  - split.
    + intros Hreason.
      destruct (100 <=? halfmove b);
        [injection H as _ _ <- _; destruct Hreason; discriminate|].
      destruct (3 <=? _);
        [injection H as _ _ <- _; destruct Hreason; discriminate|].
      bind_inv H.
      destruct v; injection H as _ _ <- _; destruct Hreason; discriminate.
    + intros Hwf _ _ _.
      pose proof (legal_on_board b None _ Hl) as Hon.
      inversion Hon as [|x l Hm _]; subst.
      destruct (uci_text_parse m Hm) as (uci & _ & Hp).
      destruct m as [[[[fr fc] tr] tc] promo].
      destruct (apply_uci_accepted b uci fr fc tr tc promo _ Hwf Hp Hl)
        as (r & b' & E).
      { rewrite In_move_in by (left; reflexivity). reflexivity. }
      eauto.
Qed.

Lemma moves_after_the_end_witness :
  forall uci, exists e,
    apply_uci uci (position_after ["f2f3"; "e7e5"; "g2g4"; "d8h4"])
    = (Raise e, position_after ["f2f3"; "e7e5"; "g2g4"; "d8h4"]).
Proof.
  apply (proj1 (moves_after_the_end
                  (position_after ["f2f3"; "e7e5"; "g2g4"; "d8h4"])
                  true "0-1" "Checkmate" (Some "black") ltac:(vm_compute; reflexivity))).
  left. reflexivity.
Defined.

(** ** The check marks of the SAN *)

Lemma append_empty (s : string) : s +++ "" = s.
Proof. induction s as [|c s IH]; simpl; [reflexivity | rewrite IH; reflexivity]. Qed.

Lemma endswith_last (p : string) (c x : ascii) :
  Py.endswith (p +++ Py.str1 c) (Py.str1 x) = Ascii.eqb c x.
Proof.
  destruct (Ascii.eqb c x) eqn:E.
  - apply Ascii.eqb_eq in E. subst x. apply endswith_app.
  - destruct (Py.endswith (p +++ Py.str1 c) (Py.str1 x)) eqn:W; [|reflexivity].
    apply endswith_inv in W. destruct W as [q W].
    apply app_same_tail in W. simpl in W. injection W as W _.
    subst x. rewrite Ascii.eqb_refl in E. discriminate.
Qed.

(** The SAN of a move on the board, before the check mark, ends with a
    rank digit, a promotion piece or the [O] of castling. *)
Lemma san_by_words_last (kind : ascii) (capture : bool) (fr fc tr tc : Z)
  (promo : option ascii) (rivals : list move) :
  on_board (fr, fc, tr, tc, promo) ->
  exists p c,
    san_by_words kind capture fr fc tr tc promo rivals = p +++ Py.str1 c /\
    c <> "#"%char /\ c <> "+"%char.
Proof.
  intros (_ & Vt & Hp). apply valid_range in Vt.
  destruct (rank_char tr (proj1 Vt)) as (d & Hd & _ & Dd).
  assert (Nd : d <> "#"%char /\ d <> "+"%char).
  { split; intros ->; discriminate Dd. }
  unfold san_by_words, rank_name.
  destruct (Ascii.eqb kind "k" && (fc =? 4) && (tc =? 6)).
  { exists "O-", "O"%char. repeat split; discriminate. }
  destruct (Ascii.eqb kind "k" && (fc =? 4) && (tc =? 2)).
  { exists "O-O-", "O"%char. repeat split; discriminate. }
  rewrite Hd.
  assert (Tail : exists q c,
             Py.str1 d +++ promo_suffix promo = q +++ Py.str1 c /\
             c <> "#"%char /\ c <> "+"%char).
  { destruct promo as [pr|]; simpl.
    - exists (String d "="), (Py.upper pr). split; [reflexivity|].
      simpl in Hp. destruct Hp as [<- | [<- | [<- | [<- | []]]]];
        split; discriminate.
    - exists "", d. split; [reflexivity | exact Nd]. }
  destruct Tail as (q & c & Eq & Nc).
  destruct (Ascii.eqb kind "p").
  - exists (((if capture then file_name fc +++ "x" else "") +++ file_name tc) +++ q), c.
    split; [|exact Nc].
    rewrite !append_assoc. rewrite Eq. reflexivity.
  - exists ((Py.str1 (Py.upper kind) +++ disambiguator rivals fr fc +++
             (if capture then "x" else "") +++ file_name tc) +++ q), c.
    split; [|exact Nc].
    rewrite !append_assoc. rewrite Eq. reflexivity.
Qed.

(** X15. The SAN that [apply_uci] returns ends with [#] exactly when the
    side to move in the new position is in check and has no legal move, and
    with [+] exactly when it is in check and has one; on a well-formed
    position [game_result] then returns, and it reports checkmate exactly
    when the SAN ends with [#]. *)
Theorem san_marks_the_result (self self' : Board) (uci san : string)
  (cap : option ascii) :
  well_formed self ->
  apply_uci uci self = (Ok (san, cap), self') ->
  exists in_chk legal_after over res reason winner,
    in_check self' None = Ok in_chk /\
    legal_moves self' None = Ok legal_after /\
    game_result self' = Ok (over, res, reason, winner) /\
    (Py.endswith san "#" = true <-> in_chk = true /\ legal_after = []) /\
    (Py.endswith san "+" = true <-> in_chk = true /\ legal_after <> []) /\
    (reason = "Checkmate" <-> Py.endswith san "#" = true).
Proof.
  intros Hwf H.
  pose proof (apply_uci_well_formed self self' uci _ (proj1 Hwf) H) as Hwf'.
  apply apply_uci_Ok in H.
  destruct H as (fr & fc & tr & tc & promo0 & promo & legal & new &
                 _ & Hl & Hin & _ & _ & _ & _ & _ & _ &
                 san0 & in_chk & legal_after & s1 & Hs & Hsame & Hchk & Hla & ->).
  rewrite (in_check_same s1 self' Hsame) in Hchk.
  rewrite (legal_moves_same s1 self' Hsame) in Hla.
  destruct (game_result_total self' Hwf') as [[[[over res] reason] winner] Hg].
  exists in_chk, legal_after, over, res, reason, winner.
  repeat (split; [assumption|]).
  pose proof (legal_on_board self None legal Hl) as Hon.
  rewrite Forall_forall in Hon. specialize (Hon _ Hin).
  apply build_san_by_words in Hs.
  destruct Hs as (piece & target & _ & _ & rivals & _ & ->).
  destruct (san_by_words_last (Py.lower piece)
              (negb (Ascii.eqb target ".") || is_en_passant self piece tr tc)
              fr fc tr tc promo rivals Hon) as (p & c & -> & N1 & N2).
  assert (Hmate : Py.endswith ((p +++ Py.str1 c)
                               +++ check_suffix in_chk (is_nil legal_after)) "#" = true
                  <-> in_chk = true /\ legal_after = []).
  { unfold check_suffix. destruct in_chk.
    - destruct legal_after as [|m l]; cbn [is_nil].
      + rewrite endswith_app. split; auto.
      + change "#" with (Py.str1 "#"). change "+" with (Py.str1 "+").
        rewrite endswith_last. simpl. split; [discriminate|].
        intros [_ C]. discriminate.
    - rewrite append_empty. change "#" with (Py.str1 "#").
      rewrite endswith_last. apply Ascii.eqb_neq in N1. rewrite N1.
      split; [discriminate | intros [C _]; discriminate]. }
  split; [exact Hmate|]. split.
  - unfold check_suffix. destruct in_chk.
    + destruct legal_after as [|m l]; cbn [is_nil].
      * change "#" with (Py.str1 "#"). change "+" with (Py.str1 "+").
        rewrite endswith_last. simpl. split; [discriminate|].
        intros [_ C]. contradiction.
      * rewrite endswith_app. split; [|reflexivity].
        intros _. split; [reflexivity | discriminate].
    + rewrite append_empty. change "+" with (Py.str1 "+").
      rewrite endswith_last. apply Ascii.eqb_neq in N2. rewrite N2.
      split; [discriminate | intros [C _]; discriminate].
  - rewrite Hmate. unfold game_result in Hg. rewrite Hla in Hg. cbn [bind] in Hg.
    destruct legal_after as [|m l].
    + rewrite Hchk in Hg. cbn [bind] in Hg.
      destruct in_chk; injection Hg as _ _ <- _.
      * split; auto.
      * split; [discriminate | intros [C _]; discriminate].
    + split; [|intros [_ C]; discriminate].
      intros ->.
      destruct (100 <=? halfmove self'); [discriminate|].
      destruct (3 <=? _); [discriminate|].
      destruct (_insufficient self') as [[]|]; discriminate.
Qed.

Lemma san_marks_the_result_witness :
  exists in_chk legal_after over res reason winner,
    let b := position_after ["f2f3"; "e7e5"; "g2g4"] in
    let b' := position_after ["f2f3"; "e7e5"; "g2g4"; "d8h4"] in
    in_check b' None = Ok in_chk /\
    legal_moves b' None = Ok legal_after /\
    game_result b' = Ok (over, res, reason, winner) /\
    (Py.endswith "Qh4#" "#" = true <-> in_chk = true /\ legal_after = []) /\
    (Py.endswith "Qh4#" "+" = true <-> in_chk = true /\ legal_after <> []) /\
    (reason = "Checkmate" <-> Py.endswith "Qh4#" "#" = true).
Proof.
  apply (san_marks_the_result (position_after ["f2f3"; "e7e5"; "g2g4"])
           (position_after ["f2f3"; "e7e5"; "g2g4"; "d8h4"]) "d8h4" "Qh4#" None).
  - apply reachable_well_formed.
    apply (position_after_reachable _ ["f3"; "e5"; "g4"]). vm_compute. reflexivity.
  - vm_compute. reflexivity.
Defined.
